(** * Risk-Mapper: the block-wise multi-raster aggregation engine

    A shallow embedding of the three hazard-analysis algorithms of the
    plugin,
      - [algs/frequency_summation.py]  (class [SummationAlgorithm]),
      - [algs/monthly_frequency.py]    (class [MonthlyFrequencyAlgorithm]),
      - [algs/seasonal_frequency.py]   (class [SeasonalFrequencyAlgorithm]),
    followed by the properties of the specification that concern them.
    After the three algorithms come the raster preprocessing of
    [algs/binary_conversion.py] and the naming of outputs and fields in
    [algs/exposure_analysis.py], [algs/exposure_sampling_count.py],
    [algs/zonal_statistics_multiple_rasters.py], [algs/area_calculation.py]
    and [algs/monthly_zonal_statistics.py], with further properties of
    the code.

    Conventions of the embedding.
      - Python [int] is [Z]; file names and paths are [string] (bytes; the
        regular expression class [\d] is read on ASCII digits).
      - Pixel values are integers.  A NumPy scalar of type [uint8], ...,
        [int32] is the [Z] it denotes, and [astype] to such a type wraps
        around.  A [float32] or [float64] scalar holding an integral value
        is the [Z] it denotes as well, and every float operation rounds to
        the nearest representable value, ties to even ([round_float]);
        overflow to infinity and NaN are outside the model.
      - [gdal.Open], [os.walk] and the user feedback object are the
        environment: a [World] record and a [Feedback] state.
      - A Python exception is a value of [exn]; a computation that may
        raise returns [res].  An uncaught exception ends the run: the
        model keeps what was reported up to it, not the raster left half
        written on disk.
      - The registration of a result as a map layer is kept as the
        message it pushes; the layer itself is outside the model. *)

From stdpp Require Import gmap strings list fin_maps sorting.
From Stdlib Require Import ZArith QArith.QArith_base Lia Ascii String DecimalString.

Local Open Scope string_scope.
Local Open Scope list_scope.
Local Open Scope Z_scope.

(** ** Exceptions *)

Inductive exn : Type :=
| NameError (name : string)
| AttributeError (attr : string)
| IndexError
| KeyError
| ValueError
| UnboundLocalError (name : string).

Inductive res (A : Type) : Type :=
| Ok (a : A)
| Raise (e : exn).
Arguments Ok {A} a.
Arguments Raise {A} e.

#[global] Instance res_ret : MRet res := fun A a => Ok a.

#[global] Instance res_bind : MBind res := fun A B k r =>
  match r with
  | Ok a => k a
  | Raise e => Raise e
  end.

(** [for x in xs: s = body(x, s)] where the body may raise. *)
Fixpoint for_res {X S} (body : X -> S -> res S) (xs : list X) (s : S) : res S :=
  match xs with
  | [] => Ok s
  | x :: xs' => s' ← body x s; for_res body xs' s'
  end.

(** ** Python built-ins *)

Module Py.

(** [range(0, stop, step)] for a positive [step]. *)
Definition range (stop step : Z) : list Z :=
  map (fun k : nat => Z.of_nat k * step)
      (seq 0 (Z.to_nat ((stop + step - 1) / step))).

Definition is_digit (c : ascii) : bool :=
  (48 <=? nat_of_ascii c)%nat && (nat_of_ascii c <=? 57)%nat.

Definition digit_value (c : ascii) : Z := Z.of_nat (nat_of_ascii c) - 48.

(** [str.lower] on the ASCII letters. *)
Definition lower_char (c : ascii) : ascii :=
  let n := nat_of_ascii c in
  if (65 <=? n)%nat && (n <=? 90)%nat then ascii_of_nat (n + 32) else c.

Fixpoint lower (s : string) : string :=
  match s with
  | EmptyString => EmptyString
  | String c s' => String (lower_char c) (lower s')
  end.

(** [s.endswith(suffix)] *)
Definition endswith (s suffix : string) : bool :=
  let n := String.length s in
  let k := String.length suffix in
  (k <=? n)%nat && String.eqb (substring (n - k) k s) suffix.

(** [os.path.join(root, fname)] on a POSIX system. *)
Definition path_join (root fname : string) : string :=
  if String.prefix "/" fname then fname
  else if String.eqb root "" || endswith root "/" then root +:+ fname
  else root +:+ "/" +:+ fname.

(** The digits of an [int] literal: decimal digits, single underscores
    allowed between two digits. *)
Fixpoint int_digits (acc : Z) (after_digit : bool) (s : string) : option Z :=
  match s with
  | EmptyString => if after_digit then Some acc else None
  | String c s' =>
      if is_digit c then int_digits (10 * acc + digit_value c) true s'
      else if Ascii.eqb c "_" && after_digit then int_digits acc false s'
      else None
  end.

(** [int(s)] for a string without surrounding white space; [None] is
    [ValueError]. *)
Definition int (s : string) : option Z :=
  match s with
  | String "-" s' => Z.opp <$> int_digits 0 false s'
  | String "+" s' => int_digits 0 false s'
  | _ => int_digits 0 false s
  end.

Definition is_space (c : ascii) : bool :=
  let n := nat_of_ascii c in
  ((9 <=? n)%nat && (n <=? 13)%nat) || ((28 <=? n)%nat && (n <=? 32)%nat).

Fixpoint lstrip (s : string) : string :=
  match s with
  | String c s' => if is_space c then lstrip s' else s
  | EmptyString => EmptyString
  end.

Fixpoint rstrip (s : string) : string :=
  match s with
  | EmptyString => EmptyString
  | String c s' =>
      match rstrip s' with
      | EmptyString => if is_space c then EmptyString else String c EmptyString
      | t => String c t
      end
  end.

(** [s.strip()] *)
Definition strip (s : string) : string := rstrip (lstrip s).

Fixpoint zeros (n : nat) : string :=
  match n with
  | O => EmptyString
  | S n' => String "0" (zeros n')
  end.

(** [s.zfill(width)]: the padding goes after a leading sign. *)
Definition zfill (width : nat) (s : string) : string :=
  let pad := zeros (width - String.length s) in
  match s with
  | String "-" s' => String "-" (pad +:+ s')
  | String "+" s' => String "+" (pad +:+ s')
  | _ => pad +:+ s
  end.

(** [s.split(sep)] for a one-character separator. *)
Fixpoint split (sep : ascii) (s : string) : list string :=
  match s with
  | EmptyString => [EmptyString]
  | String c s' =>
      if Ascii.eqb c sep then EmptyString :: split sep s'
      else match split sep s' with
           | [] => [String c EmptyString]
           | w :: ws => String c w :: ws
           end
  end.

End Py.

(** ** NumPy scalars and blocks *)

Module Np.

Inductive dtype : Type :=
| uint8 | uint16 | uint32 | int16 | int32 | float32 | float64.

Definition wrap_unsigned (bits v : Z) : Z := v mod 2 ^ bits.

Definition wrap_signed (bits v : Z) : Z :=
  (v + 2 ^ (bits - 1)) mod 2 ^ bits - 2 ^ (bits - 1).

(** [n / d] rounded to the nearest integer, ties to the even one
    ([0 <= n], [0 < d]). *)
Definition round_half_even (n d : Z) : Z :=
  let q := n / d in
  let r := n mod d in
  if 2 * r <? d then q
  else if d <? 2 * r then q + 1
  else if Z.even q then q else q + 1.

(** Exponent of the unit in the last place of an integer [v] held in a
    binary float with a [prec]-bit significand. *)
Definition float_exp (prec v : Z) : Z :=
  Z.max 0 (Z.log2 (Z.abs v) + 1 - prec).

(** The integer [v] rounded to a float with a [prec]-bit significand,
    round to nearest, ties to even. *)
Definition round_float (prec v : Z) : Z :=
  let e := float_exp prec v in
  Z.sgn v * (round_half_even (Z.abs v) (2 ^ e) * 2 ^ e).

(** [numpy.ndarray.astype], one element. *)
Definition astype (t : dtype) (v : Z) : Z :=
  match t with
  | uint8 => wrap_unsigned 8 v
  | uint16 => wrap_unsigned 16 v
  | uint32 => wrap_unsigned 32 v
  | int16 => wrap_signed 16 v
  | int32 => wrap_signed 32 v
  | float32 => round_float 24 v
  | float64 => round_float 53 v
  end.

(** [a + b] on two scalars of type [t]. *)
Definition add (t : dtype) (a b : Z) : Z := astype t (a + b).

(** [a == s] for an element [a] of an array of type [t] and a Python
    float [s] (here [GetNoDataValue()], an integral double): a float32
    array compares in float32, an integer array is promoted to float64,
    which holds every 32-bit integer exactly. *)
Definition eq_scalar (t : dtype) (a s : Z) : bool :=
  match t with
  | float32 => a =? astype float32 s
  | _ => a =? s
  end.

(** [numpy.clip], one element: [minimum(maximum(v, lo), hi)]. *)
Definition clip (v lo hi : Z) : Z := Z.min (Z.max v lo) hi.

(** A two-dimensional array, as its list of rows. *)
Abbreviation block := (list (list Z)).

(** [np.zeros((ysize, xsize))] *)
Definition zeros (ysize xsize : Z) : block :=
  replicate (Z.to_nat ysize) (replicate (Z.to_nat xsize) 0).

Definition block_map (f : Z -> Z) (b : block) : block := map (map f) b.

(** [a += b] for two blocks of one shape. *)
Definition block_add (t : dtype) (a b : block) : block :=
  zip_with (zip_with (add t)) a b.

(** [data[data == s] = 0] *)
Definition mask_zero (t : dtype) (s : Z) (data : block) : block :=
  block_map (fun v => if eq_scalar t v s then 0 else v) data.

(** Element [(i, j)] of a block: column [i] of row [j]. *)
Definition block_get (b : block) (i j : nat) : option Z :=
  row ← b !! j; row !! i.

End Np.

(** ** The [re] module: the one date pattern of the plugin *)

Module Re.

(** An anchored match of [\d{4}-\d{2}-\d{2}] at the start of [s]: the
    four year digits and the two month digits. *)
Definition match_date (s : string) : option (string * string) :=
  match s with
  | String y1 (String y2 (String y3 (String y4 (String h1
      (String m1 (String m2 (String h2 (String d1 (String d2 _))))))))) =>
      if Py.is_digit y1 && Py.is_digit y2 && Py.is_digit y3 && Py.is_digit y4
         && Ascii.eqb h1 "-" && Py.is_digit m1 && Py.is_digit m2
         && Ascii.eqb h2 "-" && Py.is_digit d1 && Py.is_digit d2
      then Some (String y1 (String y2 (String y3 (String y4 EmptyString))),
                 String m1 (String m2 EmptyString))
      else None
  | _ => None
  end.

(** [re.search] of that pattern: the match that starts leftmost. *)
Fixpoint search_date (s : string) : option (string * string) :=
  match match_date s with
  | Some g => Some g
  | None =>
      match s with
      | EmptyString => None
      | String _ s' => search_date s'
      end
  end.

End Re.

(** ** GDAL: raster datasets *)

Module Gdal.

Inductive GDALDataType : Type :=
| GDT_Byte | GDT_UInt16 | GDT_UInt32 | GDT_Int16 | GDT_Int32
| GDT_Float32 | GDT_Float64.

(** A single-band raster opened for reading.  [pixel ds x y] is the
    stored value in column [x] of row [y]; [NoDataValue] is what
    [GetNoDataValue()] returns. *)
Record Dataset : Type := {
  RasterXSize : Z;
  RasterYSize : Z;
  GeoTransform : list Q;
  Projection : string;
  NoDataValue : option Z;
  pixel : Z -> Z -> Z
}.

(** [band.ReadAsArray(xoff, yoff, xsize, ysize)]: the window as an array
    of [ysize] rows, or [None] when the window leaves the raster. *)
Definition ReadAsArray (ds : Dataset) (xoff yoff xsize ysize : Z)
  : option Np.block :=
  if (0 <=? xoff) && (0 <=? yoff)
     && (xoff + xsize <=? RasterXSize ds) && (yoff + ysize <=? RasterYSize ds)
  then Some (map (fun j : nat =>
               map (fun i : nat => pixel ds (xoff + Z.of_nat i) (yoff + Z.of_nat j))
                   (seq 0 (Z.to_nat xsize)))
             (seq 0 (Z.to_nat ysize)))
  else None.

(** A raster being written. [written] lists the [WriteArray] calls, oldest
    first. *)
Record OutDataset : Type := {
  out_path : string;
  out_xsize : Z;
  out_ysize : Z;
  out_type : GDALDataType;
  out_options : list string;
  out_geo : option (list Q);
  out_proj : option string;
  out_nodata : option Z;
  written : list (Z * Z * Np.block);
  flushed : bool
}.

(** [driver.Create(path, cols, rows, 1, dtype, options=options)] *)
Definition Create (path : string) (cols rows : Z) (t : GDALDataType)
    (options : list string) : OutDataset :=
  {| out_path := path; out_xsize := cols; out_ysize := rows; out_type := t;
     out_options := options; out_geo := None; out_proj := None;
     out_nodata := None; written := []; flushed := false |}.

Definition SetGeoTransform (geo : list Q) (o : OutDataset) : OutDataset :=
  {| out_path := out_path o; out_xsize := out_xsize o; out_ysize := out_ysize o;
     out_type := out_type o; out_options := out_options o; out_geo := Some geo;
     out_proj := out_proj o; out_nodata := out_nodata o; written := written o;
     flushed := flushed o |}.

Definition SetProjection (proj : string) (o : OutDataset) : OutDataset :=
  {| out_path := out_path o; out_xsize := out_xsize o; out_ysize := out_ysize o;
     out_type := out_type o; out_options := out_options o; out_geo := out_geo o;
     out_proj := Some proj; out_nodata := out_nodata o; written := written o;
     flushed := flushed o |}.

Definition SetNoDataValue (v : Z) (o : OutDataset) : OutDataset :=
  {| out_path := out_path o; out_xsize := out_xsize o; out_ysize := out_ysize o;
     out_type := out_type o; out_options := out_options o; out_geo := out_geo o;
     out_proj := out_proj o; out_nodata := Some v; written := written o;
     flushed := flushed o |}.

(** [out_band.WriteArray(block, xoff=x, yoff=y)] *)
Definition WriteArray (b : Np.block) (xoff yoff : Z) (o : OutDataset) : OutDataset :=
  {| out_path := out_path o; out_xsize := out_xsize o; out_ysize := out_ysize o;
     out_type := out_type o; out_options := out_options o; out_geo := out_geo o;
     out_proj := out_proj o; out_nodata := out_nodata o;
     written := written o ++ [(xoff, yoff, b)]; flushed := flushed o |}.

Definition FlushCache (o : OutDataset) : OutDataset :=
  {| out_path := out_path o; out_xsize := out_xsize o; out_ysize := out_ysize o;
     out_type := out_type o; out_options := out_options o; out_geo := out_geo o;
     out_proj := out_proj o; out_nodata := out_nodata o; written := written o;
     flushed := true |}.

(** The value one write left at pixel [(px, py)], if it covers it. *)
Definition write_at (w : Z * Z * Np.block) (px py : Z) : option Z :=
  let '(xoff, yoff, b) := w in
  if (xoff <=? px) && (yoff <=? py)
  then Np.block_get b (Z.to_nat (px - xoff)) (Z.to_nat (py - yoff))
  else None.

(** The content of the output raster at pixel [(px, py)]: the latest
    write that covers it, and zero where nothing was written. *)
Definition out_pixel (o : OutDataset) (px py : Z) : Z :=
  fold_left (fun v w => default v (write_at w px py)) (written o) 0.

End Gdal.

(** ** The environment: file system and feedback *)

(** [walk top] is what [os.walk(top)] yields, as (root, files) pairs;
    [Open path] is [gdal.Open(path)]. *)
Record World : Type := {
  walk : string -> list (string * list string);
  Open : string -> option Gdal.Dataset
}.

(** The texts pushed to the feedback object, one constructor per format
    string of the three algorithms. *)
Inductive text : Type :=
| Found (n : nat)
| SavedFrequency (path : string)
| LoadedIntoQgis
| MonthOf (fname month : string)
| SkippingNoDate (fname : string)
| ProcessingMonth (month : string) (n : nat)
| Saved (path : string)
| Loaded (path : string)
| AllMonthlyCreated
| UsingSeasons (seasons : list (string * list string))
| SkippingBadName (fname : string)
| ProcessingSeason (season_name : string) (season_year : Z) (n : nat)
| MonthsAdjusted (months : list (string * option Z * Z))
| AllSeasonalCreated.

Inductive event : Type :=
| PushInfo (t : text)
| PushWarning (t : text)
| SetProgress (percent : Z).

(** The feedback object of a run: what was reported so far, and the
    cancellation signal of the caller, which may depend on it. *)
Record Feedback : Type := {
  cancel_signal : list event -> bool;
  reported : list event
}.

Definition isCanceled (fb : Feedback) : bool := cancel_signal fb (reported fb).

Definition report (e : event) (fb : Feedback) : Feedback :=
  {| cancel_signal := cancel_signal fb; reported := reported fb ++ [e] |}.

(** A run: it updates the feedback and returns or raises. *)
Definition M (A : Type) : Type := Feedback -> Feedback * res A.

#[global] Instance M_ret : MRet M := fun A a fb => (fb, Ok a).

#[global] Instance M_bind : MBind M := fun A B k m fb =>
  match m fb with
  | (fb', Ok a) => k a fb'
  | (fb', Raise e) => (fb', Raise e)
  end.

Definition raise {A} (e : exn) : M A := fun fb => (fb, Raise e).

Definition lift {A} (r : res A) : M A := fun fb => (fb, r).

Definition pushInfo (t : text) : M unit := fun fb => (report (PushInfo t) fb, Ok tt).

Definition pushWarning (t : text) : M unit :=
  fun fb => (report (PushWarning t) fb, Ok tt).

Definition setProgress (p : Z) : M unit := fun fb => (report (SetProgress p) fb, Ok tt).

(** [for x in xs: s = body(x, s)] in a run. *)
Fixpoint for_M {X S} (body : X -> S -> M S) (xs : list X) (s : S) : M S :=
  match xs with
  | [] => mret s
  | x :: xs' => s' ← body x s; for_M body xs' s'
  end.

(** ** Tiles *)

Record Tile : Type := { tile_x : Z; tile_y : Z; tile_xsize : Z; tile_ysize : Z }.

(** The windows the block loops visit, in the order they visit them:
    [for y in range(0, rows, block_size)], then
    [for x in range(0, cols, block_size)]. *)
Definition tiles (cols rows block_size : Z) : list Tile :=
  y ← Py.range rows block_size;
  x ← Py.range cols block_size;
  [ {| tile_x := x; tile_y := y;
       tile_xsize := Z.min block_size (cols - x);
       tile_ysize := Z.min block_size (rows - y) |} ].

Definition in_tile (t : Tile) (px py : Z) : Prop :=
  tile_x t <= px < tile_x t + tile_xsize t /\
  tile_y t <= py < tile_y t + tile_ysize t.

(** [sorted(xs)], through a total preorder on the elements; stable, as
    Python's sort is. *)
Fixpoint insert_sorted {A} (le : A -> A -> bool) (x : A) (l : list A) : list A :=
  match l with
  | [] => [x]
  | y :: l' => if le x y then x :: l else y :: insert_sorted le x l'
  end.

Definition sorted {A} (le : A -> A -> bool) (l : list A) : list A :=
  foldr (insert_sorted le) [] l.

(** ** [algs/frequency_summation.py] *)

Module Summation.
Import Gdal.

Record Parameters : Type := {
  INPUT_FOLDER : string;
  OUTPUT_RASTER : string;
  OUT_DATATYPE : Z;
  COMPRESSION : Z;
  LOAD_RESULT : bool
}.

Definition block_size : Z := 512.

(** [gdal_dtype_map.get(dtype_idx, gdal.GDT_UInt16)] *)
Definition out_gdal_dtype (dtype_idx : Z) : GDALDataType :=
  match dtype_idx with
  | 0 => GDT_Byte
  | 1 => GDT_UInt16
  | 2 => GDT_UInt32
  | 3 => GDT_Int16
  | 4 => GDT_Int32
  | 5 => GDT_Float32
  | 6 => GDT_Float64
  | _ => GDT_UInt16
  end.

(** [compression_map.get(compression_idx)] *)
Definition compression_val (compression_idx : Z) : option string :=
  match compression_idx with
  | 1 => Some "LZW"
  | 2 => Some "DEFLATE"
  | 3 => Some "PACKBITS"
  | _ => None
  end.

Definition creation_options (compression_idx : Z) : list string :=
  match compression_val compression_idx with
  | Some c => ["COMPRESS=" +:+ c]
  | None => []
  end.

(** Gather all TIFFs recursively. *)
Definition all_rasters (w : World) (input_folder : string) : list string :=
  '(root, files) ← walk w input_folder;
  fname ← files;
  if Py.endswith (Py.lower fname) ".tif" then [Py.path_join root fname] else [].

(** One contributor of one tile: open, read the window, cast to the
    accumulator type, then zero the pixels equal to nodata.  A raster
    that does not open, or a window that leaves it, makes the next
    attribute access fail. *)
Definition read_data (w : World) (raster_path : string) (x y xsize ysize : Z)
  : res Np.block :=
  match Open w raster_path with
  | None => Raise (AttributeError "GetRasterBand")
  | Some ds =>
      match ReadAsArray ds x y xsize ysize with
      | None => Raise (AttributeError "astype")
      | Some raw =>
          let data := Np.block_map (Np.astype Np.uint32) raw in
          let nodata := NoDataValue ds in
          Ok (match nodata with
              | Some nodata => Np.mask_zero Np.uint32 nodata data
              | None => data
              end)
      end
  end.

(** The body of the loop over [all_rasters]: [block_sum += data]. *)
Definition add_raster (w : World) (x y xsize ysize : Z) (raster_path : string)
    (block_sum : Np.block) : res Np.block :=
  data ← read_data w raster_path x y xsize ysize;
  Ok (Np.block_add Np.uint32 block_sum data).

(** The accumulator of one tile after the loop over [all_rasters]. *)
Definition block_sum (w : World) (rasters : list string) (x y xsize ysize : Z)
  : res Np.block :=
  for_res (add_raster w x y xsize ysize) rasters (Np.zeros ysize xsize).

(** Cast to output type, one element. *)
Definition cast_value (t : GDALDataType) (v : Z) : Z :=
  match t with
  | GDT_Byte => Np.astype Np.uint8 (Np.clip v 0 255)
  | GDT_UInt16 => Np.astype Np.uint16 (Np.clip v 0 65535)
  | GDT_UInt32 => Np.astype Np.uint32 (Np.clip v 0 4294967295)
  | GDT_Int16 => Np.astype Np.int16 (Np.clip v (-32768) 32767)
  | GDT_Int32 => Np.astype Np.int32 (Np.clip v (-2147483648) 2147483647)
  | GDT_Float32 => Np.astype Np.float32 v
  | GDT_Float64 => Np.astype Np.float64 v
  end.

Definition out_block (t : GDALDataType) (block_sum : Np.block) : Np.block :=
  Np.block_map (cast_value t) block_sum.

(** The body of the two block loops for one window. *)
Definition process_block (w : World) (rasters : list string) (t : GDALDataType)
    (x y xsize ysize : Z) (out_ds : OutDataset) : M OutDataset :=
  block_sum ← lift (block_sum w rasters x y xsize ysize);
  mret (WriteArray (out_block t block_sum) x y out_ds).

(** Process rasters in blocks; progress is reported after each row of
    blocks, [int(100.0 * (y + ysize) / rows)]. *)
Definition process_blocks (w : World) (rasters : list string) (t : GDALDataType)
    (cols rows : Z) (out_ds : OutDataset) : M OutDataset :=
  for_M (fun y out_ds =>
           let ysize := Z.min block_size (rows - y) in
           out_ds ← for_M (fun x out_ds =>
                             let xsize := Z.min block_size (cols - x) in
                             process_block w rasters t x y xsize ysize out_ds)
                          (Py.range cols block_size) out_ds;
           _ ← setProgress (100 * (y + ysize) / rows);
           mret out_ds)
        (Py.range rows block_size) out_ds.

(** [processAlgorithm]: the raster written.  [QgsProcessingException] is
    not among the names the module imports, so the [raise] statement of
    the empty case fails on evaluating that name. *)
Definition processAlgorithm (w : World) (p : Parameters) : M OutDataset :=
  let t := out_gdal_dtype (OUT_DATATYPE p) in
  let rasters := all_rasters w (INPUT_FOLDER p) in
  match rasters with
  | [] => raise (NameError "QgsProcessingException")
  | first :: _ =>
      _ ← pushInfo (Found (List.length rasters));
      match Open w first with
      | None => raise (AttributeError "GetGeoTransform")
      | Some sample_ds =>
          let geo := GeoTransform sample_ds in
          let proj := Projection sample_ds in
          let cols := RasterXSize sample_ds in
          let rows := RasterYSize sample_ds in
          let out_ds :=
            SetNoDataValue 0
              (SetProjection proj
                 (SetGeoTransform geo
                    (Create (OUTPUT_RASTER p) cols rows t
                            (creation_options (COMPRESSION p))))) in
          out_ds ← process_blocks w rasters t cols rows out_ds;
          let out_ds := FlushCache out_ds in
          _ ← pushInfo (SavedFrequency (OUTPUT_RASTER p));
          _ ← (if LOAD_RESULT p then pushInfo LoadedIntoQgis else mret tt);
          mret out_ds
      end
  end.

End Summation.

(** ** [algs/monthly_frequency.py] *)

Module Monthly.
Import Gdal.

Record Parameters : Type := {
  INPUT_FOLDER : string;
  OUTPUT_FOLDER : string;
  PREFIX : string;
  LOAD_MAPS : bool
}.

Definition block_size : Z := 512.

(** [re.search(month_pattern, fname)] and [match.group(1)]. *)
Definition month_of (fname : string) : option string :=
  snd <$> Re.search_date fname.

(** The body of the traversal for one file: the [defaultdict(list)]
    [rasters_by_month] after it. *)
Definition classify (root fname : string)
    (rasters_by_month : gmap string (list string)) : M (gmap string (list string)) :=
  if Py.endswith (Py.lower fname) ".tif" then
    match month_of fname with
    | Some month =>
        let full_path := Py.path_join root fname in
        let rasters_by_month :=
          <[month := default [] (rasters_by_month !! month) ++ [full_path]]>
            rasters_by_month in
        _ ← pushInfo (MonthOf fname month);
        mret rasters_by_month
    | None =>
        _ ← pushInfo (SkippingNoDate fname);
        mret rasters_by_month
    end
  else mret rasters_by_month.

(** Traverse all subfolders recursively. *)
Definition scan (w : World) (main_input_folder : string)
  : M (gmap string (list string)) :=
  for_M (fun '(root, files) rasters_by_month =>
           for_M (classify root) files rasters_by_month)
        (walk w main_input_folder) ∅.

Definition read_data (w : World) (r : string) (x y cols_to_read rows_to_read : Z)
  : res Np.block :=
  match Open w r with
  | None => Raise (AttributeError "GetRasterBand")
  | Some ds =>
      match ReadAsArray ds x y cols_to_read rows_to_read with
      | None => Raise (AttributeError "astype")
      | Some raw =>
          let data := Np.block_map (Np.astype Np.float32) raw in
          let nd := NoDataValue ds in
          Ok (match nd with
              | Some nd => Np.mask_zero Np.float32 nd data
              | None => data
              end)
      end
  end.

(** The body of the loop over [rasters]: [block_sum += data]. *)
Definition add_raster (w : World) (x y cols_to_read rows_to_read : Z) (r : string)
    (block_sum : Np.block) : res Np.block :=
  data ← read_data w r x y cols_to_read rows_to_read;
  Ok (Np.block_add Np.float32 block_sum data).

Definition block_sum (w : World) (rasters : list string)
    (x y cols_to_read rows_to_read : Z) : res Np.block :=
  for_res (add_raster w x y cols_to_read rows_to_read)
          rasters (Np.zeros rows_to_read cols_to_read).

Definition process_block (w : World) (rasters : list string)
    (x y cols_to_read rows_to_read : Z) (out_ds : OutDataset) : M OutDataset :=
  block_sum ← lift (block_sum w rasters x y cols_to_read rows_to_read);
  mret (WriteArray block_sum x y out_ds).

Definition process_blocks (w : World) (rasters : list string)
    (cols rows : Z) (out_ds : OutDataset) : M OutDataset :=
  for_M (fun y out_ds =>
           let rows_to_read := Z.min block_size (rows - y) in
           for_M (fun x out_ds =>
                    let cols_to_read := Z.min block_size (cols - x) in
                    process_block w rasters x y cols_to_read rows_to_read out_ds)
                 (Py.range cols block_size) out_ds)
        (Py.range rows block_size) out_ds.

(** Process each month: the body of the loop over
    [sorted(rasters_by_month.items())]; [outputs] are the rasters saved
    so far. *)
Definition process_month (w : World) (p : Parameters)
    (item : string * list string) (outputs : list OutDataset)
  : M (list OutDataset) :=
  let '(month, rasters) := item in
  match rasters with
  | [] => mret outputs
  | first :: _ =>
      _ ← pushInfo (ProcessingMonth month (List.length rasters));
      match Open w first with
      | None => raise (AttributeError "GetGeoTransform")
      | Some ds =>
          let geo := GeoTransform ds in
          let proj := Projection ds in
          let cols := RasterXSize ds in
          let rows := RasterYSize ds in
          let output_path :=
            Py.path_join (OUTPUT_FOLDER p) (PREFIX p +:+ month +:+ ".tif") in
          let out_ds :=
            SetNoDataValue 0
              (SetProjection proj
                 (SetGeoTransform geo
                    (Create output_path cols rows GDT_Float32 ["COMPRESS=LZW"]))) in
          out_ds ← process_blocks w rasters cols rows out_ds;
          let out_ds := FlushCache out_ds in
          _ ← pushInfo (Saved output_path);
          _ ← (if LOAD_MAPS p then pushInfo (Loaded output_path) else mret tt);
          mret (outputs ++ [out_ds])
      end
  end.

Definition by_month (a b : string * list string) : bool := String.leb a.1 b.1.

(** [processAlgorithm]: the rasters saved, one per month. *)
Definition processAlgorithm (w : World) (p : Parameters) : M (list OutDataset) :=
  rasters_by_month ← scan w (INPUT_FOLDER p);
  outputs ← for_M (process_month w p)
                  (sorted by_month (map_to_list rasters_by_month)) [];
  _ ← pushInfo AllMonthlyCreated;
  mret outputs.

End Monthly.

(** ** [algs/seasonal_frequency.py] *)

Module Seasonal.
Import Gdal.

Record Parameters : Type := {
  INPUT_FOLDER : string;
  OUTPUT_FOLDER : string;
  PREFIX : string;
  LOAD_MAPS : bool;
  SEASONS : list string
}.

Definition block_size : Z := 512.

(** The dictionary [seasons], in insertion order. *)
Abbreviation season_dict := (list (string * list string)).

(** [seasons[k] = v] *)
Fixpoint dict_set (k : string) (v : list string) (d : season_dict) : season_dict :=
  match d with
  | [] => [(k, v)]
  | (k', v') :: d' =>
      if String.eqb k' k then (k, v) :: d' else (k', v') :: dict_set k v d'
  end.

(** [seasons[k]] *)
Definition dict_get (k : string) (d : season_dict) : res (list string) :=
  match find (fun kv => String.eqb kv.1 k) d with
  | Some kv => Ok kv.2
  | None => Raise KeyError
  end.

(** [[m.strip().zfill(2) for m in months_str.split(',')]] *)
Definition months_of (months_str : string) : list string :=
  map (fun m => Py.zfill 2 (Py.strip m)) (Py.split "," months_str).

(** Convert matrix to dictionary: the loop over
    [range(0, len(seasons_matrix), 2)]. *)
Fixpoint read_seasons (seasons_matrix : list string) (seasons : season_dict)
  : res season_dict :=
  match seasons_matrix with
  | [] => Ok seasons
  | [_] => Raise IndexError
  | season_name :: months_str :: rest =>
      if String.eqb season_name "" || String.eqb months_str ""
      then read_seasons rest seasons
      else read_seasons rest (dict_set season_name (months_of months_str) seasons)
  end.

Definition int (s : string) : res Z :=
  match Py.int s with
  | Some z => Ok z
  | None => Raise ValueError
  end.

(** [extract_year_month]: [None] stands for the pair [(None, None)]. *)
Definition extract_year_month (filename : string) : option (Z * string) :=
  match Re.search_date filename with
  | Some (year, month) => y ← Py.int year; Some (y, month)
  | None => None
  end.

(** One observed raster: [(year, month, path)]. *)
Abbreviation observation := (Z * string * string)%type.

(** The body of the traversal for one file. *)
Definition collect (root fname : string) (rasters : list observation)
  : M (list observation) :=
  if negb (Py.endswith (Py.lower fname) ".tif") then mret rasters
  else
    match extract_year_month fname with
    | Some (year, month) =>
        if (year =? 0) || String.eqb month "" then
          _ ← pushWarning (SkippingBadName fname);
          mret rasters
        else mret (rasters ++ [(year, month, Py.path_join root fname)])
    | None =>
        _ ← pushWarning (SkippingBadName fname);
        mret rasters
    end.

(** Collect all rasters with year and month. *)
Definition scan (w : World) (input_folder : string) : M (list observation) :=
  for_M (fun '(root, files) rasters => for_M (collect root) files rasters)
        (walk w input_folder) [].

Definition key_le (a b : Z * Z * observation) : bool :=
  let '(y1, m1, _) := a in
  let '(y2, m2, _) := b in
  (y1 <? y2) || ((y1 =? y2) && (m1 <=? m2)).

(** [lambda x: (x[0], int(x[1]))], paired with [x]. *)
Definition sort_key (r : observation) : res (Z * Z * observation) :=
  let '(y, m, _) := r in
  m_int ← int m;
  Ok (y, m_int, r).

(** [rasters.sort(key=lambda x: (x[0], int(x[1])))]: the keys are
    computed first, then the list is sorted on them. *)
Definition sort_rasters (rasters : list observation) : res (list observation) :=
  keyed ← mapM sort_key rasters;
  Ok (map snd (sorted key_le keyed)).

(** [season_raster_map], a [defaultdict(list)] keyed by
    [(season_year, season_name)]. *)
Definition add_raster (season_name : string) (season_months : list string)
    (first_month : Z) (r : observation)
    (season_raster_map : gmap (Z * string) (list observation))
  : res (gmap (Z * string) (list observation)) :=
  let '(y, m, f) := r in
  m_int ← int m;
  if bool_decide (m ∈ season_months) then
    let season_year := if first_month <=? m_int then y else y - 1 in
    Ok (<[(season_year, season_name) :=
            default [] (season_raster_map !! (season_year, season_name))
            ++ [(y, m, f)]]> season_raster_map)
  else Ok season_raster_map.

Definition add_season (rasters : list observation)
    (season : string * list string)
    (season_raster_map : gmap (Z * string) (list observation))
  : res (gmap (Z * string) (list observation)) :=
  let '(season_name, season_months) := season in
  first_month ← match season_months with
                | [] => Raise IndexError
                | m0 :: _ => int m0
                end;
  for_res (add_raster season_name season_months first_month)
          rasters season_raster_map.

(** Build mapping of rasters to season-year. *)
Definition build_season_raster_map (seasons : season_dict)
    (rasters : list observation) : res (gmap (Z * string) (list observation)) :=
  for_res (add_season rasters) seasons ∅.

(** Truth value of an entry of [final_files]. *)
Definition truthy (f : option string) : bool :=
  match f with
  | Some path => negb (String.eqb path "")
  | None => false
  end.

(** [next(((y, f) for y, mon, f in month_files if mon == m), None)] *)
Definition first_of_month (m : string) (month_files : list observation)
  : option (Z * string) :=
  match find (fun r : observation => String.eqb r.1.2 m) month_files with
  | Some (y, _, f) => Some (y, f)
  | None => None
  end.

(** Prepare final file list matching season month order, filling [None]
    for missing months: [(final_files, month_year_list)]. *)
Definition fill_months (season_year : Z) (season_months : list string)
    (month_files : list observation)
  : list (option string) * list (string * option Z * Z) :=
  fold_left
    (fun '(final_files, month_year_list) m =>
       match first_of_month m month_files with
       | Some (y, f) =>
           (final_files ++ [Some f], month_year_list ++ [(m, Some y, season_year)])
       | None =>
           (final_files ++ [None], month_year_list ++ [(m, None, season_year)])
       end)
    season_months ([], []).

(** One contributor slot of one tile. *)
Definition add_slot (w : World) (x y cols_to_read rows_to_read : Z)
    (tif_path : option string) (block_sum : Np.block) : res Np.block :=
  if truthy tif_path then
    match tif_path ≫= Open w with
    | None => Raise (AttributeError "GetRasterBand")
    | Some ds =>
        match ReadAsArray ds x y cols_to_read rows_to_read with
        | None => Raise (AttributeError "astype")
        | Some raw =>
            let data := Np.block_map (Np.astype Np.float32) raw in
            let nd := NoDataValue ds in
            let data := match nd with
                        | Some nd => Np.mask_zero Np.float32 nd data
                        | None => data
                        end in
            Ok (Np.block_add Np.float32 block_sum data)
        end
    end
  else
    (* Missing month: add zeros *)
    Ok (Np.block_map (fun v => Np.add Np.float32 v 0) block_sum).

Definition block_sum (w : World) (final_files : list (option string))
    (x y cols_to_read rows_to_read : Z) : res Np.block :=
  for_res (add_slot w x y cols_to_read rows_to_read)
          final_files (Np.zeros rows_to_read cols_to_read).

Definition process_block (w : World) (final_files : list (option string))
    (x y cols_to_read rows_to_read : Z) (out_ds : OutDataset) : M OutDataset :=
  block_sum ← lift (block_sum w final_files x y cols_to_read rows_to_read);
  mret (WriteArray block_sum x y out_ds).

(** Block-wise summing. *)
Definition process_blocks (w : World) (final_files : list (option string))
    (cols rows : Z) (out_ds : OutDataset) : M OutDataset :=
  for_M (fun y out_ds =>
           let rows_to_read := Z.min block_size (rows - y) in
           for_M (fun x out_ds =>
                    let cols_to_read := Z.min block_size (cols - x) in
                    process_block w final_files x y cols_to_read rows_to_read out_ds)
                 (Py.range cols block_size) out_ds)
        (Py.range rows block_size) out_ds.

(** [geo], [proj], [cols], [rows]: local variables that keep their value
    from one season-year to the next. *)
Abbreviation metadata := (list Q * string * Z * Z)%type.

(** Get metadata from the first available raster. *)
Definition first_available (w : World) (final_files : list (option string))
    (previous : option metadata) : res (option metadata) :=
  match find truthy final_files with
  | Some f =>
      match f ≫= Open w with
      | None => Raise (AttributeError "GetGeoTransform")
      | Some ds =>
          Ok (Some (GeoTransform ds, Projection ds, RasterXSize ds, RasterYSize ds))
      end
  | None => Ok previous
  end.

(** [str(season_year)] *)
Definition str (z : Z) : string := NilZero.string_of_int (Z.to_int z).

(** Process each season-year: the body of the loop over
    [sorted(season_raster_map.items())]. *)
Definition process_season (w : World) (p : Parameters) (seasons : season_dict)
    (item : Z * string * list observation)
    (st : option metadata * list OutDataset)
  : M (option metadata * list OutDataset) :=
  let '(season_year, season_name, month_files) := item in
  let '(previous, results) := st in
  match month_files with
  | [] => mret st
  | _ :: _ =>
      season_months ← lift (dict_get season_name seasons);
      let '(final_files, month_year_list) :=
        fill_months season_year season_months month_files in
      _ ← pushInfo (ProcessingSeason season_name season_year (List.length month_files));
      _ ← pushInfo (MonthsAdjusted month_year_list);
      meta ← lift (first_available w final_files previous);
      match meta with
      | None => raise (UnboundLocalError "cols")
      | Some (geo, proj, cols, rows) =>
          let out_path :=
            Py.path_join (OUTPUT_FOLDER p)
              (PREFIX p +:+ str season_year +:+ "_" +:+ season_name +:+ ".tif") in
          let out_ds :=
            SetNoDataValue 0
              (SetProjection proj
                 (SetGeoTransform geo
                    (Create out_path cols rows GDT_Float32 ["COMPRESS=LZW"]))) in
          out_ds ← process_blocks w final_files cols rows out_ds;
          let out_ds := FlushCache out_ds in
          _ ← pushInfo (Saved out_path);
          _ ← (if LOAD_MAPS p then pushInfo (Loaded out_path) else mret tt);
          mret (meta, results ++ [out_ds])
      end
  end.

Definition by_season (a b : Z * string * list observation) : bool :=
  let '(y1, n1, _) := a in
  let '(y2, n2, _) := b in
  (y1 <? y2) || ((y1 =? y2) && String.leb n1 n2).

(** [processAlgorithm]: the rasters saved, one per season-year. *)
Definition processAlgorithm (w : World) (p : Parameters) : M (list OutDataset) :=
  seasons ← lift (read_seasons (SEASONS p) []);
  _ ← pushInfo (UsingSeasons seasons);
  rasters ← scan w (INPUT_FOLDER p);
  rasters ← lift (sort_rasters rasters);
  season_raster_map ← lift (build_season_raster_map seasons rasters);
  st ← for_M (process_season w p seasons)
             (sorted by_season (map_to_list season_raster_map)) (None, []);
  _ ← pushInfo AllSeasonalCreated;
  mret st.2.

End Seasonal.

(** ** More of the Python library: [os.path] and string slices *)

Module Os.

(** [s.rfind(c)]: the index of the last occurrence of [c] in [s]. *)
Fixpoint rfind (c : ascii) (s : string) : option nat :=
  match s with
  | EmptyString => None
  | String c' s' =>
      match rfind c s' with
      | Some i => Some (S i)
      | None => if Ascii.eqb c' c then Some O else None
      end
  end.

(** [os.path.basename(p)]: what follows the last slash. *)
Definition basename (p : string) : string :=
  match rfind "/" p with
  | Some i => substring (S i) (String.length p - S i) p
  | None => p
  end.

(** Some character of [s] is not a dot. *)
Fixpoint has_non_dot (s : string) : bool :=
  match s with
  | EmptyString => false
  | String c s' => negb (Ascii.eqb c ".") || has_non_dot s'
  end.

(** [os.path.splitext(p)]: the extension starts at the last dot of the
    last component, unless only dots precede it there. *)
Definition splitext (p : string) : string * string :=
  match rfind "." p with
  | Some dotIndex =>
      let filenameIndex := match rfind "/" p with
                           | Some sepIndex => S sepIndex
                           | None => O
                           end in
      if has_non_dot (substring filenameIndex (dotIndex - filenameIndex) p)
      then (substring 0 dotIndex p, substring dotIndex (String.length p - dotIndex) p)
      else (p, EmptyString)
  | None => (p, EmptyString)
  end.

(** [s[-n:]]: the last [n] characters of [s], all of it when it is
    shorter. *)
Definition last_chars (n : nat) (s : string) : string :=
  substring (String.length s - n) n s.

(** [''.join(filter(str.isdigit, s))] *)
Fixpoint digits (s : string) : string :=
  match s with
  | EmptyString => EmptyString
  | String c s' => if Py.is_digit c then String c (digits s') else digits s'
  end.

(** [parts[-1]] of a list that is not empty. *)
Definition last_part (parts : list string) : string := List.last parts EmptyString.

End Os.

(** ** More of NumPy: a Python float as a float32 *)

Module Float32.

(** [(n', d')] with [n' / d' = (n / d) / 2 ^ e], for [0 < d]. *)
Definition scaled (n d e : Z) : Z * Z :=
  if 0 <=? e then (n, d * 2 ^ e) else (n * 2 ^ (- e), d).

(** The largest [e] with [2 ^ e <= n / d], for [0 < n] and [0 < d]. *)
Definition floor_log2 (n d : Z) : Z :=
  let e := Z.log2 n - Z.log2 d in
  let '(n', d') := scaled n d e in
  if n' <? d' then e - 1 else e.

(** [2 ^ e] as a rational. *)
Definition pow2 (e : Z) : Q :=
  if 0 <=? e then inject_Z (2 ^ e) else Qmake 1 (Z.to_pos (2 ^ (- e))).

(** [np.float32(s)] for a double [s]: the nearest number with a 24-bit
    significand, ties to the even one, in steps of [2 ^ -149] below
    [2 ^ -126].  A magnitude that rounds to [2 ^ 128] or more becomes an
    infinity, which compares with every element of a float32 array as
    [2 ^ 128] does. *)
Definition round (s : Q) : Q :=
  let n := Z.abs (Qnum s) in
  let d := Zpos (Qden s) in
  if n =? 0 then 0%Q
  else
    let e := floor_log2 n d in
    let u := Z.max (e - 23) (-149) in
    let '(n', d') := scaled n d u in
    let r := (inject_Z (Np.round_half_even n' d') * pow2 u)%Q in
    let r := if Qle_bool (pow2 128) r then pow2 128 else r in
    (inject_Z (Z.sgn (Qnum s)) * r)%Q.

End Float32.

(** ** [algs/binary_conversion.py] *)

Module Binary.
Import Gdal.

(** [INPUT] is the source of the input layer; [THRESHOLD] is the value
    of the double [parameterAsDouble] returns. *)
Record Parameters : Type := {
  INPUT : string;
  THRESHOLD : Q;
  COMPRESSION : Z;
  OUTPUT : string
}.

Definition COMPRESSION_TYPES : list string := ["None"; "LZW"; "DEFLATE"; "PACKBITS"].

(** [band.ReadAsArray()]: the whole band. *)
Definition read_band (ds : Dataset) : Np.block :=
  map (fun j : nat =>
         map (fun i : nat => pixel ds (Z.of_nat i) (Z.of_nat j))
             (seq 0 (Z.to_nat (RasterXSize ds))))
      (seq 0 (Z.to_nat (RasterYSize ds))).

(** [a > s] for an element [a] of an array of type [t] and a Python
    float [s]: a float32 array compares in float32, to which [s] is
    rounded; an integer array is promoted to float64, which holds its
    elements exactly. *)
Definition greater (t : Np.dtype) (a : Z) (s : Q) : bool :=
  match t with
  | Np.float32 => negb (Qle_bool (inject_Z a) (Float32.round s))
  | _ => negb (Qle_bool (inject_Z a) s)
  end.

(** [np.where(arr > threshold, 1, 0).astype(np.uint8)], one element. *)
Definition binary_value (t : Np.dtype) (threshold : Q) (v : Z) : Z :=
  Np.astype Np.uint8 (if greater t v threshold then 1 else 0).

(** Prepare GDAL options: an index beyond the table fails. *)
Definition gdal_options (comp_index : Z) : res (list string) :=
  if 0 <? comp_index then
    match COMPRESSION_TYPES !! Z.to_nat comp_index with
    | Some c => Ok ["COMPRESS=" +:+ c]
    | None => Raise IndexError
    end
  else Ok [].

(** [processAlgorithm]: the raster written.  [band_type] is the data type
    of the band of the input raster, the type of the array read. *)
Definition processAlgorithm (w : World) (band_type : Np.dtype) (p : Parameters)
  : res OutDataset :=
  match Open w (INPUT p) with
  | None => Raise (AttributeError "GetRasterBand")
  | Some ds =>
      let arr := read_band ds in
      let nodata := NoDataValue ds in
      let arr := match nodata with
                 | Some nodata => Np.mask_zero band_type nodata arr
                 | None => arr
                 end in
      let binary := Np.block_map (binary_value band_type (THRESHOLD p)) arr in
      gdal_options ← gdal_options (COMPRESSION p);
      let out_ds :=
        Create (OUTPUT p) (RasterXSize ds) (RasterYSize ds) GDT_Byte gdal_options in
      let out_ds := SetGeoTransform (GeoTransform ds) out_ds in
      let out_ds := SetProjection (Projection ds) out_ds in
      let out_ds := WriteArray binary 0 0 out_ds in
      let out_ds := SetNoDataValue 0 out_ds in
      Ok (FlushCache out_ds)
  end.

End Binary.

(** ** [algs/exposure_analysis.py]: the names of the outputs *)

Module Exposure.

(** Extract year from filename (last 4 digits). *)
Definition year (filename : string) : string := Os.last_chars 4 (Os.digits filename).

Definition output_path (output_dir prefix filename : string) : string :=
  Py.path_join output_dir (prefix +:+ "exposure_" +:+ year filename +:+ ".tif").

(** The loop over [os.listdir(binary_dir)]: the output paths, one per
    TIFF, in the order of the listing. *)
Definition results (listing : list string) (output_dir prefix : string) : list string :=
  filename ← listing;
  if negb (Py.endswith (Py.lower filename) ".tif") then []
  else [output_path output_dir prefix filename].

End Exposure.

(** ** [algs/zonal_statistics_multiple_rasters.py] and
       [algs/area_calculation.py]: the names of the fields *)

Module Zonal.

(** [os.path.splitext(os.path.basename(raster_path))[0]] *)
Definition raster_name (raster_path : string) : string :=
  (Os.splitext (Os.basename raster_path)).1.

(** [raster_name.split("_")[-1]] *)
Definition suffix (raster_name : string) : string :=
  Os.last_part (Py.split "_" raster_name).

(** [f"{prefix}{suffix}_"] *)
Definition field_prefix (prefix raster_path : string) : string :=
  prefix +:+ suffix (raster_name raster_path) +:+ "_".

(** The statistics field of [area_calculation.py], by [stat_idx]. *)
Definition stat_field (stat_idx : Z) (raster_path : string) : string :=
  if stat_idx =? 0 then suffix (raster_name raster_path) +:+ "_count"
  else suffix (raster_name raster_path) +:+ "_sum".

(** [f"{prefix}{suffix}_km2"] *)
Definition area_field (prefix raster_path : string) : string :=
  prefix +:+ suffix (raster_name raster_path) +:+ "_km2".

End Zonal.

(** ** [algs/exposure_sampling_count.py]: the names of the fields *)

Module Sampling.

(** An anchored match of [\d{4}] at the start of [s]. *)
Definition match_year (s : string) : option string :=
  match s with
  | String y1 (String y2 (String y3 (String y4 _))) =>
      if Py.is_digit y1 && Py.is_digit y2 && Py.is_digit y3 && Py.is_digit y4
      then Some (String y1 (String y2 (String y3 (String y4 EmptyString))))
      else None
  | _ => None
  end.

(** [re.search(r'(\d{4})', s)] and [group(1)]: the match that starts
    leftmost. *)
Fixpoint search_year (s : string) : option string :=
  match match_year s with
  | Some g => Some g
  | None =>
      match s with
      | EmptyString => None
      | String _ s' => search_year s'
      end
  end.

(** [suffix_match.group(1) if suffix_match else raster_name.split("_")[-1]] *)
Definition suffix (raster_name : string) : string :=
  match search_year raster_name with
  | Some g => g
  | None => Os.last_part (Py.split "_" raster_name)
  end.

(** [f"{prefix}{suffix}_"] *)
Definition field_prefix (prefix raster_path : string) : string :=
  prefix +:+ suffix (Zonal.raster_name raster_path) +:+ "_".

End Sampling.

(** ** [algs/monthly_zonal_statistics.py]: the date identifier *)

Module MonthlyZonal.

(** How the naming of the fields of a run ends: [QgsProcessingException]
    is what the algorithm raises itself, any other exception escapes. *)
Inductive failure : Type :=
| QgsProcessingException (message : string)
| Uncaught (e : exn).

Inductive outcome (A : Type) : Type :=
| Done (a : A)
| Failed (f : failure).
Arguments Done {A} a.
Arguments Failed {A} f.

(** The white space [int] skips around a literal. *)
Definition is_int_space (c : ascii) : bool :=
  let n := nat_of_ascii c in
  ((9 <=? n)%nat && (n <=? 13)%nat) || (n =? 32)%nat.

Fixpoint skip_left (s : string) : string :=
  match s with
  | String c s' => if is_int_space c then skip_left s' else s
  | EmptyString => EmptyString
  end.

Fixpoint skip_right (s : string) : string :=
  match s with
  | EmptyString => EmptyString
  | String c s' =>
      match skip_right s' with
      | EmptyString => if is_int_space c then EmptyString else String c EmptyString
      | t => String c t
      end
  end.

(** [int(s)]; [None] is [ValueError]. *)
Definition int (s : string) : option Z := Py.int (skip_right (skip_left s)).

(** [int(start) if start else None]; the outer [None] is [ValueError]. *)
Definition bound (s : string) : option (option Z) :=
  if String.eqb s "" then Some None else Some <$> int s.

(** Parse slicing string: the [try] block, every exception of which
    becomes a [QgsProcessingException]. *)
Definition parse_slice (date_id : string) : outcome (option Z * option Z) :=
  let invalid :=
    Failed (QgsProcessingException ("Invalid date identifier '" +:+ date_id +:+ "'.")) in
  match Py.split ":" date_id with
  | [start; end_] =>
      match bound start with
      | Some start =>
          match bound end_ with
          | Some end_ => Done (start, end_)
          | None => invalid
          end
      | None => invalid
      end
  | _ => invalid
  end.

(** [raster_name.split("_")[-2]] *)
Definition date_part (raster_name : string) : res string :=
  match reverse (Py.split "_" raster_name) with
  | _ :: part :: _ => Ok part
  | _ => Raise IndexError
  end.

(** A bound of a slice of a sequence of length [len], as an index into
    it. *)
Definition clamp (len i : Z) : Z :=
  if i <? 0 then Z.max 0 (i + len) else Z.min i len.

(** [s[slice(start, end)]] *)
Definition getslice (s : string) (slice_obj : option Z * option Z) : string :=
  let len := Z.of_nat (String.length s) in
  let start := match slice_obj.1 with
               | Some i => clamp len i
               | None => 0
               end in
  let stop := match slice_obj.2 with
              | Some i => clamp len i
              | None => len
              end in
  substring (Z.to_nat start) (Z.to_nat (stop - start)) s.

(** [date_part[slice_obj]] for one raster. *)
Definition suffix (slice_obj : option Z * option Z) (raster_path : string) : res string :=
  date_part ← date_part (Zonal.raster_name raster_path);
  Ok (getslice date_part slice_obj).

(** The suffixes of a run over [raster_files]: the date identifier is
    parsed before the loop over the rasters. *)
Definition suffixes (date_id : string) (raster_files : list string)
  : outcome (list string) :=
  match parse_slice date_id with
  | Failed f => Failed f
  | Done slice_obj =>
      match mapM (suffix slice_obj) raster_files with
      | Ok l => Done l
      | Raise e => Failed (Uncaught e)
      end
  end.

(** [f"{suffix}_{'count' if stat_idx == 0 else 'sum'}"] *)
Definition stat_field (stat_idx : Z) (suffix : string) : string :=
  suffix +:+ "_" +:+ (if stat_idx =? 0 then "count" else "sum").

(** [f"{prefix}{suffix}_km2"] *)
Definition area_field (prefix suffix : string) : string :=
  prefix +:+ suffix +:+ "_km2".

End MonthlyZonal.

(** * Properties *)

Import Gdal.

(** ** Vocabulary of the properties *)

(** The block of [ysize] rows and [xsize] columns whose element in column
    [i] of row [j] is [f i j]. *)
Definition block_of (xsize ysize : Z) (f : Z -> Z -> Z) : Np.block :=
  map (fun j : nat => map (fun i : nat => f (Z.of_nat i) (Z.of_nat j))
                          (seq 0 (Z.to_nat xsize)))
      (seq 0 (Z.to_nat ysize)).

(** What the pixel [(px, py)] of a contributor adds to an accumulator of
    type [t]: the stored value cast to [t], or zero where the cast value
    compares equal to nodata. *)
Definition contribution (t : Np.dtype) (ds : Dataset) (px py : Z) : Z :=
  let v := Np.astype t (pixel ds px py) in
  match NoDataValue ds with
  | Some nd => if Np.eq_scalar t v nd then 0 else v
  | None => v
  end.

(** What a slot of a contributor list adds at pixel [(px, py)]: the
    contribution of its raster, and zero for a missing entry. *)
Definition slot_value (t : Np.dtype) (w : World) (slot : option string)
    (px py : Z) : Z :=
  match slot ≫= Open w with
  | Some ds => contribution t ds px py
  | None => 0
  end.

(** The accumulator of pixel [(px, py)] after the slots of a contributor
    list, from [start]. *)
Definition accumulate (t : Np.dtype) (w : World) (slots : list (option string))
    (start px py : Z) : Z :=
  fold_left (fun acc slot => Np.add t acc (slot_value t w slot px py)) slots start.

(** The raster at [path] opens and is at least [cols] wide and [rows]
    high. *)
Definition covers (w : World) (cols rows : Z) (path : string) : bool :=
  match Open w path with
  | Some ds => (cols <=? RasterXSize ds) && (rows <=? RasterYSize ds)
  | None => false
  end.

(** The loop body shared by the three algorithms, for an accumulator of
    type [t]: a raster is read, cast, masked and added; a missing entry
    adds zero. *)
Definition add_slot_as (t : Np.dtype) (w : World) (x y xsize ysize : Z)
    (slot : option string) (block_sum : Np.block) : res Np.block :=
  match slot with
  | Some path =>
      match Open w path with
      | None => Raise (AttributeError "GetRasterBand")
      | Some ds =>
          match ReadAsArray ds x y xsize ysize with
          | None => Raise (AttributeError "astype")
          | Some raw =>
              let data := Np.block_map (Np.astype t) raw in
              let data := match NoDataValue ds with
                          | Some nd => Np.mask_zero t nd data
                          | None => data
                          end in
              Ok (Np.block_add t block_sum data)
          end
      end
  | None => Ok (Np.block_map (fun v => Np.add t v 0) block_sum)
  end.

(** The feedback after some more events. *)
Definition reports (es : list event) (fb : Feedback) : Feedback :=
  {| cancel_signal := cancel_signal fb; reported := reported fb ++ es |}.

(** The output raster after a list of writes. *)
Definition write_all (ws : list (Z * Z * Np.block)) (o : OutDataset) : OutDataset :=
  fold_left (fun o w => WriteArray w.2 w.1.1 w.1.2 o) ws o.

(** The window of a block of pixel values [f] that one tile covers. *)
Definition tile_write (f : Z -> Z -> Z) (tl : Tile) : Z * Z * Np.block :=
  (tile_x tl, tile_y tl,
   block_of (tile_xsize tl) (tile_ysize tl)
            (fun i j => f (tile_x tl + i) (tile_y tl + j))).

(** Row-major order of two tiles: [t1] lies in an earlier row of tiles
    than [t2], or in the same row and to its left. *)
Definition tile_before (t1 t2 : Tile) : Prop :=
  tile_y t1 < tile_y t2 \/ (tile_y t1 = tile_y t2 /\ tile_x t1 < tile_x t2).

(** The window the loops cut at the origin [(x, y)]. *)
Definition tile_at (cols rows block_size x y : Z) : Tile :=
  {| tile_x := x; tile_y := y;
     tile_xsize := Z.min block_size (cols - x);
     tile_ysize := Z.min block_size (rows - y) |}.

(** The character at position [i] of [s] is a decimal digit. *)
Definition digit_at (s : string) (i : nat) : bool :=
  match String.get i s with
  | Some c => Py.is_digit c
  | None => false
  end.

(** The character at position [i] of [s] is [c]. *)
Definition char_at (s : string) (i : nat) (c : ascii) : bool :=
  match String.get i s with
  | Some c' => Ascii.eqb c' c
  | None => false
  end.

(** A substring of the form YYYY-MM-DD starts at position [i] of [s]. *)
Definition date_at (s : string) (i : nat) : bool :=
  digit_at s i && digit_at s (i + 1) && digit_at s (i + 2) && digit_at s (i + 3)
  && char_at s (i + 4) "-" && digit_at s (i + 5) && digit_at s (i + 6)
  && char_at s (i + 7) "-" && digit_at s (i + 8) && digit_at s (i + 9).

(** The file names of the monthly example. *)
Definition three_files : list string :=
  ["flood_2021-01-15.tif"; "flood_2021-01-28.tif"; "flood_2021-02-01.tif"].

(** A caller who never cancels. *)
Definition quiet : Feedback := {| cancel_signal := fun _ => false; reported := [] |}.

(** A present entry of a contributor list covers the grid. *)
Definition covers_slot (w : World) (cols rows : Z) (slot : option string) : bool :=
  match slot with
  | Some path => covers w cols rows path
  | None => true
  end.

(** The value the flat summation leaves at a pixel. *)
Definition summation_pixel (w : World) (rasters : list string) (t : GDALDataType)
    (px py : Z) : Z :=
  Summation.cast_value t (accumulate Np.uint32 w (map Some rasters) 0 px py).

(** The progress reported after the row of tiles that starts at [y]. *)
Definition progress_of (rows y : Z) : list event :=
  [SetProgress (100 * (y + Z.min Summation.block_size (rows - y)) / rows)].

(** What a flat summation of [n] rasters with [rows] rows reports. *)
Definition summation_events (p : Summation.Parameters) (n : nat) (rows : Z) : list event :=
  [PushInfo (Found n)]
  ++ List.concat (map (progress_of rows) (Py.range rows Summation.block_size))
  ++ [PushInfo (SavedFrequency (Summation.OUTPUT_RASTER p))]
  ++ (if Summation.LOAD_RESULT p then [PushInfo LoadedIntoQgis] else []).

(** The value the monthly algorithm leaves at a pixel. *)
Definition monthly_pixel (w : World) (rasters : list string) (px py : Z) : Z :=
  accumulate Np.float32 w (map Some rasters) 0 px py.

(** What the monthly algorithm reports for one month of [n] rasters. *)
Definition monthly_events (p : Monthly.Parameters) (month : string) (n : nat) : list event :=
  let output_path :=
    Py.path_join (Monthly.OUTPUT_FOLDER p) (Monthly.PREFIX p +:+ month +:+ ".tif") in
  [PushInfo (ProcessingMonth month n); PushInfo (Saved output_path)]
  ++ (if Monthly.LOAD_MAPS p then [PushInfo (Loaded output_path)] else []).

(** The season-year of an observation of year [y] and month number
    [m_int], in a season whose first month is [first_month]. *)
Definition season_year_of (first_month m_int y : Z) : Z :=
  if first_month <=? m_int then y else y - 1.

(** The observation belongs to the bucket [(sy, _)] of a season with the
    months [season_months], the first of which is [first_month]. *)
Definition in_season (season_months : list string) (first_month sy : Z)
    (r : Z * string * string) : bool :=
  bool_decide (r.1.2 ∈ season_months)
  && match Py.int r.1.2 with
     | Some m_int => season_year_of first_month m_int r.1.1 =? sy
     | None => false
     end.

(** The first month of a season, as a number. *)
Definition first_month_of (season_months : list string) : option Z :=
  head season_months ≫= Py.int.

(** [int(s)] succeeds. *)
Definition numeric (s : string) : bool :=
  match Py.int s with
  | Some _ => true
  | None => false
  end.

(** The first month of the season is a number. *)
Definition season_ok (season : string * list string) : bool :=
  match season.2 with
  | m0 :: _ => numeric m0
  | [] => false
  end.

(** The month of the observation is a number. *)
Definition observation_ok (r : Z * string * string) : bool := numeric r.1.2.

(** The integer [v] is a [float32] value. *)
Definition is_float32 (v : Z) : Prop := Np.astype Np.float32 v = v.

(** An entry of [final_files] as the loops see it. *)
Definition present (slot : option string) : option string :=
  if Seasonal.truthy slot then slot else None.

(** The value the seasonal algorithm leaves at a pixel. *)
Definition seasonal_pixel (w : World) (final_files : list (option string))
    (px py : Z) : Z :=
  accumulate Np.float32 w (map present final_files) 0 px py.

(** The integer [v] is a [uint32] value. *)
Definition is_uint32 (v : Z) : Prop := 0 <= v < 2 ^ 32.

(** The raster at [path] opens. *)
Definition opens (w : World) (path : string) : bool :=
  match Open w path with
  | Some _ => true
  | None => false
  end.

(** The raster at [path] is narrower or shorter than the reference. *)
Definition too_small (w : World) (ref : Dataset) (path : string) : Prop :=
  exists ds, Open w path = Some ds
        /\ (RasterXSize ds < RasterXSize ref \/ RasterYSize ds < RasterYSize ref).

(** [out] is the complete raster of the pixel function [f] on the grid of
    the reference raster: it has the shape, geotransform and projection of
    the reference, every tile was written, and every pixel holds [f]. *)
Definition produced (ref : Dataset) (f : Z -> Z -> Z) (out : OutDataset) : Prop :=
  out_xsize out = RasterXSize ref /\ out_ysize out = RasterYSize ref
  /\ out_geo out = Some (GeoTransform ref) /\ out_proj out = Some (Projection ref)
  /\ flushed out = true
  /\ written out = map (tile_write f) (tiles (RasterXSize ref) (RasterYSize ref) 512)
  /\ forall px py, 0 <= px < RasterXSize ref -> 0 <= py < RasterYSize ref ->
                   out_pixel out px py = f px py.

(** The outcome of one aggregation unit with the contributors [paths],
    the first of which is the reference raster [ref]. *)
Definition unit_outcome (w : World) (ref : Dataset) (paths : list string)
    (f : Z -> Z -> Z) (r : res OutDataset) : Prop :=
  match r with
  | Ok out =>
      forallb (covers w (RasterXSize ref) (RasterYSize ref)) paths = true
      /\ produced ref f out
  | Raise _ => exists path, path ∈ paths /\ too_small w ref path
  end.

(** The partition property of a list of tiles of a [W] x [H] grid with
    edge [T]. *)
Definition partitions (W H T : Z) (ts : list Tile) : Prop :=
  Forall (fun t => 0 <= tile_x t /\ 0 <= tile_y t /\
                   1 <= tile_xsize t <= T /\ 1 <= tile_ysize t <= T /\
                   tile_x t + tile_xsize t <= W /\ tile_y t + tile_ysize t <= H) ts
  /\ (forall px py, 0 <= px < W -> 0 <= py < H ->
        exists n t, ts !! n = Some t /\ in_tile t px py /\
          forall n' t', ts !! n' = Some t' -> in_tile t' px py -> n' = n)
  /\ (forall px py t, t ∈ ts -> in_tile t px py -> 0 <= px < W /\ 0 <= py < H)
  /\ StronglySorted tile_before ts.

(** *** Concrete inputs *)

(** A raster that holds [value] everywhere. *)
Definition constant_raster (cols rows value : Z) (nodata : option Z)
    (geo : list Q) (proj : string) : Dataset :=
  {| RasterXSize := cols; RasterYSize := rows; GeoTransform := geo;
     Projection := proj; NoDataValue := nodata; pixel := fun _ _ => value |}.

(** A folder [top] that holds the given rasters and nothing else. *)
Definition folder (top : string) (files : list (string * Dataset)) : World :=
  {| walk := fun _ => [(top, files.*1)];
     Open := fun path =>
       snd <$> find (fun f => String.eqb (Py.path_join top f.1) path) files |}.

(** Two geotransforms. *)
Definition north_up : list Q := [0; 1; 0; 0; 0; -1]%Q.

Definition shifted : list Q := [500; 30; 0; 900; 0; -30]%Q.

(** One 1 x 1 raster whose only pixel is its nodata value, -9999. *)
Definition void_world : World :=
  folder "in" [("dem_2021-01-15.tif",
                constant_raster 1 1 (-9999) (Some (-9999)) north_up "EPSG:4326")].

(** Two 2 x 2 rasters on different grids: neither the geotransform nor the
    projection agree. *)
Definition mismatched_world : World :=
  folder "in" [("a_2021-01-15.tif", constant_raster 2 2 1 None north_up "EPSG:4326");
               ("b_2021-01-16.tif", constant_raster 2 2 2 None shifted "EPSG:32633")].

(** One raster of 1025 rows: three rows of tiles. *)
Definition tall_world : World :=
  folder "in" [("a_2021-01-15.tif", constant_raster 1 1025 1 None north_up "EPSG:4326")].

(** Two files of January 2023 and one of December 2022. *)
Definition winter_world : World :=
  folder "in" [("f_2023-01-05.tif", constant_raster 2 1 1 None north_up "EPSG:4326");
               ("g_2023-01-09.tif", constant_raster 2 1 1 None north_up "EPSG:4326");
               ("f_2022-12-05.tif", constant_raster 2 1 1 None north_up "EPSG:4326")].

(** Parameters of the three algorithms for the folder ["in"]. *)
Definition summation_params (out_datatype : Z) : Summation.Parameters :=
  {| Summation.INPUT_FOLDER := "in"; Summation.OUTPUT_RASTER := "out.tif";
     Summation.OUT_DATATYPE := out_datatype; Summation.COMPRESSION := 0;
     Summation.LOAD_RESULT := false |}.

Definition monthly_params : Monthly.Parameters :=
  {| Monthly.INPUT_FOLDER := "in"; Monthly.OUTPUT_FOLDER := "out";
     Monthly.PREFIX := "frequencymaps_"; Monthly.LOAD_MAPS := false |}.

Definition seasonal_params : Seasonal.Parameters :=
  {| Seasonal.INPUT_FOLDER := "in"; Seasonal.OUTPUT_FOLDER := "out";
     Seasonal.PREFIX := "frequencymaps_"; Seasonal.LOAD_MAPS := false;
     Seasonal.SEASONS := ["DJF"; "12,01,02"] |}.

(** The event is a progress report. *)
Definition is_progress (e : event) : bool :=
  match e with
  | SetProgress _ => true
  | _ => false
  end.

(** A caller who cancels as soon as some progress has been reported, that
    is, after the first row of tiles. *)
Definition impatient : Feedback :=
  {| cancel_signal := existsb is_progress; reported := [] |}.

(** The origins of the windows written to a raster. *)
Definition origins (out : OutDataset) : list (Z * Z) :=
  map (fun w => (w.1.1, w.1.2)) (written out).

(** The paths of the present entries of [final_files]. *)
Definition present_paths (final_files : list (option string)) : list string :=
  omap present final_files.

(** What the seasonal algorithm reports for one season-year. *)
Definition seasonal_events (p : Seasonal.Parameters) (season_name : string)
    (season_year : Z) (season_months : list string)
    (month_files : list (Z * string * string)) : list event :=
  let out_path :=
    Py.path_join (Seasonal.OUTPUT_FOLDER p)
      (Seasonal.PREFIX p +:+ Seasonal.str season_year +:+ "_" +:+ season_name +:+ ".tif") in
  [PushInfo (ProcessingSeason season_name season_year (List.length month_files));
   PushInfo (MonthsAdjusted (Seasonal.fill_months season_year season_months month_files).2);
   PushInfo (Saved out_path)]
  ++ (if Seasonal.LOAD_MAPS p then [PushInfo (Loaded out_path)] else []).

(** The sum of a list of integers. *)
Definition Zsum (l : list Z) : Z := foldr Z.add 0 l.

(** What the slots of a contributor list add at pixel [(px, py)], one
    value per slot. *)
Definition contributions (t : Np.dtype) (w : World) (slots : list (option string))
    (px py : Z) : list Z :=
  map (fun slot => slot_value t w slot px py) slots.

(** The window of one write: its origin and the shape of its block. *)
Definition window_of (wr : Z * Z * Np.block) : Tile :=
  {| tile_x := wr.1.1; tile_y := wr.1.2;
     tile_xsize := Z.of_nat (List.length (default [] (head wr.2)));
     tile_ysize := Z.of_nat (List.length wr.2) |}.

(** The windows written to a raster, oldest first. *)
Definition windows (o : OutDataset) : list Tile := map window_of (written o).

(** Two 1 x 1 rasters that hold 200 and 100. *)
Definition bright_world : World :=
  folder "in" [("a_2021-01-15.tif", constant_raster 1 1 200 None north_up "EPSG:4326");
               ("b_2021-01-16.tif", constant_raster 1 1 100 None north_up "EPSG:4326")].

(** A folder of two months: one raster of January and one of February,
    on different grids. *)
Definition two_months_world : World :=
  folder "in" [("a_2021-01-15.tif", constant_raster 2 2 1 None north_up "EPSG:4326");
               ("b_2021-02-16.tif", constant_raster 2 2 2 None shifted "EPSG:32633")].

(** The two rasters of [two_months_world] as observations. *)
Definition january_obs : Z * string * string := (2021, "01", "in/a_2021-01-15.tif").

Definition february_obs : Z * string * string := (2021, "02", "in/b_2021-02-16.tif").

(** The two observations of the season-year example. *)
Definition winter : list (Z * string * string) :=
  [(2023, "01", "in/jan.tif"); (2023, "12", "in/dec.tif")].

(** Two observations of one month. *)
Definition two_januaries : list (Z * string * string) :=
  [(2023, "01", "in/jan.tif"); (2023, "01", "in/jan2.tif")].

(** A raster of zeros and ones whose nodata value, if any, is not one. *)
Definition binary_raster (ds : Dataset) : Prop :=
  (forall x y, pixel ds x y = 0 \/ pixel ds x y = 1) /\ NoDataValue ds <> Some 1.

(** The raster at [path] holds a one at pixel [(px, py)]. *)
Definition flooded (w : World) (px py : Z) (path : string) : bool :=
  match Open w path with
  | Some ds => pixel ds px py =? 1
  | None => false
  end.

(** The number of rasters that hold a one at pixel [(px, py)]. *)
Definition flood_count (w : World) (rasters : list string) (px py : Z) : Z :=
  Z.of_nat (List.length (List.filter (flooded w px py) rasters)).

(** Every contribution at the pixel is non-negative and their sum is
    below 2^24. *)
Definition small_at (w : World) (rasters : list string) (px py : Z) : Prop :=
  Forall (fun v => 0 <= v) (contributions Np.float32 w (map Some rasters) px py)
  /\ Zsum (contributions Np.float32 w (map Some rasters) px py) < 2 ^ 24.

(** Two 2 x 2 rasters of zeros and ones, as the binary converter writes
    them. *)
Definition binary_world : World :=
  folder "in" [("a_2021-01-15.tif", constant_raster 2 2 1 (Some 0) north_up "EPSG:4326");
               ("b_2021-01-16.tif", constant_raster 2 2 0 (Some 0) north_up "EPSG:4326")].

(** The percentages the flat summation reports for a raster of [rows]
    rows, one per row of tiles. *)
Definition progress_values (rows : Z) : list Z :=
  map (fun y => 100 * (y + Z.min Summation.block_size (rows - y)) / rows)
      (Py.range rows Summation.block_size).

(** The rows of the seasons table: its cells two by two, a season name
    and its months. *)
Fixpoint rows_of (cells : list string) : list (string * string) :=
  match cells with
  | season_name :: months_str :: rest => (season_name, months_str) :: rows_of rest
  | _ => []
  end.

(** The month of an observation as a number. *)
Definition month_number (r : Z * string * string) : Z := default 0 (Py.int r.1.2).

(** [a] is not later than [b]: an earlier year, or the same year and a
    month number that is not greater. *)
Definition chronological (a b : Z * string * string) : Prop :=
  a.1.1 < b.1.1 \/ (a.1.1 = b.1.1 /\ month_number a <= month_number b).

(** The observation is of year [y] and month number [m]. *)
Definition of_month (y m : Z) (r : Z * string * string) : bool :=
  (r.1.1 =? y) && (month_number r =? m).

(** Three observations, out of order, two of them of one month. *)
Definition unsorted : list (Z * string * string) :=
  [(2023, "02", "in/feb.tif"); (2023, "01", "in/jan.tif"); (2022, "12", "in/dec.tif");
   (2023, "01", "in/jan2.tif")].

(** What the seasonal traversal keeps of one file: the observation of a
    TIFF whose name holds a date of a year other than 0000. *)
Definition observation_of (root fname : string) : option (Z * string * string) :=
  if Py.endswith (Py.lower fname) ".tif" then
    match Seasonal.extract_year_month fname with
    | Some (year, month) =>
        if year =? 0 then None else Some (year, month, Py.path_join root fname)
    | None => None
    end
  else None.

(** An observation as the traversal yields them: a year from 1 to 9999,
    a month token of two digits and a path that is not empty. *)
Definition valid_observation (r : Z * string * string) : Prop :=
  1 <= r.1.1 <= 9999 /\ String.length r.1.2 = 2%nat /\ numeric r.1.2 = true
  /\ r.2 <> "".

(** The event warns of a skipped file. *)
Definition is_skip_warning (e : event) : bool :=
  match e with
  | PushWarning (SkippingBadName _) => true
  | _ => false
  end.

(** The position of the leftmost date YYYY-MM-DD in [s]. *)
Definition first_date (s : string) : option nat :=
  find (date_at s) (seq 0 (String.length s)).

(** The seasonal traversal keeps the file: a TIFF whose name holds a
    date, the leftmost of which has a year other than 0000. *)
Definition kept (fname : string) : bool :=
  Py.endswith (Py.lower fname) ".tif"
  && match first_date fname with
     | Some i => negb (String.eqb (substring i 4 fname) "0000")
     | None => false
     end.

(** The seasonal traversal passes over the file with a warning: a TIFF
    it does not keep. *)
Definition skipped (fname : string) : bool :=
  Py.endswith (Py.lower fname) ".tif" && negb (kept fname).

(** The files under a folder, each with its directory, in traversal
    order. *)
Definition files_under (w : World) (folder : string) : list (string * string) :=
  walk w folder ≫= fun '(root, files) => map (pair root) files.

(** [r] is the observation of the file [rf.2] of the directory [rf.1]:
    the year and the month of the leftmost date of its name, and its
    path. *)
Definition observes (rf : string * string) (r : Z * string * string) : Prop :=
  exists i : nat, first_date rf.2 = Some i
    /\ Py.int (substring i 4 rf.2) = Some r.1.1
    /\ r.1.2 = substring (i + 5) 2 rf.2
    /\ r.2 = Py.path_join rf.1 rf.2.

(** The warnings of the seasonal traversal, one per file passed over. *)
Definition skip_warnings (w : World) (folder : string) : list event :=
  map (fun rf : string * string => PushWarning (SkippingBadName rf.2))
      (List.filter (fun rf : string * string => skipped rf.2) (files_under w folder)).

(** A folder with a dated raster, a dated raster of the year 0000, an
    undated raster and a file that is no raster. *)
Definition mixed_world : World :=
  {| walk := fun _ => [("in", ["f_2023-01-05.tif"; "g_0000-01-05.tif"; "h.tif"; "notes.txt"])];
     Open := fun _ => None |}.

(** What the monthly traversal files under the month [mm] for one file:
    the path of a TIFF whose name holds a date of that month. *)
Definition monthly_file (mm root fname : string) : option string :=
  if Py.endswith (Py.lower fname) ".tif"
     && bool_decide (Monthly.month_of fname = Some mm)
  then Some (Py.path_join root fname) else None.

(** The files of the month [mm] under a folder, in traversal order. *)
Definition files_of_month (w : World) (folder mm : string) : list string :=
  walk w folder ≫= fun '(root, files) => omap (monthly_file mm root) files.

(** The entry of a [defaultdict(list)] that holds the list [l]: none for
    an empty list, as the key was never touched. *)
Definition bucket (l : list string) : option (list string) :=
  match l with
  | [] => None
  | _ => Some l
  end.

(** The files of one month can be summed: the first opens and every one
    is at least as wide and high as the first. *)
Definition month_ready (w : World) (files : list string) : bool :=
  match files with
  | [] => true
  | first :: _ =>
      match Open w first with
      | Some ref => forallb (covers w (RasterXSize ref) (RasterYSize ref)) files
      | None => false
      end
  end.

(** [out] is the frequency map of the month [mm]: it is named after the
    month and holds, on the grid of the first file of the month, the sum
    over the files of the month. *)
Definition monthly_output (w : World) (p : Monthly.Parameters) (mm : string)
    (out : OutDataset) : Prop :=
  out_path out
  = Py.path_join (Monthly.OUTPUT_FOLDER p) (Monthly.PREFIX p +:+ mm +:+ ".tif")
  /\ out_type out = GDT_Float32 /\ out_nodata out = Some 0
  /\ exists first ref,
       head (files_of_month w (Monthly.INPUT_FOLDER p) mm) = Some first
       /\ Open w first = Some ref
       /\ produced ref (monthly_pixel w (files_of_month w (Monthly.INPUT_FOLDER p) mm)) out.

(** The month tokens of the dated TIFFs under a folder, in traversal
    order. *)
Definition months_found (w : World) (folder : string) : list string :=
  walk w folder ≫= fun '(root, files) =>
    omap (fun fname => if Py.endswith (Py.lower fname) ".tif"
                       then Monthly.month_of fname else None) files.

(** The pixel [(px, py)] of the raster holds its nodata value, as an
    array of type [t] compares them. *)
Definition is_nodata (t : Np.dtype) (ds : Dataset) (px py : Z) : bool :=
  match NoDataValue ds with
  | Some nd => Np.eq_scalar t (pixel ds px py) nd
  | None => false
  end.

(** The raster a finished output holds, as a later [gdal.Open] of its
    path sees it. *)
Definition saved (o : OutDataset) : Dataset :=
  {| RasterXSize := out_xsize o; RasterYSize := out_ysize o;
     GeoTransform := default [] (out_geo o); Projection := default "" (out_proj o);
     NoDataValue := out_nodata o; pixel := out_pixel o |}.

(** Parameters of a binary conversion of a raster of [mismatched_world]. *)
Definition binary_params (threshold compression : Z) : Binary.Parameters :=
  {| Binary.INPUT := "in/b_2021-01-16.tif"; Binary.THRESHOLD := inject_Z threshold;
     Binary.COMPRESSION := compression; Binary.OUTPUT := "binary.tif" |}.

(** The value the binary converter compares with the threshold: zero
    where the pixel holds the nodata value of the raster, the pixel
    elsewhere. *)
Definition masked (ds : Dataset) (px py : Z) : Z :=
  match NoDataValue ds with
  | Some nd => if pixel ds px py =? nd then 0 else pixel ds px py
  | None => pixel ds px py
  end.

(** A folder with one Float32 raster of one pixel, which holds [2 ^ 25]. *)
Definition float_world : World :=
  folder "in" [("f_2021-01-15.tif",
                constant_raster 1 1 33554432 None north_up "EPSG:4326")].

(** A binary conversion of the raster of [float_world] at the threshold
    [2 ^ 25 - 1], which is no float32. *)
Definition float_params : Binary.Parameters :=
  {| Binary.INPUT := "in/f_2021-01-15.tif"; Binary.THRESHOLD := inject_Z 33554431;
     Binary.COMPRESSION := 0; Binary.OUTPUT := "binary.tif" |}.

(** Every character of [s] is a decimal digit. *)
Fixpoint all_digits (s : string) : bool :=
  match s with
  | EmptyString => true
  | String c s' => Py.is_digit c && all_digits s'
  end.

(** The character [c] does not occur in [s]. *)
Fixpoint free_of (c : ascii) (s : string) : bool :=
  match s with
  | EmptyString => true
  | String c' s' => negb (Ascii.eqb c' c) && free_of c s'
  end.

(** Four decimal digits start at position [i] of [s]. *)
Definition year_at (s : string) (i : nat) : bool :=
  digit_at s i && digit_at s (i + 1) && digit_at s (i + 2) && digit_at s (i + 3).

(** A folder with one raster and one file that is no raster. *)
Definition broken_world : World :=
  {| walk := fun _ => [("in", ["a_2021-01-15.tif"; "b_2021-01-16.tif"])];
     Open := fun path =>
       if String.eqb path "in/a_2021-01-15.tif"
       then Some (constant_raster 2 2 1 None north_up "EPSG:4326") else None |}.

(** What a seasonal run works on: the dictionary of seasons and the
    season-years with their observations, in processing order. *)
Definition seasonal_plan (w : World) (p : Seasonal.Parameters)
  : res (list (string * list string) * list (Z * string * list (Z * string * string))) :=
  seasons ← Seasonal.read_seasons (Seasonal.SEASONS p) [];
  rasters ← Seasonal.sort_rasters
              (walk w (Seasonal.INPUT_FOLDER p)
               ≫= fun '(root, files) => omap (observation_of root) files);
  season_raster_map ← Seasonal.build_season_raster_map seasons rasters;
  Ok (seasons, sorted Seasonal.by_season (map_to_list season_raster_map)).

(** The file list of a season-year, one slot per month of the season. *)
Definition season_files (seasons : list (string * list string))
    (item : Z * string * list (Z * string * string)) : list (option string) :=
  match Seasonal.dict_get item.1.2 seasons with
  | Ok season_months => (Seasonal.fill_months item.1.1 season_months item.2).1
  | Raise _ => []
  end.

(** The season-year can be summed: its first present file opens and
    every present file is at least as wide and high as that one. *)
Definition season_ready (w : World) (seasons : list (string * list string))
    (item : Z * string * list (Z * string * string)) : bool :=
  match present_paths (season_files seasons item) with
  | first :: _ =>
      match Open w first with
      | Some ref =>
          forallb (covers w (RasterXSize ref) (RasterYSize ref))
                  (present_paths (season_files seasons item))
      | None => false
      end
  | [] => false
  end.

(** [out] is the frequency map of the season-year: it is named after the
    season-year and the season and holds, on the grid of the first
    present file, the sum over the present files. *)
Definition seasonal_output (w : World) (p : Seasonal.Parameters)
    (seasons : list (string * list string))
    (item : Z * string * list (Z * string * string)) (out : OutDataset) : Prop :=
  out_path out
  = Py.path_join (Seasonal.OUTPUT_FOLDER p)
      (Seasonal.PREFIX p +:+ Seasonal.str item.1.1 +:+ "_" +:+ item.1.2 +:+ ".tif")
  /\ out_type out = GDT_Float32 /\ out_nodata out = Some 0
  /\ exists first ref,
       head (present_paths (season_files seasons item)) = Some first
       /\ Open w first = Some ref
       /\ produced ref (seasonal_pixel w (season_files seasons item)) out.

(** The season-year [a] is processed before [b]: an earlier year, or the
    same year and a season name that sorts first. *)
Definition season_before (a b : Z * string) : Prop :=
  a.1 < b.1 \/ (a.1 = b.1 /\ String.ltb a.2 b.2 = true).

(** [date_id] is a slice the monthly zonal statistics accept: two
    bounds, each empty or an integer literal, on either side of its only
    colon. *)
Definition valid_date_id (date_id : string) : Prop :=
  exists a b, date_id = a +:+ ":" +:+ b
    /\ free_of ":" a = true /\ free_of ":" b = true
    /\ MonthlyZonal.bound a <> None /\ MonthlyZonal.bound b <> None.

(** * Proofs *)

(** *** Rounding to a float *)

Lemma round_half_even_exact q d : 0 < d -> Np.round_half_even (q * d) d = q.
Proof.
  intros Hd. unfold Np.round_half_even.
  rewrite Z.div_mul, Z.mod_mul by lia.
  destruct (Z.ltb_spec (2 * 0) d); [reflexivity | lia].
Qed.

Lemma round_half_even_bounds n d :
  0 <= n -> 0 < d -> n / d <= Np.round_half_even n d <= n / d + 1.
Proof.
  intros Hn Hd. unfold Np.round_half_even.
  repeat match goal with |- context [if ?b then _ else _] => destruct b end; lia.
Qed.

Lemma float_exp_small prec v : Z.abs v < 2 ^ prec -> 1 <= prec -> Np.float_exp prec v = 0.
Proof.
  intros Hv Hp. unfold Np.float_exp.
  destruct (Z.eq_dec (Z.abs v) 0) as [->|Hne].
  - simpl. lia.
  - assert (Z.log2 (Z.abs v) < prec) by (apply Z.log2_lt_pow2; lia). lia.
Qed.

Lemma round_float_exp0 prec v : Np.float_exp prec v = 0 -> Np.round_float prec v = v.
Proof.
  intros He. unfold Np.round_float. rewrite He. simpl (2 ^ 0).
  replace (Z.abs v) with (Z.abs v * 1) at 1 by lia.
  rewrite round_half_even_exact by lia. 
  rewrite Z.mul_1_r. rewrite Z.mul_comm. apply Z.abs_sgn.
Qed.

Lemma round_float_canonical prec q e :
  1 <= prec -> 0 <= e -> 2 ^ (prec - 1) <= q <= 2 ^ prec ->
  Np.float_exp prec (q * 2 ^ e) = (if q =? 2 ^ prec then e + 1 else e)
  /\ Np.round_float prec (q * 2 ^ e) = q * 2 ^ e.
Proof.
  intros Hp He [Hlo Hhi].
  assert (Hpos : 0 < 2 ^ (prec - 1)) by (apply Z.pow_pos_nonneg; lia).
  assert (H2e : 0 < 2 ^ e) by (apply Z.pow_pos_nonneg; lia).
  assert (Hw : 0 < q * 2 ^ e) by nia.
  destruct (Z.eqb_spec q (2 ^ prec)) as [->|Hne].
  - assert (Hlog : Z.log2 (2 ^ prec * 2 ^ e) = prec + e).
    { rewrite <- Z.pow_add_r by lia. apply Z.log2_pow2. lia. }
    assert (Hexp : Np.float_exp prec (2 ^ prec * 2 ^ e) = e + 1).
    { unfold Np.float_exp. rewrite Z.abs_eq by lia. rewrite Hlog. lia. }
    split; [exact Hexp|].
    unfold Np.round_float. rewrite Hexp. rewrite Z.abs_eq by lia.
    assert (Heq : 2 ^ prec * 2 ^ e = 2 ^ (prec - 1) * 2 ^ (e + 1)).
    { rewrite <- !Z.pow_add_r by lia. f_equal. lia. }
    rewrite Heq at 2. rewrite round_half_even_exact by (apply Z.pow_pos_nonneg; lia).
    rewrite <- Heq. rewrite Z.sgn_pos by lia. lia.
  - assert (Hlog : Z.log2 (q * 2 ^ e) = prec - 1 + e).
    { apply Z.log2_unique; [lia|]. 
      replace (Z.succ (prec - 1 + e)) with (prec + e) by lia.
      rewrite !Z.pow_add_r by lia. split; nia. }
    assert (Hexp : Np.float_exp prec (q * 2 ^ e) = e).
    { unfold Np.float_exp. rewrite Z.abs_eq by lia. rewrite Hlog. lia. }
    split; [exact Hexp|].
    unfold Np.round_float. rewrite Hexp. rewrite Z.abs_eq by lia.
    rewrite round_half_even_exact by lia.
    rewrite Z.sgn_pos by lia. lia.
Qed.

Lemma round_float_opp prec v : Np.round_float prec (- v) = - Np.round_float prec v.
Proof.
  unfold Np.round_float, Np.float_exp. rewrite Z.abs_opp, Z.sgn_opp. lia.
Qed.

Lemma round_float_shape prec v :
  1 <= prec -> 0 < v ->
  Np.round_float prec v = v \/
  exists q e, 0 <= e /\ 2 ^ (prec - 1) <= q <= 2 ^ prec /\ Np.round_float prec v = q * 2 ^ e.
Proof.
  intros Hp Hv.
  destruct (Z.eq_dec (Np.float_exp prec v) 0) as [He|He].
  - left. by apply round_float_exp0.
  - right. unfold Np.round_float. set (e := Np.float_exp prec v) in *.
    assert (Hepos : 0 < e) by (unfold e, Np.float_exp in *; lia).
    assert (Hedef : e = Z.log2 v + 1 - prec).
    { unfold e, Np.float_exp in *. rewrite Z.abs_eq in * by lia. lia. }
    rewrite Z.abs_eq by lia. rewrite Z.sgn_pos by lia.
    exists (Np.round_half_even v (2 ^ e)), e.
    assert (H2e : 0 < 2 ^ e) by (apply Z.pow_pos_nonneg; lia).
    pose proof (Z.log2_spec v Hv) as [Hl1 Hl2].
    assert (Hlg : 0 <= Z.log2 v) by apply Z.log2_nonneg.
    replace (Z.log2 v) with (prec - 1 + e) in Hl1 by lia.
    replace (Z.succ (Z.log2 v)) with (prec + e) in Hl2 by lia.
    rewrite Z.pow_add_r in Hl1, Hl2 by lia.
    pose proof (round_half_even_bounds v (2 ^ e) ltac:(lia) H2e) as [Hb1 Hb2].
    assert (2 ^ (prec - 1) <= v / 2 ^ e) by (apply Z.div_le_lower_bound; lia).
    assert (v / 2 ^ e < 2 ^ prec) by (apply Z.div_lt_upper_bound; lia).
    split; [lia|]. split; [lia|]. lia.
Qed.

Lemma round_float_idempotent_pos prec v :
  1 <= prec -> 0 < v ->
  Np.round_float prec (Np.round_float prec v) = Np.round_float prec v.
Proof.
  intros Hp Hv. 
  destruct (Z.eq_dec (Np.float_exp prec v) 0) as [He|He].
  - by rewrite !(round_float_exp0 prec v He).
  - destruct (round_float_shape prec v Hp Hv) as [H|(q & e & He0 & Hq & ->)]; [by rewrite !H|].
    by apply round_float_canonical.
Qed.

Lemma round_float_idempotent prec v :
  1 <= prec -> Np.round_float prec (Np.round_float prec v) = Np.round_float prec v.
Proof.
  intros Hp. destruct (Z.lt_trichotomy v 0) as [Hv|[->|Hv]].
  - pose proof (round_float_idempotent_pos prec (- v) Hp ltac:(lia)) as H.
    rewrite !round_float_opp in H. lia.
  - reflexivity.
  - by apply round_float_idempotent_pos.
Qed.

(** *** [range] *)

Lemma range_count stop step (k : nat) :
  0 < step ->
  (k < Z.to_nat ((stop + step - 1) / step))%nat <-> Z.of_nat k * step < stop.
Proof.
  intros Hstep. split.
  - intros Hk.
    assert (Hq : Z.of_nat k + 1 <= (stop + step - 1) / step) by lia.
    assert (step * ((stop + step - 1) / step) <= stop + step - 1)
      by (apply Z.mul_div_le; lia).
    nia.
  - intros Hk.
    assert (Z.of_nat k + 1 <= (stop + step - 1) / step); [|lia].
    apply Z.div_le_lower_bound; lia.
Qed.

Lemma range_spec stop step x :
  0 < step ->
  x ∈ Py.range stop step <-> exists k, 0 <= k /\ x = k * step /\ x < stop.
Proof.
  intros Hstep. unfold Py.range. rewrite list_elem_of_In, in_map_iff. split.
  - intros (k & <- & Hk). apply in_seq in Hk.
    exists (Z.of_nat k). split; [lia|]. split; [done|].
    apply range_count; [done|lia].
  - intros (k & Hk & -> & Hlt). exists (Z.to_nat k).
    rewrite Z2Nat.id by lia. split; [done|].
    apply in_seq. split; [lia|]. simpl.
    apply range_count; [done|]. rewrite Z2Nat.id by lia. done.
Qed.

Lemma seq_sorted (a n : nat) : StronglySorted lt (seq a n).
Proof.
  revert a. induction n as [|n IH]; intros a; simpl; constructor.
  - apply IH.
  - apply Forall_forall. intros k Hk%list_elem_of_In%in_seq. lia.
Qed.

Lemma range_sorted stop step : 0 < step -> StronglySorted Z.lt (Py.range stop step).
Proof.
  intros Hstep. unfold Py.range.
  apply (StronglySorted_fmap (fun k : nat => Z.of_nat k * step) lt Z.lt).
  - intros a b Hab. nia.
  - apply seq_sorted.
Qed.

(** *** The tile partition *)

Lemma tiles_spec cols rows bs t :
  t ∈ tiles cols rows bs <->
  exists x y, y ∈ Py.range rows bs /\ x ∈ Py.range cols bs /\ t = tile_at cols rows bs x y.
Proof.
  unfold tiles. rewrite list_elem_of_bind. split.
  - intros (y & Ht & Hy). apply list_elem_of_bind in Ht as (x & Ht & Hx).
    apply list_elem_of_singleton in Ht. by exists x, y.
  - intros (x & y & Hy & Hx & ->). exists y. split; [|done].
    apply list_elem_of_bind. exists x. split; [|done]. by apply list_elem_of_singleton.
Qed.

Lemma tiles_row_sorted cols rows bs y xs :
  StronglySorted Z.lt xs ->
  StronglySorted tile_before (xs ≫= fun x => [tile_at cols rows bs x y]).
Proof.
  induction 1 as [|x xs _ IHx Hallx]; [constructor|].
  constructor; [exact IHx|].
  apply Forall_forall. intros t (x2 & Ht & Hx2)%list_elem_of_bind.
  apply list_elem_of_singleton in Ht as ->.
  right. simpl. rewrite Forall_forall in Hallx. split; [done|]. by apply Hallx.
Qed.

Lemma tiles_sorted cols rows bs :
  0 < bs -> StronglySorted tile_before (tiles cols rows bs).
Proof.
  intros Hbs. unfold tiles.
  pose proof (range_sorted rows bs Hbs) as Hys.
  induction Hys as [|y ys Hsorted IH Hall]; [constructor|].
  change (StronglySorted tile_before
            ((Py.range cols bs ≫= fun x => [tile_at cols rows bs x y])
             ++ (ys ≫= fun y => Py.range cols bs ≫= fun x => [tile_at cols rows bs x y]))).
  apply StronglySorted_app_2; [| |exact IH].
  - intros t1 t2 (x1 & Ht1 & _)%list_elem_of_bind (y2 & Ht2 & Hy2)%list_elem_of_bind.
    apply list_elem_of_singleton in Ht1 as ->.
    apply list_elem_of_bind in Ht2 as (x2 & Ht2 & _).
    apply list_elem_of_singleton in Ht2 as ->.
    left. simpl. rewrite Forall_forall in Hall. by apply Hall.
  - apply tiles_row_sorted. by apply range_sorted.
Qed.

Lemma StronglySorted_lookup {A} (R : relation A) (l : list A) (i j : nat) (a b : A) :
  StronglySorted R l -> (i < j)%nat -> l !! i = Some a -> l !! j = Some b -> R a b.
Proof.
  intros Hs. revert i j. induction Hs as [|x l Hs IH Hall]; intros i j Hij Hi Hj.
  - done.
  - destruct j as [|j]; [lia|]. destruct i as [|i]; simpl in *.
    + injection Hi as ->. rewrite Forall_forall in Hall.
      apply Hall. by eapply list_elem_of_lookup_2.
    + eapply (IH i j); [lia|done|done].
Qed.

Lemma tile_origin cols rows bs t px py :
  0 < bs -> t ∈ tiles cols rows bs -> in_tile t px py ->
  tile_x t = px / bs * bs /\ tile_y t = py / bs * bs.
Proof.
  intros Hbs (x & y & Hy & Hx & ->)%tiles_spec [Hpx Hpy]. simpl in *.
  apply range_spec in Hx as (kx & Hkx & -> & _); [|done].
  apply range_spec in Hy as (ky & Hky & -> & _); [|done].
  assert (kx = px / bs) as <- by (apply Z.div_unique with (r := px - kx * bs); lia).
  assert (ky = py / bs) as <- by (apply Z.div_unique with (r := py - ky * bs); lia).
  done.
Qed.

Lemma tile_of_pixel cols rows bs px py :
  0 < bs -> 0 <= px < cols -> 0 <= py < rows ->
  tile_at cols rows bs (px / bs * bs) (py / bs * bs) ∈ tiles cols rows bs /\
  in_tile (tile_at cols rows bs (px / bs * bs) (py / bs * bs)) px py.
Proof.
  intros Hbs Hpx Hpy.
  assert (Hx1 : 0 <= px / bs) by (apply Z.div_pos; lia).
  assert (Hy1 : 0 <= py / bs) by (apply Z.div_pos; lia).
  pose proof (Z.mul_div_le px bs Hbs). pose proof (Z.mul_div_le py bs Hbs).
  pose proof (Z.mod_pos_bound px bs Hbs). pose proof (Z.mod_pos_bound py bs Hbs).
  pose proof (Z.div_mod px bs ltac:(lia)). pose proof (Z.div_mod py bs ltac:(lia)).
  split.
  - apply tiles_spec. eexists _, _. split; [|split; [|reflexivity]].
    + apply range_spec; [done|]. exists (py / bs). lia.
    + apply range_spec; [done|]. exists (px / bs). lia.
  - unfold in_tile, tile_at. simpl. lia.
Qed.

Lemma tile_bounds cols rows bs t :
  0 < bs -> t ∈ tiles cols rows bs ->
  0 <= tile_x t /\ 0 <= tile_y t /\
  1 <= tile_xsize t <= bs /\ 1 <= tile_ysize t <= bs /\
  tile_x t + tile_xsize t <= cols /\ tile_y t + tile_ysize t <= rows.
Proof.
  intros Hbs (x & y & Hy & Hx & ->)%tiles_spec. simpl.
  apply range_spec in Hx as (kx & Hkx & -> & ?); [|done].
  apply range_spec in Hy as (ky & Hky & -> & ?); [|done].
  nia.
Qed.

(** *** The date pattern *)

Lemma date_at_S c s i : date_at (String c s) (S i) = date_at s i.
Proof. reflexivity. Qed.

Lemma date_at_empty i : date_at "" i = false.
Proof. unfold date_at, digit_at. by destruct i. Qed.

Lemma match_date_spec s :
  match Re.match_date s with
  | Some (y, m) => date_at s 0 = true /\ y = substring 0 4 s /\ m = substring 5 2 s
  | None => date_at s 0 = false
  end.
Proof.
  do 10 (destruct s as [|? s];
         [unfold date_at, digit_at, char_at; simpl;
          repeat (rewrite ?andb_false_r; simpl); reflexivity|]).
  unfold Re.match_date, date_at, digit_at, char_at. simpl String.get.
  match goal with |- context [if ?b then _ else _] => destruct b eqn:Hb end.
  - split; [done|]. split; [|done]. simpl. by destruct s.
  - done.
Qed.

Lemma search_date_spec s y m :
  Re.search_date s = Some (y, m) <->
  exists i : nat, date_at s i = true /\ (forall j : nat, (j < i)%nat -> date_at s j = false)
            /\ y = substring i 4 s /\ m = substring (i + 5) 2 s.
Proof.
  induction s as [|c s IH].
  - simpl. split; [done|]. intros (i & Hi & _). by rewrite date_at_empty in Hi.
  - pose proof (match_date_spec (String c s)) as Hm.
    cbn [Re.search_date]. destruct (Re.match_date (String c s)) as [[y0 m0]|].
    + destruct Hm as (H0 & -> & ->). split.
      * intros [= <- <-]. exists 0%nat. split; [done|]. split; [lia|done].
      * intros (i & Hi & Hmin & -> & ->). destruct i as [|i]; [done|].
        rewrite Hmin in H0 by lia. done.
    + rewrite IH. split.
      * intros (i & Hi & Hmin & -> & ->). exists (S i). split; [done|].
        split; [|done]. intros [|j] Hj; [done|]. rewrite date_at_S. apply Hmin. lia.
      * intros (i & Hi & Hmin & -> & ->). destruct i as [|i]; [congruence|].
        exists i. split; [done|]. split; [|done].
        intros j Hj. rewrite <- (date_at_S c). apply Hmin. lia.
Qed.

Lemma search_date_None s :
  Re.search_date s = None <-> forall i : nat, date_at s i = false.
Proof.
  induction s as [|c s IH].
  - simpl. split; [|done]. intros _ i. apply date_at_empty.
  - pose proof (match_date_spec (String c s)) as Hm.
    cbn [Re.search_date]. destruct (Re.match_date (String c s)) as [[y0 m0]|].
    + destruct Hm as (H0 & _). split; [done|]. intros H. by rewrite H in H0.
    + rewrite IH. split.
      * intros H [|i]; [done|]. rewrite date_at_S. apply H.
      * intros H i. rewrite <- (date_at_S c). apply H.
Qed.

Lemma month_of_Some fname mm :
  Monthly.month_of fname = Some mm <->
  exists i : nat, date_at fname i = true
            /\ (forall j : nat, (j < i)%nat -> date_at fname j = false)
            /\ mm = substring (i + 5) 2 fname.
Proof.
  unfold Monthly.month_of. split.
  - destruct (Re.search_date fname) as [[y m]|] eqn:Hs; [|done].
    intros [= <-]. apply search_date_spec in Hs as (i & ? & ? & ? & ?). by exists i.
  - intros (i & Hi & Hmin & ->).
    assert (Hs : Re.search_date fname = Some (substring i 4 fname, substring (i + 5) 2 fname)).
    { apply search_date_spec. by exists i. }
    by rewrite Hs.
Qed.

(** *** Blocks *)

Lemma replicate_seq {A} (c : A) (a n : nat) : replicate n c = map (fun _ => c) (seq a n).
Proof. revert a. induction n as [|n IH]; intros a; simpl; [done|]. by rewrite <- IH. Qed.

Lemma zeros_block_of xsize ysize : Np.zeros ysize xsize = block_of xsize ysize (fun _ _ => 0).
Proof.
  unfold Np.zeros, block_of.
  rewrite (replicate_seq _ 0 (Z.to_nat ysize)). by rewrite (replicate_seq 0 0 (Z.to_nat xsize)).
Qed.

Lemma block_map_block_of g xsize ysize f :
  Np.block_map g (block_of xsize ysize f) = block_of xsize ysize (fun i j => g (f i j)).
Proof.
  unfold Np.block_map, block_of. rewrite map_map. apply map_ext. intros j.
  by rewrite map_map.
Qed.

Lemma zip_with_map {A B C D} (h : B -> C -> D) (f : A -> B) (g : A -> C) (l : list A) :
  zip_with h (map f l) (map g l) = map (fun a => h (f a) (g a)) l.
Proof. induction l as [|a l IH]; simpl; [done|]. by rewrite IH. Qed.

Lemma block_add_block_of t xsize ysize f g :
  Np.block_add t (block_of xsize ysize f) (block_of xsize ysize g)
  = block_of xsize ysize (fun i j => Np.add t (f i j) (g i j)).
Proof.
  unfold Np.block_add, block_of. rewrite zip_with_map. apply map_ext. intros j.
  by rewrite zip_with_map.
Qed.

Lemma block_of_ext xsize ysize f g :
  (forall i j, 0 <= i < xsize -> 0 <= j < ysize -> f i j = g i j) ->
  block_of xsize ysize f = block_of xsize ysize g.
Proof.
  intros H. unfold block_of. apply map_ext_in. intros j Hj%in_seq.
  apply map_ext_in. intros i Hi%in_seq. apply H; lia.
Qed.

Lemma lookup_map {A B} (f : A -> B) (l : list A) (i : nat) :
  map f l !! i = f <$> (l !! i).
Proof. exact (list_lookup_fmap f l i). Qed.

Lemma block_get_block_of xsize ysize f (i j : nat) :
  Z.of_nat i < xsize -> Z.of_nat j < ysize ->
  Np.block_get (block_of xsize ysize f) i j = Some (f (Z.of_nat i) (Z.of_nat j)).
Proof.
  intros Hi Hj. unfold Np.block_get, block_of.
  rewrite lookup_map, lookup_seq_lt by lia. simpl.
  rewrite lookup_map, lookup_seq_lt by lia. done.
Qed.

Lemma ReadAsArray_Some ds x y xsize ysize :
  0 <= x -> 0 <= y -> x + xsize <= RasterXSize ds -> y + ysize <= RasterYSize ds ->
  ReadAsArray ds x y xsize ysize
  = Some (block_of xsize ysize (fun i j => pixel ds (x + i) (y + j))).
Proof.
  intros. unfold ReadAsArray.
  destruct (Z.leb_spec 0 x); [|lia]. destruct (Z.leb_spec 0 y); [|lia].
  destruct (Z.leb_spec (x + xsize) (RasterXSize ds)); [|lia].
  destruct (Z.leb_spec (y + ysize) (RasterYSize ds)); [|lia]. done.
Qed.

Lemma ReadAsArray_None ds x y xsize ysize :
  RasterXSize ds < x + xsize \/ RasterYSize ds < y + ysize ->
  ReadAsArray ds x y xsize ysize = None.
Proof.
  intros. unfold ReadAsArray.
  destruct (Z.leb_spec 0 x); [|done]. destruct (Z.leb_spec 0 y); [|done].
  destruct (Z.leb_spec (x + xsize) (RasterXSize ds)); [|done].
  destruct (Z.leb_spec (y + ysize) (RasterYSize ds)); [lia|done].
Qed.

(** *** Loops *)

Lemma reports_nil fb : reports [] fb = fb.
Proof. destruct fb. unfold reports. simpl. by rewrite app_nil_r. Qed.

Lemma reports_app es1 es2 fb : reports es2 (reports es1 fb) = reports (es1 ++ es2) fb.
Proof. unfold reports. simpl. by rewrite app_assoc. Qed.

Lemma for_M_pure {X S} (body : X -> S -> M S) (g : X -> S -> S) (ev : X -> list event)
    (xs : list X) :
  (forall x, x ∈ xs -> forall s fb, body x s fb = (reports (ev x) fb, Ok (g x s))) ->
  forall s fb,
    for_M body xs s fb
    = (reports (List.concat (map ev xs)) fb, Ok (fold_left (fun s x => g x s) xs s)).
Proof.
  induction xs as [|x xs IH]; intros Hbody s fb.
  - simpl. by rewrite reports_nil.
  - cbn [for_M]. unfold mbind, M_bind. rewrite Hbody by apply list_elem_of_here.
    rewrite IH by (intros; apply Hbody; by apply list_elem_of_further).
    simpl. by rewrite reports_app.
Qed.

Lemma for_M_raises {X S} (body : X -> S -> M S) (xs : list X) (x : X) :
  x ∈ xs ->
  (forall s fb, exists e, (body x s fb).2 = Raise e) ->
  forall s fb, exists e, (for_M body xs s fb).2 = Raise e.
Proof.
  intros Hx Hbody. induction xs as [|x' xs IH]; intros s fb.
  - by apply elem_of_nil in Hx.
  - cbn [for_M]. unfold mbind, M_bind.
    apply elem_of_cons in Hx as [<-|Hx].
    + destruct (Hbody s fb) as [e He]. destruct (body x s fb) as [fb' [a|e']]; simpl in *; [done|].
      by exists e'.
    + destruct (body x' s fb) as [fb' [a|e']]; simpl; [by apply IH|by exists e'].
Qed.

Lemma for_res_raises {X S} (body : X -> S -> res S) (xs : list X) (x : X) :
  x ∈ xs ->
  (forall s, exists e, body x s = Raise e) ->
  forall s, exists e, for_res body xs s = Raise e.
Proof.
  intros Hx Hbody. induction xs as [|x' xs IH]; intros s.
  - by apply elem_of_nil in Hx.
  - cbn [for_res]. unfold mbind, res_bind.
    apply elem_of_cons in Hx as [<-|Hx].
    + destruct (Hbody s) as [e ->]. by exists e.
    + destruct (body x' s) as [a|e']; [by apply IH|by exists e'].
Qed.

Lemma fold_left_bind {A B S} (f : S -> B -> S) (g : A -> list B) (l : list A) (s : S) :
  fold_left f (l ≫= g) s = fold_left (fun s a => fold_left f (g a) s) l s.
Proof.
  revert s. induction l as [|a l IH]; intros s; [done|].
  change ((a :: l) ≫= g) with (g a ++ (l ≫= g)). by rewrite fold_left_app, IH.
Qed.

Lemma written_write_all ws o : written (write_all ws o) = written o ++ ws.
Proof.
  revert o. induction ws as [|[[x y] b] ws IH]; intros o; simpl.
  - by rewrite app_nil_r.
  - unfold write_all in *. simpl. rewrite IH. simpl. by rewrite <- app_assoc.
Qed.

(** Two block loops whose body writes, for every window, the block of a
    pixel function [f]: all the tiles are written, in order. *)
Lemma block_loops_write (body : Z -> OutDataset -> M OutDataset)
    (ev : Z -> list event) (f : Z -> Z -> Z) (cols rows bs : Z) :
  (forall y, y ∈ Py.range rows bs -> forall out fb,
     body y out fb
     = (reports (ev y) fb,
        Ok (write_all (map (fun x => tile_write f (tile_at cols rows bs x y))
                           (Py.range cols bs)) out))) ->
  forall out fb,
    for_M body (Py.range rows bs) out fb
    = (reports (List.concat (map ev (Py.range rows bs))) fb,
       Ok (write_all (map (tile_write f) (tiles cols rows bs)) out)).
Proof.
  intros Hbody out fb.
  rewrite (for_M_pure body _ ev _ Hbody). f_equal. f_equal.
  unfold write_all, tiles. generalize (Py.range rows bs) as ys. intros ys. revert out.
  induction ys as [|y ys IH]; intros out; [done|].
  cbn [fold_left].
  change ((y :: ys) ≫= ?g) with (g y ++ (ys ≫= g)).
  rewrite map_app, fold_left_app. rewrite <- IH. f_equal.
  generalize (Py.range cols bs) as xs. intros xs. revert out. clear.
  induction xs as [|x xs IH]; intros out; [done|]. simpl. by rewrite IH.
Qed.

(** *** One tile *)

Lemma covers_Some w cols rows path :
  covers w cols rows path = true ->
  exists ds, Open w path = Some ds /\ cols <= RasterXSize ds /\ rows <= RasterYSize ds.
Proof.
  unfold covers. destruct (Open w path) as [ds|]; [|done].
  intros [? ?]%andb_true_iff. exists ds. split; [done|]. lia.
Qed.

Lemma mask_zero_block_of t nd xsize ysize f :
  Np.mask_zero t nd (block_of xsize ysize f)
  = block_of xsize ysize (fun i j => if Np.eq_scalar t (f i j) nd then 0 else f i j).
Proof. unfold Np.mask_zero. by rewrite block_map_block_of. Qed.

Lemma Summation_add_raster_as w x y xsize ysize path bs :
  Summation.add_raster w x y xsize ysize path bs
  = add_slot_as Np.uint32 w x y xsize ysize (Some path) bs.
Proof.
  unfold Summation.add_raster, Summation.read_data, add_slot_as.
  destruct (Open w path) as [ds|]; [|done].
  by destruct (ReadAsArray ds x y xsize ysize).
Qed.

Lemma Monthly_add_raster_as w x y xsize ysize path bs :
  Monthly.add_raster w x y xsize ysize path bs
  = add_slot_as Np.float32 w x y xsize ysize (Some path) bs.
Proof.
  unfold Monthly.add_raster, Monthly.read_data, add_slot_as.
  destruct (Open w path) as [ds|]; [|done].
  by destruct (ReadAsArray ds x y xsize ysize).
Qed.

Lemma Seasonal_add_slot_as w x y xsize ysize slot bs :
  Seasonal.add_slot w x y xsize ysize slot bs
  = add_slot_as Np.float32 w x y xsize ysize
      (if Seasonal.truthy slot then slot else None) bs.
Proof.
  unfold Seasonal.add_slot, add_slot_as.
  destruct (Seasonal.truthy slot) eqn:Ht; [|done].
  destruct slot as [path|]; [|done]. simpl.
  destruct (Open w path) as [ds|]; [|done].
  by destruct (ReadAsArray ds x y xsize ysize).
Qed.

Lemma add_slot_as_ok t w cols rows x y xsize ysize slot f :
  covers_slot w cols rows slot = true ->
  0 <= x -> 0 <= y -> x + xsize <= cols -> y + ysize <= rows ->
  add_slot_as t w x y xsize ysize slot (block_of xsize ysize f)
  = Ok (block_of xsize ysize
          (fun i j => Np.add t (f i j) (slot_value t w slot (x + i) (y + j)))).
Proof.
  intros Hc ? ? ? ?. unfold add_slot_as, slot_value. destruct slot as [path|]; simpl.
  - apply covers_Some in Hc as (ds & -> & ? & ?).
    rewrite ReadAsArray_Some by lia. rewrite block_map_block_of.
    unfold contribution. destruct (NoDataValue ds) as [nd|].
    + by rewrite mask_zero_block_of, block_add_block_of.
    + by rewrite block_add_block_of.
  - by rewrite block_map_block_of.
Qed.

Lemma add_slots_as_ok t w cols rows x y xsize ysize slots f :
  forallb (covers_slot w cols rows) slots = true ->
  0 <= x -> 0 <= y -> x + xsize <= cols -> y + ysize <= rows ->
  for_res (add_slot_as t w x y xsize ysize) slots (block_of xsize ysize f)
  = Ok (block_of xsize ysize
          (fun i j => accumulate t w slots (f i j) (x + i) (y + j))).
Proof.
  intros Hall ? ? ? ?. revert f Hall.
  induction slots as [|slot slots IH]; intros f Hall; [done|].
  simpl in Hall. apply andb_true_iff in Hall as [Hs Hall].
  cbn [for_res]. rewrite (add_slot_as_ok t w cols rows) by done.
  unfold mbind, res_bind. by rewrite IH.
Qed.

Lemma add_slot_as_raises t w ds path x y xsize ysize :
  Open w path = Some ds ->
  RasterXSize ds < x + xsize \/ RasterYSize ds < y + ysize ->
  forall s, exists e, add_slot_as t w x y xsize ysize (Some path) s = Raise e.
Proof.
  intros Hopen Hsmall s. unfold add_slot_as.
  rewrite Hopen, ReadAsArray_None by done. by eexists.
Qed.

Lemma for_res_ext {X S} (f g : X -> S -> res S) (xs : list X) (s : S) :
  (forall x s, f x s = g x s) -> for_res f xs s = for_res g xs s.
Proof.
  intros H. revert s. induction xs as [|x xs IH]; intros s; [done|].
  cbn [for_res]. rewrite H. unfold mbind, res_bind. destruct (g x s); [apply IH|done].
Qed.

Lemma for_res_map {X Y S} (f : Y -> S -> res S) (g : X -> Y) (xs : list X) (s : S) :
  for_res f (map g xs) s = for_res (fun x => f (g x)) xs s.
Proof.
  revert s. induction xs as [|x xs IH]; intros s; [done|].
  cbn [for_res map]. unfold mbind, res_bind. destruct (f (g x) s); [apply IH|done].
Qed.

Lemma Summation_block_sum_as w rasters x y xsize ysize :
  Summation.block_sum w rasters x y xsize ysize
  = for_res (add_slot_as Np.uint32 w x y xsize ysize) (map Some rasters)
            (Np.zeros ysize xsize).
Proof.
  unfold Summation.block_sum. rewrite for_res_map. apply for_res_ext.
  intros. apply Summation_add_raster_as.
Qed.

Lemma Monthly_block_sum_as w rasters x y xsize ysize :
  Monthly.block_sum w rasters x y xsize ysize
  = for_res (add_slot_as Np.float32 w x y xsize ysize) (map Some rasters)
            (Np.zeros ysize xsize).
Proof.
  unfold Monthly.block_sum. rewrite for_res_map. apply for_res_ext.
  intros. apply Monthly_add_raster_as.
Qed.

Lemma forallb_covers_slot w cols rows rasters :
  forallb (covers_slot w cols rows) (map Some rasters) = forallb (covers w cols rows) rasters.
Proof. induction rasters as [|r rasters IH]; [done|]. simpl. by rewrite IH. Qed.

Lemma Summation_block_sum_ok w cols rows x y xsize ysize rasters :
  forallb (covers w cols rows) rasters = true ->
  0 <= x -> 0 <= y -> x + xsize <= cols -> y + ysize <= rows ->
  Summation.block_sum w rasters x y xsize ysize
  = Ok (block_of xsize ysize
          (fun i j => accumulate Np.uint32 w (map Some rasters) 0 (x + i) (y + j))).
Proof.
  intros. rewrite Summation_block_sum_as, zeros_block_of.
  apply (add_slots_as_ok _ w cols rows); try done. by rewrite forallb_covers_slot.
Qed.

Lemma Monthly_block_sum_ok w cols rows x y xsize ysize rasters :
  forallb (covers w cols rows) rasters = true ->
  0 <= x -> 0 <= y -> x + xsize <= cols -> y + ysize <= rows ->
  Monthly.block_sum w rasters x y xsize ysize
  = Ok (block_of xsize ysize
          (fun i j => accumulate Np.float32 w (map Some rasters) 0 (x + i) (y + j))).
Proof.
  intros. rewrite Monthly_block_sum_as, zeros_block_of.
  apply (add_slots_as_ok _ w cols rows); try done. by rewrite forallb_covers_slot.
Qed.

Lemma block_sum_as_raises t w rasters path ds x y xsize ysize :
  path ∈ rasters -> Open w path = Some ds ->
  RasterXSize ds < x + xsize \/ RasterYSize ds < y + ysize ->
  exists e, for_res (add_slot_as t w x y xsize ysize) (map Some rasters)
                    (Np.zeros ysize xsize) = Raise e.
Proof.
  intros Hin Hopen Hsmall.
  apply (for_res_raises _ _ (Some path)).
  - apply list_elem_of_In, in_map. by apply list_elem_of_In.
  - by apply (add_slot_as_raises t w ds).
Qed.

Lemma fold_left_fmap {A B S} (f : S -> B -> S) (g : A -> B) (l : list A) (s : S) :
  fold_left f (map g l) s = fold_left (fun s a => f s (g a)) l s.
Proof. revert s. induction l as [|a l IH]; intros s; [done|]. simpl. by rewrite IH. Qed.

Lemma range_tile_bounds stop bs x :
  0 < bs -> x ∈ Py.range stop bs -> 0 <= x /\ x + Z.min bs (stop - x) <= stop.
Proof. intros Hbs (k & ? & -> & ?)%range_spec; [|done]. nia. Qed.

Lemma concat_nil {A B} (l : list A) : List.concat (map (fun _ => @nil B) l) = [].
Proof. by induction l. Qed.

(** One row of blocks whose body writes the block of a pixel function. *)
Lemma block_row_write (body : Z -> OutDataset -> M OutDataset) (f : Z -> Z -> Z)
    (cols rows bs y : Z) :
  (forall x, x ∈ Py.range cols bs -> forall out fb,
     body x out fb
     = (fb, Ok (WriteArray (tile_write f (tile_at cols rows bs x y)).2 x y out))) ->
  forall out fb,
    for_M body (Py.range cols bs) out fb
    = (fb, Ok (write_all (map (fun x => tile_write f (tile_at cols rows bs x y))
                              (Py.range cols bs)) out)).
Proof.
  intros Hbody out fb.
  rewrite (for_M_pure body
             (fun x out => WriteArray (tile_write f (tile_at cols rows bs x y)).2 x y out)
             (fun _ => [])).
  - rewrite concat_nil, reports_nil. unfold write_all. by rewrite fold_left_fmap.
  - intros x Hx out' fb'. rewrite reports_nil. by apply Hbody.
Qed.

Lemma range_first stop bs : 0 < bs -> 1 <= stop -> 0 ∈ Py.range stop bs.
Proof. intros. apply range_spec; [done|]. exists 0. lia. Qed.

Lemma range_last stop bs :
  0 < bs -> 1 <= stop ->
  exists x, x ∈ Py.range stop bs /\ x + Z.min bs (stop - x) = stop.
Proof.
  intros Hbs Hstop. exists ((stop - 1) / bs * bs).
  pose proof (Z.div_mod (stop - 1) bs ltac:(lia)).
  pose proof (Z.mod_pos_bound (stop - 1) bs Hbs).
  assert (0 <= (stop - 1) / bs) by (apply Z.div_pos; lia).
  split; [|lia]. apply range_spec; [done|]. exists ((stop - 1) / bs). lia.
Qed.

(** A raster narrower or shorter than the grid misses some window. *)
Lemma missed_window cols rows bs xsize ysize :
  0 < bs -> 1 <= cols -> 1 <= rows -> xsize < cols \/ ysize < rows ->
  exists x y, x ∈ Py.range cols bs /\ y ∈ Py.range rows bs
         /\ (xsize < x + Z.min bs (cols - x) \/ ysize < y + Z.min bs (rows - y)).
Proof.
  intros Hbs Hcols Hrows [Hs|Hs].
  - destruct (range_last cols _ Hbs Hcols) as (x & Hx & Hlast).
    exists x, 0. split; [done|]. split; [by apply range_first|]. left. lia.
  - destruct (range_last rows _ Hbs Hrows) as (y & Hy & Hlast).
    exists 0, y. split; [by apply range_first|]. split; [done|]. right. lia.
Qed.

Lemma write_all_fields ws o :
  out_path (write_all ws o) = out_path o /\ out_xsize (write_all ws o) = out_xsize o
  /\ out_ysize (write_all ws o) = out_ysize o /\ out_type (write_all ws o) = out_type o
  /\ out_options (write_all ws o) = out_options o /\ out_geo (write_all ws o) = out_geo o
  /\ out_proj (write_all ws o) = out_proj o /\ out_nodata (write_all ws o) = out_nodata o
  /\ flushed (write_all ws o) = flushed o.
Proof.
  revert o. induction ws as [|[[x y] b] ws IH]; intros o; [done|].
  unfold write_all in *. simpl.
  destruct (IH (WriteArray b x y o)) as (-> & -> & -> & -> & -> & -> & -> & -> & ->).
  done.
Qed.

(** *** Flat summation: the run *)

Lemma Summation_process_blocks_ok w rasters t cols rows out fb :
  forallb (covers w cols rows) rasters = true ->
  Summation.process_blocks w rasters t cols rows out fb
  = (reports (List.concat (map (progress_of rows) (Py.range rows Summation.block_size))) fb,
     Ok (write_all (map (tile_write (summation_pixel w rasters t))
                        (tiles cols rows Summation.block_size)) out)).
Proof.
  intros Hall. unfold Summation.process_blocks.
  apply (block_loops_write _ (progress_of rows)). clear out fb.
  intros y Hy out fb.
  destruct (range_tile_bounds rows Summation.block_size y ltac:(done) Hy).
  unfold mbind at 1, M_bind.
  rewrite (block_row_write _ (summation_pixel w rasters t) cols rows Summation.block_size y).
  - done.
  - intros x Hx out' fb'.
    destruct (range_tile_bounds cols Summation.block_size x ltac:(done) Hx).
    unfold Summation.process_block, lift, mbind, M_bind.
    rewrite (Summation_block_sum_ok w cols rows) by (done || lia).
    unfold mret, M_ret, Summation.out_block. by rewrite block_map_block_of.
Qed.

Lemma Summation_process_blocks_raises w rasters t cols rows path ds :
  1 <= cols -> 1 <= rows ->
  path ∈ rasters -> Open w path = Some ds ->
  RasterXSize ds < cols \/ RasterYSize ds < rows ->
  forall out fb, exists e,
    (Summation.process_blocks w rasters t cols rows out fb).2 = Raise e.
Proof.
  intros Hcols Hrows Hin Hopen Hsmall.
  destruct (missed_window cols rows Summation.block_size _ _ ltac:(done) Hcols Hrows Hsmall)
    as (x & y & Hx & Hy & Hbad).
  unfold Summation.process_blocks.
  apply (for_M_raises _ _ y Hy). intros out fb.
  unfold mbind at 1, M_bind.
  match goal with |- context [for_M ?body ?xs out fb] =>
    destruct (for_M_raises body xs x Hx) with (s := out) (fb := fb) as [e He];
    [|destruct (for_M body xs out fb) as [fb' [o|e']]; simpl in He; [done|by exists e']]
  end.
  intros out' fb'. unfold Summation.process_block, lift, mbind, M_bind.
  rewrite Summation_block_sum_as.
  destruct (block_sum_as_raises Np.uint32 w rasters path ds x y _ _ Hin Hopen Hbad) as [e ->].
  by exists e.
Qed.

Lemma Summation_run_ok w p fb first rest ref :
  Summation.all_rasters w (Summation.INPUT_FOLDER p) = first :: rest ->
  Open w first = Some ref ->
  forallb (covers w (RasterXSize ref) (RasterYSize ref)) (first :: rest) = true ->
  exists out,
    Summation.processAlgorithm w p fb
    = (reports (summation_events p (S (List.length rest)) (RasterYSize ref)) fb, Ok out)
    /\ out_xsize out = RasterXSize ref /\ out_ysize out = RasterYSize ref
    /\ out_geo out = Some (GeoTransform ref) /\ out_proj out = Some (Projection ref)
    /\ out_type out = Summation.out_gdal_dtype (Summation.OUT_DATATYPE p)
    /\ flushed out = true
    /\ written out
       = map (tile_write (summation_pixel w (first :: rest)
                            (Summation.out_gdal_dtype (Summation.OUT_DATATYPE p))))
             (tiles (RasterXSize ref) (RasterYSize ref) Summation.block_size).
Proof.
  intros Hall Hopen Hcov. unfold Summation.processAlgorithm. rewrite Hall.
  unfold mbind at 1, M_bind, pushInfo. rewrite Hopen.
  unfold mbind at 1, M_bind. rewrite Summation_process_blocks_ok by done.
  eexists. split.
  - unfold mbind, M_bind, pushInfo, mret, M_ret.
    unfold summation_events.
    destruct (Summation.LOAD_RESULT p); simpl;
      repeat change (report ?e ?f) with (reports [e] f);
      rewrite !reports_app; simpl; rewrite ?app_nil_r, <- ?app_assoc; reflexivity.
  - match goal with |- context [write_all ?ws ?o] =>
      destruct (write_all_fields ws o) as (? & Hx & Hy & Ht & ? & Hg & Hp & ? & ?)
    end.
    simpl in *. rewrite written_write_all. done.
Qed.

Lemma Summation_run_raises w p fb first rest ref path ds :
  Summation.all_rasters w (Summation.INPUT_FOLDER p) = first :: rest ->
  Open w first = Some ref ->
  1 <= RasterXSize ref -> 1 <= RasterYSize ref ->
  path ∈ first :: rest -> Open w path = Some ds ->
  RasterXSize ds < RasterXSize ref \/ RasterYSize ds < RasterYSize ref ->
  exists e, (Summation.processAlgorithm w p fb).2 = Raise e.
Proof.
  intros Hall Hopen Hcols Hrows Hin Hds Hsmall.
  unfold Summation.processAlgorithm. rewrite Hall.
  unfold mbind at 1, M_bind, pushInfo. rewrite Hopen.
  unfold mbind at 1, M_bind.
  match goal with |- context [Summation.process_blocks ?w ?r ?t ?c ?rw ?o ?f] =>
    destruct (Summation_process_blocks_raises w r t c rw path ds Hcols Hrows Hin Hds Hsmall o f)
      as [e He];
    destruct (Summation.process_blocks w r t c rw o f) as [fb' [o'|e']]
  end; simpl in He; [done|]. by exists e'.
Qed.

(** *** Monthly frequency: one month *)

Lemma Monthly_process_blocks_ok w rasters cols rows out fb :
  forallb (covers w cols rows) rasters = true ->
  Monthly.process_blocks w rasters cols rows out fb
  = (fb, Ok (write_all (map (tile_write (monthly_pixel w rasters))
                            (tiles cols rows Monthly.block_size)) out)).
Proof.
  intros Hall. unfold Monthly.process_blocks.
  rewrite (block_loops_write _ (fun _ => []) (monthly_pixel w rasters) cols rows).
  - by rewrite concat_nil, reports_nil.
  - clear out fb. intros y Hy out fb. rewrite reports_nil.
    destruct (range_tile_bounds rows Monthly.block_size y ltac:(done) Hy).
    apply block_row_write. intros x Hx out' fb'.
    destruct (range_tile_bounds cols Monthly.block_size x ltac:(done) Hx).
    unfold Monthly.process_block, lift, mbind, M_bind.
    by rewrite (Monthly_block_sum_ok w cols rows) by (done || lia).
Qed.

Lemma Monthly_process_blocks_raises w rasters cols rows path ds :
  1 <= cols -> 1 <= rows ->
  path ∈ rasters -> Open w path = Some ds ->
  RasterXSize ds < cols \/ RasterYSize ds < rows ->
  forall out fb, exists e,
    (Monthly.process_blocks w rasters cols rows out fb).2 = Raise e.
Proof.
  intros Hcols Hrows Hin Hopen Hsmall.
  destruct (missed_window cols rows Monthly.block_size _ _ ltac:(done) Hcols Hrows Hsmall)
    as (x & y & Hx & Hy & Hbad).
  unfold Monthly.process_blocks.
  apply (for_M_raises _ _ y Hy). intros out fb.
  apply (for_M_raises _ _ x Hx). clear out fb. intros out fb.
  unfold Monthly.process_block, lift, mbind, M_bind.
  rewrite Monthly_block_sum_as.
  destruct (block_sum_as_raises Np.float32 w rasters path ds x y _ _ Hin Hopen Hbad) as [e ->].
  by exists e.
Qed.

Lemma Monthly_process_month_ok w p fb month first rest ref outputs :
  Open w first = Some ref ->
  forallb (covers w (RasterXSize ref) (RasterYSize ref)) (first :: rest) = true ->
  exists out,
    Monthly.process_month w p (month, first :: rest) outputs fb
    = (reports (monthly_events p month (S (List.length rest))) fb, Ok (outputs ++ [out]))
    /\ out_xsize out = RasterXSize ref /\ out_ysize out = RasterYSize ref
    /\ out_geo out = Some (GeoTransform ref) /\ out_proj out = Some (Projection ref)
    /\ out_type out = GDT_Float32
    /\ flushed out = true
    /\ written out
       = map (tile_write (monthly_pixel w (first :: rest)))
             (tiles (RasterXSize ref) (RasterYSize ref) Monthly.block_size).
Proof.
  intros Hopen Hcov. unfold Monthly.process_month.
  unfold mbind at 1, M_bind, pushInfo. rewrite Hopen.
  unfold mbind at 1, M_bind. rewrite Monthly_process_blocks_ok by done.
  eexists. split.
  - unfold mbind, M_bind, pushInfo, mret, M_ret, monthly_events.
    destruct (Monthly.LOAD_MAPS p); simpl;
      repeat change (report ?e ?f) with (reports [e] f);
      rewrite !reports_app; simpl; reflexivity.
  - match goal with |- context [write_all ?ws ?o] =>
      destruct (write_all_fields ws o) as (? & Hx & Hy & Ht & ? & Hg & Hp & ? & ?)
    end.
    simpl in *. rewrite written_write_all. done.
Qed.

Lemma Monthly_process_month_raises w p fb month first rest ref outputs path ds :
  Open w first = Some ref ->
  1 <= RasterXSize ref -> 1 <= RasterYSize ref ->
  path ∈ first :: rest -> Open w path = Some ds ->
  RasterXSize ds < RasterXSize ref \/ RasterYSize ds < RasterYSize ref ->
  exists e, (Monthly.process_month w p (month, first :: rest) outputs fb).2 = Raise e.
Proof.
  intros Hopen Hcols Hrows Hin Hds Hsmall.
  unfold Monthly.process_month.
  unfold mbind at 1, M_bind, pushInfo. rewrite Hopen.
  unfold mbind at 1, M_bind.
  match goal with |- context [Monthly.process_blocks ?w ?r ?c ?rw ?o ?f] =>
    destruct (Monthly_process_blocks_raises w r c rw path ds Hcols Hrows Hin Hds Hsmall o f)
      as [e He];
    destruct (Monthly.process_blocks w r c rw o f) as [fb' [o'|e']]
  end; simpl in He; [done|]. by exists e'.
Qed.

(** *** The season-year map *)

Lemma add_raster_bucket name months first r mp mp' :
  Seasonal.add_raster name months first r mp = Ok mp' ->
  forall sy n,
    default [] (mp' !! (sy, n))
    = default [] (mp !! (sy, n))
      ++ (if bool_decide (n = name) && in_season months first sy r then [r] else []).
Proof.
  destruct r as [[y m] f]. unfold Seasonal.add_raster, Seasonal.int, in_season. simpl.
  destruct (Py.int m) as [m_int|]; [|done]. simpl.
  destruct (bool_decide (m ∈ months)); simpl.
  - intros [= <-] sy n. unfold season_year_of.
    set (sy1 := if first <=? m_int then y else y - 1).
    destruct (decide ((sy1, name) = (sy, n))) as [[= <- <-]|Hne].
    + rewrite lookup_insert_eq. simpl. rewrite bool_decide_eq_true_2 by done.
      by rewrite Z.eqb_refl.
    + rewrite lookup_insert_ne by done.
      destruct (bool_decide_reflect (n = name)) as [->|]; simpl; [|by rewrite app_nil_r].
      destruct (Z.eqb_spec sy1 sy) as [->|]; [done|].
      by rewrite app_nil_r.
  - intros [= <-] sy n. rewrite andb_false_r. by rewrite app_nil_r.
Qed.

Lemma add_rasters_bucket name months first rs mp mp' :
  for_res (Seasonal.add_raster name months first) rs mp = Ok mp' ->
  forall sy n,
    default [] (mp' !! (sy, n))
    = default [] (mp !! (sy, n))
      ++ (if bool_decide (n = name) then List.filter (in_season months first sy) rs else []).
Proof.
  revert mp. induction rs as [|r rs IH]; intros mp Hrun sy n.
  - injection Hrun as <-. simpl. destruct (bool_decide _); by rewrite app_nil_r.
  - cbn [for_res] in Hrun.
    destruct (Seasonal.add_raster name months first r mp) as [mp1|] eqn:Hstep; [|done].
    simpl in Hrun. rewrite (IH _ Hrun), (add_raster_bucket _ _ _ _ _ _ Hstep).
    rewrite <- app_assoc. f_equal. simpl.
    destruct (bool_decide (n = name)); simpl; [|done].
    by destruct (in_season months first sy r).
Qed.

Lemma add_season_bucket rasters name months mp mp' :
  Seasonal.add_season rasters (name, months) mp = Ok mp' ->
  exists first, first_month_of months = Some first /\
    forall sy n,
      default [] (mp' !! (sy, n))
      = default [] (mp !! (sy, n))
        ++ (if bool_decide (n = name)
            then List.filter (in_season months first sy) rasters else []).
Proof.
  unfold Seasonal.add_season, first_month_of, Seasonal.int.
  destruct months as [|m0 months]; [done|]. simpl.
  destruct (Py.int m0) as [first|]; [|done]. simpl.
  intros Hrun. exists first. split; [done|]. by apply add_rasters_bucket.
Qed.

Lemma seasons_other_bucket rasters seasons mp mp' sy name :
  for_res (Seasonal.add_season rasters) seasons mp = Ok mp' ->
  name ∉ seasons.*1 ->
  default [] (mp' !! (sy, name)) = default [] (mp !! (sy, name)).
Proof.
  revert mp. induction seasons as [|[n months] seasons IH]; intros mp Hrun Hnot.
  - by injection Hrun as <-.
  - cbn [for_res] in Hrun.
    destruct (Seasonal.add_season rasters (n, months) mp) as [mp1|] eqn:Hstep; [|done].
    simpl in Hrun. apply not_elem_of_cons in Hnot as [Hne Hnot].
    rewrite (IH _ Hrun Hnot).
    destruct (add_season_bucket _ _ _ _ _ Hstep) as (first & _ & ->).
    rewrite bool_decide_eq_false_2 by done. by rewrite app_nil_r.
Qed.

Lemma seasons_bucket rasters seasons mp mp' name months :
  for_res (Seasonal.add_season rasters) seasons mp = Ok mp' ->
  NoDup seasons.*1 -> (name, months) ∈ seasons ->
  exists first, first_month_of months = Some first /\
    forall sy, default [] (mp' !! (sy, name))
               = default [] (mp !! (sy, name))
                 ++ List.filter (in_season months first sy) rasters.
Proof.
  revert mp. induction seasons as [|[n ms] seasons IH]; intros mp Hrun Hnd Hin.
  - by apply elem_of_nil in Hin.
  - cbn [for_res] in Hrun.
    destruct (Seasonal.add_season rasters (n, ms) mp) as [mp1|] eqn:Hstep; [|done].
    simpl in Hrun. apply NoDup_cons in Hnd as [Hfresh Hnd].
    apply elem_of_cons in Hin as [[= <- <-]|Hin].
    + destruct (add_season_bucket _ _ _ _ _ Hstep) as (first & Hfirst & Hb).
      exists first. split; [done|]. intros sy.
      rewrite (seasons_other_bucket _ _ _ _ sy name Hrun Hfresh), Hb.
      by rewrite bool_decide_eq_true_2.
    + destruct (IH _ Hrun Hnd Hin) as (first & Hfirst & Hb).
      exists first. split; [done|]. intros sy. rewrite Hb.
      destruct (add_season_bucket _ _ _ _ _ Hstep) as (first' & _ & ->).
      rewrite bool_decide_eq_false_2; [by rewrite app_nil_r|].
      intros ->. apply Hfresh. apply list_elem_of_fmap. by exists (n, months).
Qed.

(** The buckets of the season-year map, in closed form. *)
Lemma season_raster_map_bucket seasons rasters mp name months :
  Seasonal.build_season_raster_map seasons rasters = Ok mp ->
  NoDup seasons.*1 -> (name, months) ∈ seasons ->
  exists first, first_month_of months = Some first /\
    forall sy, default [] (mp !! (sy, name))
               = List.filter (in_season months first sy) rasters.
Proof.
  intros Hrun Hnd Hin.
  destruct (seasons_bucket _ _ _ _ _ _ Hrun Hnd Hin) as (first & Hfirst & Hb).
  exists first. split; [done|]. intros sy. by rewrite Hb, lookup_empty.
Qed.

(** No bucket of the map is an empty list. *)
Lemma season_raster_map_nonempty seasons rasters mp key :
  Seasonal.build_season_raster_map seasons rasters = Ok mp -> mp !! key <> Some [].
Proof.
  unfold Seasonal.build_season_raster_map.
  assert (Hinit : forall key, (∅ : gmap (Z * string) (list (Z * string * string))) !! key <> Some [])
    by (intros k; by rewrite lookup_empty).
  revert Hinit. generalize (∅ : gmap (Z * string) (list (Z * string * string))) as mp0.
  intros mp0 Hinit Hrun. revert mp0 Hinit Hrun key.
  induction seasons as [|[n ms] seasons IH]; intros mp0 Hinit Hrun key.
  - injection Hrun as <-. apply Hinit.
  - cbn [for_res] in Hrun.
    destruct (Seasonal.add_season rasters (n, ms) mp0) as [mp1|] eqn:Hstep; [|done].
    simpl in Hrun. apply (IH mp1); [|done]. clear IH Hrun key.
    unfold Seasonal.add_season in Hstep.
    destruct (match ms with [] => Raise IndexError | m0 :: _ => Seasonal.int m0 end)
      as [first|]; [|done].
    simpl in Hstep. revert mp0 Hinit Hstep.
    induction rasters as [|r rs IHr]; intros mp0 Hinit Hstep key.
    + injection Hstep as <-. apply Hinit.
    + cbn [for_res] in Hstep.
      destruct (Seasonal.add_raster n ms first r mp0) as [mp2|] eqn:Hadd; [|done].
      simpl in Hstep. apply (IHr mp2); [|done]. clear IHr Hstep key.
      destruct r as [[y m] f]. unfold Seasonal.add_raster in Hadd.
      destruct (Seasonal.int m) as [mi|]; [|done]. simpl in Hadd.
      destruct (bool_decide (m ∈ ms)).
      * injection Hadd as <-. intros key.
        destruct (decide ((if first <=? mi then y else y - 1, n) = key)) as [<-|Hne].
        -- rewrite lookup_insert_eq. intros [= H]. by apply app_nil in H as [_ H].
        -- rewrite lookup_insert_ne by done. apply Hinit.
      * injection Hadd as <-. apply Hinit.
Qed.

(** With numeric months the map is built: no [int] call fails. *)
Lemma add_rasters_ok name months first rs mp :
  forallb observation_ok rs = true ->
  exists mp', for_res (Seasonal.add_raster name months first) rs mp = Ok mp'.
Proof.
  revert mp. induction rs as [|[[y m] f] rs IH]; intros mp Hall; [by eexists|].
  simpl in Hall. apply andb_true_iff in Hall as [Hr Hall].
  unfold observation_ok, numeric in Hr. simpl in Hr.
  cbn [for_res]. unfold Seasonal.add_raster, Seasonal.int.
  destruct (Py.int m) as [m_int|]; [|done]. simpl.
  destruct (bool_decide (m ∈ months)); simpl; by apply IH.
Qed.

Lemma build_season_raster_map_ok seasons rasters :
  forallb season_ok seasons = true -> forallb observation_ok rasters = true ->
  exists mp, Seasonal.build_season_raster_map seasons rasters = Ok mp.
Proof.
  intros Hseasons Hrasters. unfold Seasonal.build_season_raster_map.
  generalize (∅ : gmap (Z * string) (list (Z * string * string))) as mp.
  induction seasons as [|[name months] seasons IH]; intros mp; [by eexists|].
  simpl in Hseasons. apply andb_true_iff in Hseasons as [Hs Hseasons].
  cbn [for_res]. unfold Seasonal.add_season, Seasonal.int.
  unfold season_ok, numeric in Hs. simpl in Hs.
  destruct months as [|m0 months]; [done|].
  destruct (Py.int m0) as [first|]; [|done]. simpl.
  destruct (add_rasters_ok name (m0 :: months) first rasters mp Hrasters) as [mp1 ->].
  simpl. by apply IH.
Qed.

(** *** The dictionary of seasons has one entry per name *)

Lemma dict_set_keys k v (d : list (string * list string)) :
  (Seasonal.dict_set k v d).*1 = if bool_decide (k ∈ d.*1) then d.*1 else d.*1 ++ [k].
Proof.
  induction d as [|[k' v'] d IH]; [done|]. cbn [Seasonal.dict_set].
  destruct (String.eqb_spec k' k) as [->|Hne].
  - csimpl. rewrite bool_decide_eq_true_2; [done|]. apply list_elem_of_here.
  - csimpl. rewrite IH. destruct (bool_decide_reflect (k ∈ d.*1)) as [Hin|Hnin].
    + rewrite bool_decide_eq_true_2; [done|]. by apply list_elem_of_further.
    + rewrite bool_decide_eq_false_2; [done|].
      intros [->|?]%elem_of_cons; done.
Qed.

Lemma dict_set_NoDup k v (d : list (string * list string)) :
  NoDup d.*1 -> NoDup (Seasonal.dict_set k v d).*1.
Proof.
  intros Hnd. rewrite dict_set_keys. destruct (bool_decide_reflect (k ∈ d.*1)); [done|].
  apply NoDup_app. split; [done|]. split; [|apply NoDup_singleton].
  intros x Hx ->%list_elem_of_singleton. done.
Qed.

Lemma read_seasons_NoDup cells (d d' : list (string * list string)) :
  Seasonal.read_seasons cells d = Ok d' -> NoDup d.*1 -> NoDup d'.*1.
Proof.
  revert d. induction cells as [cells IH] using (induction_ltof1 _ List.length).
  intros d. destruct cells as [|name [|months rest]]; simpl.
  - by intros [= <-].
  - done.
  - assert (Hlt : ltof _ List.length rest (name :: months :: rest))
      by (unfold ltof; simpl; lia).
    destruct (String.eqb name "" || String.eqb months ""); intros Hrun Hnd.
    + by apply (IH rest Hlt d).
    + apply (IH rest Hlt _ Hrun). by apply dict_set_NoDup.
Qed.

(** *** Gap filling *)

Lemma fill_months_from sy months mf (a : list (option string))
    (b : list (string * option Z * Z)) :
  fold_left
    (fun '(final_files, month_year_list) m =>
       match Seasonal.first_of_month m mf with
       | Some (y, f) =>
           (final_files ++ [Some f], month_year_list ++ [(m, Some y, sy)])
       | None => (final_files ++ [None], month_year_list ++ [(m, None, sy)])
       end) months (a, b)
  = (a ++ map (fun m => snd <$> Seasonal.first_of_month m mf) months,
     b ++ map (fun m => (m, fst <$> Seasonal.first_of_month m mf, sy)) months).
Proof.
  revert a b. induction months as [|m months IH]; intros a b.
  - simpl. by rewrite !app_nil_r.
  - simpl. destruct (Seasonal.first_of_month m mf) as [[y f]|]; rewrite IH; simpl;
      by rewrite <- !app_assoc.
Qed.

Lemma fill_months_spec sy months mf :
  Seasonal.fill_months sy months mf
  = (map (fun m => snd <$> Seasonal.first_of_month m mf) months,
     map (fun m => (m, fst <$> Seasonal.first_of_month m mf, sy)) months).
Proof. unfold Seasonal.fill_months. by rewrite fill_months_from. Qed.

Lemma find_filter {A} (P Q : A -> bool) (l : list A) :
  find P (List.filter Q l) = find (fun a => Q a && P a) l.
Proof.
  induction l as [|a l IH]; [done|]. simpl. destruct (Q a); simpl; [|done].
  by rewrite IH.
Qed.

(** *** Missing months add nothing *)

Lemma float32_add_zero v : is_float32 v -> Np.add Np.float32 v 0 = v.
Proof. unfold is_float32, Np.add. intros H. by rewrite Z.add_0_r. Qed.

Lemma float32_add a b : is_float32 (Np.add Np.float32 a b).
Proof. unfold is_float32, Np.add, Np.astype. apply round_float_idempotent. lia. Qed.

Lemma zeros_float32 ysize xsize : Forall (Forall is_float32) (Np.zeros ysize xsize).
Proof.
  unfold Np.zeros. apply Forall_replicate, Forall_replicate. reflexivity.
Qed.

Lemma zip_with_Forall {A B C} (P : C -> Prop) (h : A -> B -> C) (l : list A) (k : list B) :
  (forall a b, P (h a b)) -> Forall P (zip_with h l k).
Proof.
  intros H. revert k. induction l as [|a l IH]; intros [|b k]; simpl; constructor; auto.
Qed.

Lemma block_add_float32 a b : Forall (Forall is_float32) (Np.block_add Np.float32 a b).
Proof.
  unfold Np.block_add. apply zip_with_Forall. intros r1 r2.
  apply zip_with_Forall. intros. apply float32_add.
Qed.

Lemma block_add_zero bs :
  Forall (Forall is_float32) bs ->
  Np.block_map (fun v => Np.add Np.float32 v 0) bs = bs.
Proof.
  intros H. unfold Np.block_map. induction H as [|row bs Hrow _ IH]; [done|].
  cbn [map]. f_equal; [|exact IH].
  induction Hrow as [|v row Hv _ IHr]; [done|]. cbn [map]. f_equal; [|exact IHr].
  by apply float32_add_zero.
Qed.

Lemma Seasonal_add_slot_float32 w x y xsize ysize slot bs bs' :
  Forall (Forall is_float32) bs ->
  Seasonal.add_slot w x y xsize ysize slot bs = Ok bs' ->
  Forall (Forall is_float32) bs'.
Proof.
  intros Hbs. unfold Seasonal.add_slot. destruct (Seasonal.truthy slot).
  - destruct (slot ≫= Open w) as [ds|]; [|done].
    destruct (ReadAsArray ds x y xsize ysize); [|done].
    intros [= <-]. apply block_add_float32.
  - intros [= <-]. by rewrite block_add_zero.
Qed.

Lemma Seasonal_add_slot_missing w x y xsize ysize slot bs :
  Seasonal.truthy slot = false -> Forall (Forall is_float32) bs ->
  Seasonal.add_slot w x y xsize ysize slot bs = Ok bs.
Proof.
  intros Ht Hbs. unfold Seasonal.add_slot. rewrite Ht. by rewrite block_add_zero.
Qed.

Lemma Seasonal_skip_missing w x y xsize ysize final_files bs :
  Forall (Forall is_float32) bs ->
  for_res (Seasonal.add_slot w x y xsize ysize) final_files bs
  = for_res (Seasonal.add_slot w x y xsize ysize)
            (List.filter Seasonal.truthy final_files) bs.
Proof.
  revert bs. induction final_files as [|slot ff IH]; intros bs Hbs; [done|].
  cbn [List.filter]. destruct (Seasonal.truthy slot) eqn:Ht; cbn [for_res].
  - destruct (Seasonal.add_slot w x y xsize ysize slot bs) as [bs'|e] eqn:Hstep; [|done].
    simpl. apply IH. by eapply Seasonal_add_slot_float32.
  - rewrite Seasonal_add_slot_missing by done. simpl. by apply IH.
Qed.

(** *** Seasonal frequency: the block loops *)

Lemma Seasonal_block_sum_as w final_files x y xsize ysize :
  Seasonal.block_sum w final_files x y xsize ysize
  = for_res (add_slot_as Np.float32 w x y xsize ysize) (map present final_files)
            (Np.zeros ysize xsize).
Proof.
  unfold Seasonal.block_sum. rewrite for_res_map. apply for_res_ext.
  intros. apply Seasonal_add_slot_as.
Qed.

Lemma Seasonal_block_sum_ok w cols rows x y xsize ysize final_files :
  forallb (covers_slot w cols rows) (map present final_files) = true ->
  0 <= x -> 0 <= y -> x + xsize <= cols -> y + ysize <= rows ->
  Seasonal.block_sum w final_files x y xsize ysize
  = Ok (block_of xsize ysize
          (fun i j => seasonal_pixel w final_files (x + i) (y + j))).
Proof.
  intros. rewrite Seasonal_block_sum_as, zeros_block_of.
  by apply (add_slots_as_ok _ w cols rows).
Qed.

Lemma Seasonal_process_blocks_ok w final_files cols rows out fb :
  forallb (covers_slot w cols rows) (map present final_files) = true ->
  Seasonal.process_blocks w final_files cols rows out fb
  = (fb, Ok (write_all (map (tile_write (seasonal_pixel w final_files))
                            (tiles cols rows Seasonal.block_size)) out)).
Proof.
  intros Hall. unfold Seasonal.process_blocks.
  rewrite (block_loops_write _ (fun _ => []) (seasonal_pixel w final_files) cols rows).
  - by rewrite concat_nil, reports_nil.
  - clear out fb. intros y Hy out fb. rewrite reports_nil.
    destruct (range_tile_bounds rows Seasonal.block_size y ltac:(done) Hy).
    apply block_row_write. intros x Hx out' fb'.
    destruct (range_tile_bounds cols Seasonal.block_size x ltac:(done) Hx).
    unfold Seasonal.process_block, lift, mbind, M_bind.
    by rewrite (Seasonal_block_sum_ok w cols rows) by (done || lia).
Qed.

(** *** Monthly frequency: every classified file is kept *)

Lemma classify_keeps root fname (m : gmap string (list string)) fb :
  exists fb' m',
    Monthly.classify root fname m fb = (fb', Ok m')
    /\ (forall mm path, path ∈ default [] (m !! mm) -> path ∈ default [] (m' !! mm))
    /\ (forall mm, Py.endswith (Py.lower fname) ".tif" = true ->
                   Monthly.month_of fname = Some mm ->
                   Py.path_join root fname ∈ default [] (m' !! mm)).
Proof.
  unfold Monthly.classify. destruct (Py.endswith (Py.lower fname) ".tif").
  - destruct (Monthly.month_of fname) as [month|].
    + eexists _, _. split; [reflexivity|]. split.
      * intros mm path Hin. destruct (decide (month = mm)) as [->|Hne].
        -- rewrite lookup_insert_eq. simpl. apply elem_of_app. by left.
        -- by rewrite lookup_insert_ne.
      * intros mm _ [= ->]. rewrite lookup_insert_eq. simpl.
        apply elem_of_app. right. apply list_elem_of_here.
    + eexists _, _. split; [reflexivity|]. split; [done|]. done.
  - eexists _, _. split; [reflexivity|]. split; done.
Qed.

Lemma classify_all_keeps root files (m : gmap string (list string)) fb :
  exists fb' m',
    for_M (Monthly.classify root) files m fb = (fb', Ok m')
    /\ (forall mm path, path ∈ default [] (m !! mm) -> path ∈ default [] (m' !! mm))
    /\ (forall fname mm, fname ∈ files ->
                   Py.endswith (Py.lower fname) ".tif" = true ->
                   Monthly.month_of fname = Some mm ->
                   Py.path_join root fname ∈ default [] (m' !! mm)).
Proof.
  revert m fb. induction files as [|fname files IH]; intros m fb.
  - exists fb, m. split; [done|]. split; [done|]. intros ? ? []%elem_of_nil.
  - destruct (classify_keeps root fname m fb) as (fb1 & m1 & Hstep & Hold1 & Hnew1).
    destruct (IH m1 fb1) as (fb2 & m2 & Hrest & Hold2 & Hnew2).
    exists fb2, m2. split; [|split].
    + cbn [for_M]. unfold mbind, M_bind. by rewrite Hstep.
    + intros mm path Hin. by apply Hold2, Hold1.
    + intros f mm [->|Hin]%elem_of_cons Hext Hmonth.
      * by apply Hold2, Hnew1.
      * by apply Hnew2.
Qed.

(** *** The accumulator of the flat summation is a [uint32] *)

Lemma uint32_add a b : is_uint32 (Np.add Np.uint32 a b).
Proof. unfold is_uint32, Np.add, Np.astype, Np.wrap_unsigned. apply Z.mod_pos_bound. lia. Qed.

Lemma zeros_uint32 ysize xsize : Forall (Forall is_uint32) (Np.zeros ysize xsize).
Proof.
  unfold Np.zeros. apply Forall_replicate, Forall_replicate. unfold is_uint32. lia.
Qed.

Lemma block_add_uint32 a b : Forall (Forall is_uint32) (Np.block_add Np.uint32 a b).
Proof.
  unfold Np.block_add. apply zip_with_Forall. intros r1 r2.
  apply zip_with_Forall. intros. apply uint32_add.
Qed.

Lemma Summation_add_raster_uint32 w x y xsize ysize path bs :
  match Summation.add_raster w x y xsize ysize path bs with
  | Ok bs' => Forall (Forall is_uint32) bs'
  | Raise _ => True
  end.
Proof.
  unfold Summation.add_raster.
  destruct (Summation.read_data w path x y xsize ysize) as [data|]; [|done].
  apply block_add_uint32.
Qed.

Lemma Summation_block_sum_uint32 w rasters x y xsize ysize :
  match Summation.block_sum w rasters x y xsize ysize with
  | Ok bs => Forall (Forall is_uint32) bs
  | Raise _ => True
  end.
Proof.
  unfold Summation.block_sum.
  generalize (zeros_uint32 ysize xsize). generalize (Np.zeros ysize xsize) as bs.
  induction rasters as [|r rasters IH]; intros bs Hbs; [done|].
  cbn [for_res]. pose proof (Summation_add_raster_uint32 w x y xsize ysize r bs) as Hstep.
  destruct (Summation.add_raster w x y xsize ysize r bs) as [bs'|]; [|done].
  simpl. by apply IH.
Qed.

(** *** Nodata *)

Lemma contribution_float32_nodata ds px py nd :
  NoDataValue ds = Some nd -> pixel ds px py = nd ->
  contribution Np.float32 ds px py = 0.
Proof.
  intros Hnd Hpx. unfold contribution. rewrite Hnd, Hpx. simpl.
  by rewrite Z.eqb_refl.
Qed.

Lemma contribution_uint32_nodata ds px py nd :
  NoDataValue ds = Some nd -> pixel ds px py = nd -> 0 <= nd < 2 ^ 32 ->
  contribution Np.uint32 ds px py = 0.
Proof.
  intros Hnd Hpx Hrange. unfold contribution. rewrite Hnd, Hpx. simpl.
  unfold Np.wrap_unsigned. rewrite Z.mod_small by done. by rewrite Z.eqb_refl.
Qed.

Lemma contribution_uint32_negative_nodata ds px py nd :
  NoDataValue ds = Some nd -> pixel ds px py = nd -> - 2 ^ 32 < nd < 0 ->
  contribution Np.uint32 ds px py = nd + 2 ^ 32.
Proof.
  intros Hnd Hpx Hrange. unfold contribution. rewrite Hnd, Hpx. simpl.
  unfold Np.wrap_unsigned.
  assert (Hmod : nd mod 2 ^ 32 = nd + 2 ^ 32).
  { symmetry. apply Z.mod_unique with (q := -1); lia. }
  rewrite Hmod. destruct (Z.eqb_spec (nd + 2 ^ 32) nd); [lia|done].
Qed.

(** *** The observations of a seasonal run have numeric months *)

Lemma two_digits_numeric (m1 m2 : ascii) :
  Py.is_digit m1 = true -> Py.is_digit m2 = true ->
  numeric (String m1 (String m2 EmptyString)) = true.
Proof.
  intros H1 H2. unfold numeric, Py.int.
  assert (Hd : Py.int_digits 0 false (String m1 (String m2 EmptyString))
               = Some (10 * (10 * 0 + Py.digit_value m1) + Py.digit_value m2))
    by (simpl; by rewrite H1, H2).
  destruct m1 as [[] [] [] [] [] [] [] []]; try discriminate H1; by rewrite Hd.
Qed.

Lemma match_date_numeric s y m : Re.match_date s = Some (y, m) -> numeric m = true.
Proof.
  do 10 (destruct s as [|? s]; [done|]). unfold Re.match_date.
  match goal with |- context [if ?b then _ else _] => destruct b eqn:Hb end; [|done].
  intros [= _ <-]. repeat (apply andb_true_iff in Hb as [Hb ?]).
  by apply two_digits_numeric.
Qed.

Lemma search_date_numeric s y m : Re.search_date s = Some (y, m) -> numeric m = true.
Proof.
  induction s as [|c s IH]; [done|]. cbn [Re.search_date].
  destruct (Re.match_date (String c s)) as [[y0 m0]|] eqn:Hm.
  - intros [= <- <-]. by eapply match_date_numeric.
  - apply IH.
Qed.

Lemma forallb_snoc {A} (f : A -> bool) (l : list A) (a : A) :
  forallb f (l ++ [a]) = forallb f l && f a.
Proof. rewrite forallb_app. simpl. by rewrite andb_true_r. Qed.

Lemma collect_ok root fname rasters fb :
  exists fb' rasters',
    Seasonal.collect root fname rasters fb = (fb', Ok rasters')
    /\ (forallb observation_ok rasters = true -> forallb observation_ok rasters' = true).
Proof.
  unfold Seasonal.collect. destruct (negb _); [by eexists _, _|].
  unfold Seasonal.extract_year_month.
  destruct (Re.search_date fname) as [[ys m]|] eqn:Hs; [|by eexists _, _].
  destruct (Py.int ys) as [year|]; simpl; [|by eexists _, _].
  destruct ((year =? 0) || String.eqb m ""); [by eexists _, _|].
  eexists _, _. split; [reflexivity|]. intros Hall.
  rewrite forallb_snoc, Hall. simpl. unfold observation_ok. simpl.
  by eapply search_date_numeric.
Qed.

Lemma collect_all_ok root files rasters fb :
  exists fb' rasters',
    for_M (Seasonal.collect root) files rasters fb = (fb', Ok rasters')
    /\ (forallb observation_ok rasters = true -> forallb observation_ok rasters' = true).
Proof.
  revert rasters fb. induction files as [|fname files IH]; intros rasters fb.
  - by eexists _, _.
  - destruct (collect_ok root fname rasters fb) as (fb1 & rs1 & Hstep & H1).
    destruct (IH rs1 fb1) as (fb2 & rs2 & Hrest & H2).
    exists fb2, rs2. split; [|auto].
    cbn [for_M]. unfold mbind, M_bind. by rewrite Hstep.
Qed.

Lemma Seasonal_scan_ok w input_folder fb :
  exists fb' rasters,
    Seasonal.scan w input_folder fb = (fb', Ok rasters)
    /\ forallb observation_ok rasters = true.
Proof.
  unfold Seasonal.scan.
  assert (Hinit : forallb observation_ok [] = true) by done.
  revert Hinit. generalize (@nil (Z * string * string)) as rasters. revert fb.
  induction (walk w input_folder) as [|[root files] dirs IH]; intros fb rasters Hinit.
  - by eexists _, _.
  - destruct (collect_all_ok root files rasters fb) as (fb1 & rs1 & Hstep & H1).
    destruct (IH fb1 rs1 (H1 Hinit)) as (fb2 & rs2 & Hrest & H2).
    exists fb2, rs2. split; [|done].
    cbn [for_M]. unfold mbind, M_bind. by rewrite Hstep.
Qed.

Lemma insert_sorted_Permutation {A} (le : A -> A -> bool) (x : A) (l : list A) :
  insert_sorted le x l ≡ₚ x :: l.
Proof.
  induction l as [|y l IH]; [done|]. simpl. destruct (le x y); [done|].
  rewrite IH. apply Permutation_swap.
Qed.

Lemma sorted_Permutation {A} (le : A -> A -> bool) (l : list A) : sorted le l ≡ₚ l.
Proof.
  induction l as [|x l IH]; [done|]. unfold sorted in *. simpl.
  by rewrite insert_sorted_Permutation, IH.
Qed.

Lemma res_bind_Ok {A B} (a : A) (k : A -> res B) : (Ok a ≫= k) = k a.
Proof. reflexivity. Qed.

(** Sorting numeric observations succeeds and keeps them all. *)
Lemma sort_rasters_ok rasters :
  forallb observation_ok rasters = true ->
  exists rasters', Seasonal.sort_rasters rasters = Ok rasters' /\ rasters' ≡ₚ rasters.
Proof.
  intros Hall. unfold Seasonal.sort_rasters.
  assert (exists keyed, mapM Seasonal.sort_key rasters = Ok keyed
                   /\ map snd keyed = rasters) as (keyed & Hrun & Hk).
  { induction rasters as [|[[y m] f] rasters IH]; [by exists []|].
    simpl in Hall. apply andb_true_iff in Hall as [Hr Hall].
    destruct (IH Hall) as (keyed & Hrun & Hk).
    unfold observation_ok, numeric in Hr. simpl in Hr.
    destruct (Py.int m) as [m_int|] eqn:Hint; [|done].
    assert (Hkey : Seasonal.sort_key (y, m, f) = Ok (y, m_int, (y, m, f)))
      by (unfold Seasonal.sort_key, Seasonal.int; by rewrite Hint).
    exists ((y, m_int, (y, m, f)) :: keyed). split; [|by rewrite <- Hk].
    cbn [mapM]. rewrite Hkey, res_bind_Ok, Hrun. reflexivity. }
  exists (map snd (sorted Seasonal.key_le keyed)). rewrite Hrun. split; [done|].
  rewrite <- Hk. apply Permutation_map, sorted_Permutation.
Qed.

(** *** Seasonal frequency: one season-year *)

Lemma M_bind_lift_Ok {A B} (a : A) (k : A -> M B) (fb : Feedback) :
  (lift (Ok a) ≫= k) fb = k a fb.
Proof. reflexivity. Qed.

Lemma M_bind_pushInfo {B} (t : text) (k : unit -> M B) (fb : Feedback) :
  (pushInfo t ≫= k) fb = k tt (report (PushInfo t) fb).
Proof. reflexivity. Qed.

Lemma forallb_present_paths w cols rows final_files :
  forallb (covers_slot w cols rows) (map present final_files)
  = forallb (covers w cols rows) (present_paths final_files).
Proof.
  unfold present_paths. induction final_files as [|slot ff IH]; [done|].
  csimpl. destruct (present slot); simpl; by rewrite IH.
Qed.

Lemma elem_of_present_paths path final_files :
  path ∈ present_paths final_files <-> Some path ∈ map present final_files.
Proof.
  unfold present_paths. induction final_files as [|slot ff IH]; [by rewrite !elem_of_nil|].
  csimpl. rewrite elem_of_cons, <- IH.
  destruct (present slot) as [q|]; [rewrite elem_of_cons|].
  - split; [intros [->|?]; [by left|by right]|intros [[= ->]|?]; [by left|by right]].
  - split; [by right|]. by intros [?|?].
Qed.

Lemma Seasonal_process_blocks_raises w final_files cols rows path ds :
  1 <= cols -> 1 <= rows ->
  path ∈ present_paths final_files -> Open w path = Some ds ->
  RasterXSize ds < cols \/ RasterYSize ds < rows ->
  forall out fb, exists e,
    (Seasonal.process_blocks w final_files cols rows out fb).2 = Raise e.
Proof.
  intros Hcols Hrows Hin Hopen Hsmall.
  destruct (missed_window cols rows Seasonal.block_size _ _ ltac:(done) Hcols Hrows Hsmall)
    as (x & y & Hx & Hy & Hbad).
  unfold Seasonal.process_blocks.
  apply (for_M_raises _ _ y Hy). intros out fb.
  apply (for_M_raises _ _ x Hx). clear out fb. intros out fb.
  unfold Seasonal.process_block, lift, mbind, M_bind.
  rewrite Seasonal_block_sum_as.
  destruct (for_res_raises
              (add_slot_as Np.float32 w x y (Z.min Seasonal.block_size (cols - x))
                 (Z.min Seasonal.block_size (rows - y)))
              (map present final_files) (Some path)
              (proj1 (elem_of_present_paths _ _) Hin)
              (add_slot_as_raises Np.float32 w ds path x y _ _ Hopen Hbad)
              (Np.zeros (Z.min Seasonal.block_size (rows - y))
                        (Z.min Seasonal.block_size (cols - x)))) as [e ->].
  by exists e.
Qed.

Lemma Seasonal_first_available w final_files previous first ref :
  find Seasonal.truthy final_files = Some (Some first) -> Open w first = Some ref ->
  Seasonal.first_available w final_files previous
  = Ok (Some (GeoTransform ref, Projection ref, RasterXSize ref, RasterYSize ref)).
Proof. intros Hfind Hopen. unfold Seasonal.first_available. rewrite Hfind. simpl. by rewrite Hopen. Qed.

Lemma find_present_paths final_files first :
  find Seasonal.truthy final_files = Some (Some first) ->
  exists rest, present_paths final_files = first :: rest.
Proof.
  unfold present_paths. induction final_files as [|slot ff IH]; [done|]. csimpl.
  unfold present at 1. destruct (Seasonal.truthy slot) eqn:Ht.
  - intros [= ->]. by eexists.
  - intros Hfind. by apply IH.
Qed.

Lemma Seasonal_process_season_ok w p seasons fb sy name months r rs first ref previous results :
  Seasonal.dict_get name seasons = Ok months ->
  find Seasonal.truthy (Seasonal.fill_months sy months (r :: rs)).1 = Some (Some first) ->
  Open w first = Some ref ->
  forallb (covers w (RasterXSize ref) (RasterYSize ref))
          (present_paths (Seasonal.fill_months sy months (r :: rs)).1) = true ->
  exists meta out,
    Seasonal.process_season w p seasons (sy, name, r :: rs) (previous, results) fb
    = (reports (seasonal_events p name sy months (r :: rs)) fb, Ok (meta, results ++ [out]))
    /\ out_xsize out = RasterXSize ref /\ out_ysize out = RasterYSize ref
    /\ out_geo out = Some (GeoTransform ref) /\ out_proj out = Some (Projection ref)
    /\ out_type out = GDT_Float32
    /\ flushed out = true
    /\ written out
       = map (tile_write (seasonal_pixel w (Seasonal.fill_months sy months (r :: rs)).1))
             (tiles (RasterXSize ref) (RasterYSize ref) Seasonal.block_size).
Proof.
  intros Hget Hfind Hopen Hcov. unfold Seasonal.process_season.
  rewrite Hget, M_bind_lift_Ok. unfold seasonal_events.
  destruct (Seasonal.fill_months sy months (r :: rs)) as [final_files month_year_list].
  simpl in Hfind, Hcov |- *.
  rewrite !M_bind_pushInfo.
  rewrite (Seasonal_first_available w final_files previous first ref Hfind Hopen).
  rewrite M_bind_lift_Ok.
  unfold mbind at 1, M_bind at 1.
  rewrite Seasonal_process_blocks_ok by (by rewrite forallb_present_paths).
  eexists _, _. split.
  - unfold mbind, M_bind, pushInfo, mret, M_ret.
    destruct (Seasonal.LOAD_MAPS p); simpl;
      repeat change (report ?e ?f) with (reports [e] f);
      rewrite !reports_app; simpl; reflexivity.
  - match goal with |- context [write_all ?ws ?o] =>
      destruct (write_all_fields ws o) as (? & Hx & Hy & Ht & ? & Hg & Hp & ? & ?)
    end.
    simpl in *. rewrite written_write_all. done.
Qed.

Lemma Seasonal_process_season_raises w p seasons fb sy name months r rs first ref
    previous results path ds :
  Seasonal.dict_get name seasons = Ok months ->
  find Seasonal.truthy (Seasonal.fill_months sy months (r :: rs)).1 = Some (Some first) ->
  Open w first = Some ref ->
  1 <= RasterXSize ref -> 1 <= RasterYSize ref ->
  path ∈ present_paths (Seasonal.fill_months sy months (r :: rs)).1 ->
  Open w path = Some ds ->
  RasterXSize ds < RasterXSize ref \/ RasterYSize ds < RasterYSize ref ->
  exists e,
    (Seasonal.process_season w p seasons (sy, name, r :: rs) (previous, results) fb).2
    = Raise e.
Proof.
  intros Hget Hfind Hopen Hcols Hrows Hin Hds Hsmall. unfold Seasonal.process_season.
  rewrite Hget, M_bind_lift_Ok.
  destruct (Seasonal.fill_months sy months (r :: rs)) as [final_files month_year_list].
  simpl in Hfind, Hin |- *.
  rewrite !M_bind_pushInfo.
  rewrite (Seasonal_first_available w final_files previous first ref Hfind Hopen).
  rewrite M_bind_lift_Ok.
  unfold mbind at 1, M_bind at 1.
  match goal with |- context [Seasonal.process_blocks ?w ?r ?c ?rw ?o ?f] =>
    destruct (Seasonal_process_blocks_raises w r c rw path ds Hcols Hrows Hin Hds Hsmall o f)
      as [e He];
    destruct (Seasonal.process_blocks w r c rw o f) as [fb' [o'|e']]
  end; simpl in He; [done|]. by exists e'.
Qed.

Lemma present_paths_find final_files first rest :
  present_paths final_files = first :: rest ->
  find Seasonal.truthy final_files = Some (Some first).
Proof.
  unfold present_paths. induction final_files as [|slot ff IH]; [done|]. csimpl.
  unfold present at 1. destruct (Seasonal.truthy slot) eqn:Ht.
  - destruct slot as [path|]; [|done]. by intros [= -> _].
  - apply IH.
Qed.

(** *** Reading the output back *)

Lemma lookup_block_of xsize ysize f (i j : nat) :
  Np.block_get (block_of xsize ysize f) i j
  = if bool_decide (Z.of_nat i < xsize /\ Z.of_nat j < ysize)
    then Some (f (Z.of_nat i) (Z.of_nat j)) else None.
Proof.
  destruct (bool_decide_reflect (Z.of_nat i < xsize /\ Z.of_nat j < ysize)) as [[Hi Hj]|Hn].
  - by apply block_get_block_of.
  - unfold Np.block_get, block_of. rewrite lookup_map.
    destruct (decide (Z.of_nat j < ysize)) as [Hj|Hj].
    + rewrite lookup_seq_lt by lia. simpl. rewrite lookup_map.
      rewrite lookup_seq_ge by lia. done.
    + rewrite lookup_seq_ge by lia. done.
Qed.

Lemma write_at_tile f tl px py :
  write_at (tile_write f tl) px py
  = if bool_decide (in_tile tl px py) then Some (f px py) else None.
Proof.
  unfold write_at, tile_write, in_tile.
  destruct (Z.leb_spec (tile_x tl) px); simpl;
    [|rewrite bool_decide_eq_false_2; [done|lia]].
  destruct (Z.leb_spec (tile_y tl) py); simpl;
    [|rewrite bool_decide_eq_false_2; [done|lia]].
  rewrite lookup_block_of, !Z2Nat.id by lia.
  replace (tile_x tl + (px - tile_x tl)) with px by lia.
  replace (tile_y tl + (py - tile_y tl)) with py by lia.
  repeat case_bool_decide; try done; lia.
Qed.

Lemma out_pixel_tiles f ts px py start :
  fold_left (fun v w => default v (write_at w px py)) (map (tile_write f) ts) start
  = if bool_decide (Exists (fun tl => in_tile tl px py) ts) then f px py else start.
Proof.
  revert start. induction ts as [|tl ts IH]; intros start.
  - cbn [map fold_left]. case_bool_decide as H; [by apply Exists_nil in H|done].
  - cbn [map fold_left]. rewrite IH, write_at_tile.
    destruct (bool_decide_reflect (Exists (fun tl => in_tile tl px py) ts)) as [Hts|Hts].
    + rewrite bool_decide_eq_true_2; [done|]. by apply Exists_cons_tl.
    + destruct (bool_decide_reflect (in_tile tl px py)) as [Htl|Htl]; simpl.
      * rewrite bool_decide_eq_true_2; [done|]. by apply Exists_cons_hd.
      * rewrite bool_decide_eq_false_2; [done|]. by intros [?|?]%Exists_cons.
Qed.

(** A raster on which every tile of the grid was written holds the pixel
    function everywhere on the grid. *)
Lemma out_pixel_complete f cols rows bs out px py :
  0 < bs -> 0 <= px < cols -> 0 <= py < rows ->
  written out = map (tile_write f) (tiles cols rows bs) ->
  out_pixel out px py = f px py.
Proof.
  intros Hbs Hpx Hpy Hw. unfold out_pixel. rewrite Hw, out_pixel_tiles.
  rewrite bool_decide_eq_true_2; [done|].
  destruct (tile_of_pixel cols rows bs px py Hbs Hpx Hpy) as [Hin Hcover].
  apply Exists_exists. eauto.
Qed.

Lemma out_pixel_write_all f cols rows bs out px py :
  0 < bs -> 0 <= px < cols -> 0 <= py < rows ->
  out_pixel (write_all (map (tile_write f) (tiles cols rows bs)) out) px py = f px py.
Proof.
  intros Hbs Hpx Hpy. unfold out_pixel.
  rewrite written_write_all, fold_left_app, out_pixel_tiles.
  rewrite bool_decide_eq_true_2; [done|].
  destruct (tile_of_pixel cols rows bs px py Hbs Hpx Hpy) as [Hin Hcover].
  apply Exists_exists. eauto.
Qed.

(** *** The accumulator of the flat summation holds the sum *)

Lemma Zsum_Permutation (l k : list Z) : l ≡ₚ k -> Zsum l = Zsum k.
Proof.
  induction 1 as [|a l k _ IH|a b l|l k m _ IH1 _ IH2]; simpl; lia.
Qed.

Lemma Zsum_nonneg (l : list Z) : Forall (fun v => 0 <= v) l -> 0 <= Zsum l.
Proof. induction 1 as [|a l Ha _ IH]; simpl; lia. Qed.

Lemma accumulate_uint32 w slots start px py :
  is_uint32 start ->
  accumulate Np.uint32 w slots start px py
  = (start + Zsum (contributions Np.uint32 w slots px py)) mod 2 ^ 32.
Proof.
  unfold accumulate, contributions. revert start.
  induction slots as [|slot slots IH]; intros start Hs; simpl.
  - rewrite Z.add_0_r, Z.mod_small; [done|exact Hs].
  - rewrite IH by apply uint32_add.
    unfold Np.add, Np.astype, Np.wrap_unsigned.
    rewrite Zplus_mod_idemp_l. f_equal. lia.
Qed.

Lemma Summation_block_sum_total w cols rows x y xsize ysize rasters :
  forallb (covers w cols rows) rasters = true ->
  0 <= x -> 0 <= y -> x + xsize <= cols -> y + ysize <= rows ->
  Summation.block_sum w rasters x y xsize ysize
  = Ok (block_of xsize ysize
          (fun i j => Zsum (contributions Np.uint32 w (map Some rasters) (x + i) (y + j))
                      mod 2 ^ 32)).
Proof.
  intros Hcov Hx Hy Hxs Hys.
  rewrite (Summation_block_sum_ok w cols rows) by done.
  f_equal. apply block_of_ext. intros i j _ _.
  rewrite accumulate_uint32 by (unfold is_uint32; lia).
  by rewrite Z.add_0_l.
Qed.

(** *** The windows the block loops write *)

Lemma window_of_tile_write f tl :
  1 <= tile_xsize tl -> 1 <= tile_ysize tl -> window_of (tile_write f tl) = tl.
Proof.
  destruct tl as [tx ty xs ys]. simpl. intros Hxs Hys.
  unfold window_of, tile_write, block_of. simpl.
  rewrite length_map, length_seq.
  destruct (Z.to_nat ys) as [|n] eqn:Hn; [lia|]. simpl.
  rewrite length_map, length_seq. f_equal; lia.
Qed.

Lemma windows_write_all f cols rows bs out :
  0 < bs ->
  windows (write_all (map (tile_write f) (tiles cols rows bs)) out)
  = windows out ++ tiles cols rows bs.
Proof.
  intros Hbs. unfold windows. rewrite written_write_all, map_app. f_equal.
  rewrite map_map. rewrite <- (map_id (tiles cols rows bs)) at 2.
  apply map_ext_in. intros tl Hin%list_elem_of_In.
  pose proof (tile_bounds cols rows bs tl Hbs Hin).
  apply window_of_tile_write; lia.
Qed.

(** ** The properties of the specification *)

(** C1.  A pixel equal to the declared nodata value must add nothing to
    the accumulator.  The flat summation casts the window to [uint32]
    before it compares with nodata, so a negative nodata value is never
    recognised: a raster whose only pixel is its nodata value -9999 leaves
    4294957297 in the output, where the monthly algorithm, which compares
    after a cast to [float32], leaves 0 for the same raster. *)
Theorem summation_keeps_negative_nodata :
  (exists ds, Open void_world "in/dem_2021-01-15.tif" = Some ds
         /\ NoDataValue ds = Some (pixel ds 0 0)
         /\ contribution Np.uint32 ds 0 0 = 4294957297
         /\ contribution Np.float32 ds 0 0 = 0)
  /\ (exists out,
        (Summation.processAlgorithm void_world (summation_params 2) quiet).2 = Ok out
        /\ written out = [(0, 0, [[4294957297]])]
        /\ out_pixel out 0 0 = 4294957297)
  /\ (exists out,
        (Monthly.processAlgorithm void_world monthly_params quiet).2 = Ok [out]
        /\ written out = [(0, 0, [[0]])]).
Proof.
  split; [|split].
  - eexists. split; [reflexivity|]. repeat split; reflexivity.
  - eexists. split; [vm_compute; reflexivity|]. split; reflexivity.
  - eexists. split; [vm_compute; reflexivity|]. reflexivity.
Qed.

(** C2, as the specification states it, fails: two contributors of one
    size whose geotransform and projection both differ are summed, and the
    run returns normally. *)
Lemma mismatched_grids_are_summed :
  (exists a b, Open mismatched_world "in/a_2021-01-15.tif" = Some a
          /\ Open mismatched_world "in/b_2021-01-16.tif" = Some b
          /\ GeoTransform a <> GeoTransform b /\ Projection a <> Projection b)
  /\ (exists out,
        (Summation.processAlgorithm mismatched_world (summation_params 0) quiet).2 = Ok out
        /\ written out = [(0, 0, [[3; 3]; [3; 3]])]
        /\ out_proj out = Some "EPSG:4326")
  /\ (exists out,
        (Monthly.processAlgorithm mismatched_world monthly_params quiet).2 = Ok [out]
        /\ written out = [(0, 0, [[3; 3]; [3; 3]])]).
Proof.
  split; [|split].
  - eexists _, _. split; [reflexivity|]. split; [reflexivity|]. split; intros [=].
  - eexists. split; [vm_compute; reflexivity|]. split; reflexivity.
  - eexists. split; [vm_compute; reflexivity|]. reflexivity.
Qed.

Lemma forallb_false {A} (f : A -> bool) (l : list A) :
  forallb f l = false -> exists a, a ∈ l /\ f a = false.
Proof.
  induction l as [|a l IH]; [done|]. simpl.
  destruct (f a) eqn:Ha; simpl.
  - intros (b & Hb & Hfb)%IH. exists b. split; [by apply list_elem_of_further|done].
  - intros _. exists a. split; [apply list_elem_of_here|done].
Qed.

Lemma not_covered_too_small w ref first rest :
  Open w first = Some ref -> forallb (opens w) rest = true ->
  forallb (covers w (RasterXSize ref) (RasterYSize ref)) (first :: rest) = false ->
  exists path ds, path ∈ first :: rest /\ Open w path = Some ds
    /\ (RasterXSize ds < RasterXSize ref \/ RasterYSize ds < RasterYSize ref).
Proof.
  intros Hopen Hopens (path & Hin & Hc)%forallb_false.
  assert (exists ds, Open w path = Some ds) as [ds Hds].
  { apply elem_of_cons in Hin as [->|Hin]; [by exists ref|].
    rewrite forallb_forall in Hopens. apply list_elem_of_In, Hopens in Hin.
    unfold opens in Hin. destruct (Open w path) as [ds|]; [by exists ds|done]. }
  exists path, ds. split; [done|]. split; [done|].
  unfold covers in Hc. rewrite Hds in Hc. apply andb_false_iff in Hc as [Hc|Hc];
    apply Z.leb_gt in Hc; lia.
Qed.

Lemma produced_intro ref f out :
  out_xsize out = RasterXSize ref -> out_ysize out = RasterYSize ref ->
  out_geo out = Some (GeoTransform ref) -> out_proj out = Some (Projection ref) ->
  flushed out = true ->
  written out = map (tile_write f) (tiles (RasterXSize ref) (RasterYSize ref) 512) ->
  produced ref f out.
Proof.
  intros ? ? ? ? ? Hw. repeat split; try done.
  intros px py Hpx Hpy.
  by apply (out_pixel_complete f (RasterXSize ref) (RasterYSize ref) 512).
Qed.

(** C2, amended.  The output takes its shape, geotransform and projection
    from the first contributor, and no contributor's geotransform or
    projection is looked at.  When all contributors open, a unit (the flat
    summation, one month, one season-year) fails, at the windowed read,
    exactly when some contributor is narrower or shorter than the
    reference raster; otherwise every window of every contributor is
    summed into the output.  Each of the three units is stated on its own
    contributors: the rasters gathered under the folder, the files of the
    month, the present files of the season-year. *)
Theorem unit_fails_only_on_smaller_contributor (w : World) (fb : Feedback) :
  (forall (ps : Summation.Parameters) (first : string) (rest : list string)
          (ref : Dataset),
     Summation.all_rasters w (Summation.INPUT_FOLDER ps) = first :: rest ->
     Open w first = Some ref ->
     1 <= RasterXSize ref -> 1 <= RasterYSize ref ->
     forallb (opens w) rest = true ->
     unit_outcome w ref (first :: rest)
       (summation_pixel w (first :: rest)
          (Summation.out_gdal_dtype (Summation.OUT_DATATYPE ps)))
       (Summation.processAlgorithm w ps fb).2)
  /\ (forall (pm : Monthly.Parameters) (month first : string) (rest : list string)
             (ref : Dataset) (outputs : list OutDataset),
        Open w first = Some ref ->
        1 <= RasterXSize ref -> 1 <= RasterYSize ref ->
        forallb (opens w) rest = true ->
        match (Monthly.process_month w pm (month, first :: rest) outputs fb).2 with
        | Ok outs =>
            exists out, outs = outputs ++ [out]
              /\ unit_outcome w ref (first :: rest) (monthly_pixel w (first :: rest))
                   (Ok out)
        | Raise e =>
            unit_outcome w ref (first :: rest) (monthly_pixel w (first :: rest)) (Raise e)
        end)
  /\ (forall (pse : Seasonal.Parameters) (seasons : list (string * list string))
             (name : string) (months : list string) (season_year : Z)
             (r : Z * string * string) (rs : list (Z * string * string))
             (previous : option (list Q * string * Z * Z)) (outputs : list OutDataset)
             (first : string) (rest : list string) (ref : Dataset),
        Seasonal.dict_get name seasons = Ok months ->
        present_paths (Seasonal.fill_months season_year months (r :: rs)).1
        = first :: rest ->
        Open w first = Some ref ->
        1 <= RasterXSize ref -> 1 <= RasterYSize ref ->
        forallb (opens w) rest = true ->
        match (Seasonal.process_season w pse seasons (season_year, name, r :: rs)
                 (previous, outputs) fb).2 with
        | Ok (_, outs) =>
            exists out, outs = outputs ++ [out]
              /\ unit_outcome w ref (first :: rest)
                   (seasonal_pixel w (Seasonal.fill_months season_year months (r :: rs)).1)
                   (Ok out)
        | Raise e =>
            unit_outcome w ref (first :: rest)
              (seasonal_pixel w (Seasonal.fill_months season_year months (r :: rs)).1)
              (Raise e)
        end).
Proof.
  split; [|split].
  - intros ps first rest ref Hall Hopen Hcols Hrows Hopens.
    destruct (forallb (covers w (RasterXSize ref) (RasterYSize ref)) (first :: rest))
      eqn:Hcov.
    + destruct (Summation_run_ok w ps fb first rest ref Hall Hopen Hcov)
        as (out & -> & ? & ? & ? & ? & ? & ? & ?).
      simpl. split; [done|]. by apply produced_intro.
    + destruct (not_covered_too_small w ref first rest Hopen Hopens Hcov)
        as (path & ds & Hin & Hds & Hsmall).
      destruct (Summation_run_raises w ps fb first rest ref path ds
                  Hall Hopen Hcols Hrows Hin Hds Hsmall) as [e ->].
      simpl. exists path. split; [done|]. by exists ds.
  - intros pm month first rest ref outputs Hopen Hcols Hrows Hopens.
    destruct (forallb (covers w (RasterXSize ref) (RasterYSize ref)) (first :: rest))
      eqn:Hcov.
    + destruct (Monthly_process_month_ok w pm fb month first rest ref outputs Hopen Hcov)
        as (out & -> & ? & ? & ? & ? & ? & ? & ?).
      simpl. exists out. split; [done|]. split; [done|]. by apply produced_intro.
    + destruct (not_covered_too_small w ref first rest Hopen Hopens Hcov)
        as (path & ds & Hin & Hds & Hsmall).
      destruct (Monthly_process_month_raises w pm fb month first rest ref outputs path ds
                  Hopen Hcols Hrows Hin Hds Hsmall) as [e ->].
      simpl. exists path. split; [done|]. by exists ds.
  - intros pse seasons name months season_year r rs previous outputs first rest ref
      Hget Hpaths Hopen Hcols Hrows Hopens.
    pose proof (present_paths_find _ _ _ Hpaths) as Hfind.
    destruct (forallb (covers w (RasterXSize ref) (RasterYSize ref)) (first :: rest))
      eqn:Hcov.
    + destruct (Seasonal_process_season_ok w pse seasons fb season_year name months r rs
                  first ref previous outputs Hget Hfind Hopen)
        as (meta & out & -> & ? & ? & ? & ? & ? & ? & ?); [by rewrite Hpaths|].
      simpl. exists out. split; [done|]. split; [done|]. by apply produced_intro.
    + destruct (not_covered_too_small w ref first rest Hopen Hopens Hcov)
        as (path & ds & Hin & Hds & Hsmall).
      destruct (Seasonal_process_season_raises w pse seasons fb season_year name months r rs
                  first ref previous outputs path ds Hget Hfind Hopen Hcols Hrows)
        as [e ->]; [by rewrite Hpaths|done|done|].
      simpl. exists path. split; [done|]. by exists ds.
Qed.

Lemma unit_fails_only_on_smaller_contributor_witness :
  let w := two_months_world in
  let ref := constant_raster 2 2 1 None north_up "EPSG:4326" in
  let paths := ["in/a_2021-01-15.tif"; "in/b_2021-02-16.tif"] in
  let january := ["in/a_2021-01-15.tif"] in
  let final_files :=
    (Seasonal.fill_months 2021 ["01"; "02"] [january_obs; february_obs]).1 in
  unit_outcome w ref paths
    (summation_pixel w paths
       (Summation.out_gdal_dtype (Summation.OUT_DATATYPE (summation_params 0))))
    (Summation.processAlgorithm w (summation_params 0) quiet).2
  /\ match (Monthly.process_month w monthly_params ("01", january) [] quiet).2 with
     | Ok outs =>
         exists out, outs = [] ++ [out]
           /\ unit_outcome w ref january (monthly_pixel w january) (Ok out)
     | Raise e => unit_outcome w ref january (monthly_pixel w january) (Raise e)
     end
  /\ match (Seasonal.process_season w seasonal_params
              [("JF", ["01"; "02"])] (2021, "JF", [january_obs; february_obs])
              (None, []) quiet).2 with
     | Ok (_, outs) =>
         exists out, outs = [] ++ [out]
           /\ unit_outcome w ref paths (seasonal_pixel w final_files) (Ok out)
     | Raise e => unit_outcome w ref paths (seasonal_pixel w final_files) (Raise e)
     end.
Proof.
  destruct (unit_fails_only_on_smaller_contributor two_months_world quiet)
    as (Hflat & Hmonth & Hseason).
  split; [|split].
  - apply (Hflat (summation_params 0) "in/a_2021-01-15.tif" ["in/b_2021-02-16.tif"]
             (constant_raster 2 2 1 None north_up "EPSG:4326"));
      [reflexivity|reflexivity|simpl; lia|simpl; lia|reflexivity].
  - apply (Hmonth monthly_params "01" "in/a_2021-01-15.tif" []
             (constant_raster 2 2 1 None north_up "EPSG:4326") []);
      [reflexivity|simpl; lia|simpl; lia|reflexivity].
  - apply (Hseason seasonal_params [("JF", ["01"; "02"])] "JF" ["01"; "02"] 2021
             january_obs [february_obs] None []
             "in/a_2021-01-15.tif" ["in/b_2021-02-16.tif"]
             (constant_raster 2 2 1 None north_up "EPSG:4326"));
      [reflexivity|reflexivity|reflexivity|simpl; lia|simpl; lia|reflexivity].
Defined.

(** C3, as the specification states it, fails: the caller cancels after
    the first of three rows of tiles, and the run still writes the three
    rows, reports the remaining progress and returns normally. *)
Lemma cancelled_run_completes :
  exists fb out,
    Summation.processAlgorithm tall_world (summation_params 0) impatient = (fb, Ok out)
    /\ reported fb = [PushInfo (Found 1); SetProgress 49; SetProgress 99;
                      SetProgress 100; PushInfo (SavedFrequency "out.tif")]
    /\ isCanceled (reports [PushInfo (Found 1); SetProgress 49] impatient) = true
    /\ isCanceled fb = true
    /\ origins out = [(0, 0); (0, 512); (0, 1024)]
    /\ out_pixel out 0 511 = 1 /\ out_pixel out 0 512 = 1 /\ out_pixel out 0 1024 = 1.
Proof.
  eexists _, _. split; [vm_compute; reflexivity|].
  repeat split; vm_compute; reflexivity.
Qed.

(** C3, amended.  The block loops never read the cancellation signal:
    whatever the feedback object, when every contributor can be read over
    the grid they write every tile of the partition, in row-major order,
    and return normally; the flat summation reports progress once per row
    of tiles, the monthly and seasonal loops report nothing. *)
Theorem block_loops_ignore_cancellation
    (w : World) (rasters : list string) (final_files : list (option string))
    (t : GDALDataType) (cols rows : Z) (out : OutDataset) (fb : Feedback) :
  forallb (covers w cols rows) rasters = true ->
  forallb (covers_slot w cols rows) (map present final_files) = true ->
  Summation.process_blocks w rasters t cols rows out fb
  = (reports (List.concat (map (progress_of rows) (Py.range rows 512))) fb,
     Ok (write_all (map (tile_write (summation_pixel w rasters t)) (tiles cols rows 512)) out))
  /\ Monthly.process_blocks w rasters cols rows out fb
     = (fb, Ok (write_all (map (tile_write (monthly_pixel w rasters))
                               (tiles cols rows 512)) out))
  /\ Seasonal.process_blocks w final_files cols rows out fb
     = (fb, Ok (write_all (map (tile_write (seasonal_pixel w final_files))
                               (tiles cols rows 512)) out))
  /\ (forall f px py, 0 <= px < cols -> 0 <= py < rows ->
        out_pixel (write_all (map (tile_write f) (tiles cols rows 512)) out) px py
        = f px py).
Proof.
  intros Hr Hf. split; [|split; [|split]].
  - by apply Summation_process_blocks_ok.
  - by apply Monthly_process_blocks_ok.
  - by apply Seasonal_process_blocks_ok.
  - intros f px py Hpx Hpy. by apply out_pixel_write_all.
Qed.

Lemma block_loops_ignore_cancellation_witness :
  let w := mismatched_world in
  let rasters := ["in/a_2021-01-15.tif"; "in/b_2021-01-16.tif"] in
  let final_files := [Some "in/a_2021-01-15.tif"; None; Some "in/b_2021-01-16.tif"] in
  let out := Create "out.tif" 2 2 GDT_Float32 [] in
  let fb := reports [SetProgress 50] impatient in
  isCanceled fb = true
  /\ Summation.process_blocks w rasters GDT_Float32 2 2 out fb
     = (reports (List.concat (map (progress_of 2) (Py.range 2 512))) fb,
        Ok (write_all (map (tile_write (summation_pixel w rasters GDT_Float32))
                           (tiles 2 2 512)) out))
  /\ Monthly.process_blocks w rasters 2 2 out fb
     = (fb, Ok (write_all (map (tile_write (monthly_pixel w rasters)) (tiles 2 2 512)) out))
  /\ Seasonal.process_blocks w final_files 2 2 out fb
     = (fb, Ok (write_all (map (tile_write (seasonal_pixel w final_files))
                               (tiles 2 2 512)) out))
  /\ (forall f px py, 0 <= px < 2 -> 0 <= py < 2 ->
        out_pixel (write_all (map (tile_write f) (tiles 2 2 512)) out) px py
        = f px py).
Proof.
  intros w rasters final_files out fb. split; [reflexivity|].
  apply (block_loops_ignore_cancellation w rasters final_files GDT_Float32 2 2 out fb).
  - reflexivity.
  - reflexivity.
Defined.

(** C4.  With numeric months the season-year map is built, and an
    observation whose month is listed in a season is put in the bucket of
    the season-year [year] when its month number is at least the number
    of the season's first month, and of [year - 1] otherwise, and in no
    other bucket of that season.  For DJF = [12, 01, 02], January 2023
    goes to season-year 2022 and December 2023 to 2023. *)
Theorem season_year_rollover
    (cells : list string) (seasons : list (string * list string))
    (rasters : list (Z * string * string))
    (name : string) (months : list string) (m0 : string) (first_month : Z)
    (y : Z) (m f : string) (m_int : Z) :
  Seasonal.read_seasons cells [] = Ok seasons ->
  forallb season_ok seasons = true ->
  forallb observation_ok rasters = true ->
  (name, months) ∈ seasons ->
  head months = Some m0 -> Py.int m0 = Some first_month ->
  (y, m, f) ∈ rasters -> m ∈ months -> Py.int m = Some m_int ->
  (exists mp,
     Seasonal.build_season_raster_map seasons rasters = Ok mp
     /\ (y, m, f)
          ∈ default [] (mp !! ((if m_int >=? first_month then y else y - 1), name))
     /\ (forall sy, (y, m, f) ∈ default [] (mp !! (sy, name)) ->
                    sy = if m_int >=? first_month then y else y - 1))
  /\ Seasonal.build_season_raster_map [("DJF", ["12"; "01"; "02"])] winter
     = Ok (<[(2023, "DJF") := [(2023, "12", "in/dec.tif")]]>
           (<[(2022, "DJF") := [(2023, "01", "in/jan.tif")]]> ∅)).
Proof.
  intros Hseasons Hsok Hrok Hseason Hhead Hfirst Hin Hmonth Hint.
  assert (Hnd : NoDup seasons.*1)
    by (apply (read_seasons_NoDup _ _ _ Hseasons); constructor).
  destruct (build_season_raster_map_ok seasons rasters Hsok Hrok) as [mp Hmap].
  destruct (season_raster_map_bucket _ _ _ _ _ Hmap Hnd Hseason) as (first & Hf & Hb).
  unfold first_month_of in Hf. rewrite Hhead in Hf. simpl in Hf.
  rewrite Hfirst in Hf. injection Hf as <-.
  rewrite Z.geb_leb.
  assert (Hchar : forall sy, (y, m, f) ∈ List.filter (in_season months first_month sy) rasters
                        <-> sy = if first_month <=? m_int then y else y - 1).
  { intros sy. rewrite list_elem_of_In, filter_In, <- list_elem_of_In.
    unfold in_season, season_year_of. simpl. rewrite Hint.
    rewrite bool_decide_eq_true_2 by done. simpl. rewrite Z.eqb_eq.
    split; [by intros [_ <-]|by intros ->]. }
  split.
  - exists mp. split; [done|]. split.
    + rewrite Hb. by apply Hchar.
    + intros sy. rewrite Hb. apply Hchar.
  - vm_compute. reflexivity.
Qed.

Lemma season_year_rollover_witness :
  (exists mp,
     Seasonal.build_season_raster_map [("DJF", ["12"; "01"; "02"])] winter = Ok mp
     /\ (2023, "01", "in/jan.tif")
          ∈ default [] (mp !! ((if 1 >=? 12 then 2023 else 2023 - 1), "DJF"))
     /\ (forall sy, (2023, "01", "in/jan.tif") ∈ default [] (mp !! (sy, "DJF")) ->
                    sy = if 1 >=? 12 then 2023 else 2023 - 1))
  /\ Seasonal.build_season_raster_map [("DJF", ["12"; "01"; "02"])] winter
     = Ok (<[(2023, "DJF") := [(2023, "12", "in/dec.tif")]]>
           (<[(2022, "DJF") := [(2023, "01", "in/jan.tif")]]> ∅)).
Proof.
  apply (season_year_rollover ["DJF"; "12,01,02"] [("DJF", ["12"; "01"; "02"])] winter
           "DJF" ["12"; "01"; "02"] "12" 12 2023 "01" "in/jan.tif" 1).
  - reflexivity.
  - reflexivity.
  - reflexivity.
  - apply list_elem_of_here.
  - reflexivity.
  - reflexivity.
  - apply list_elem_of_here.
  - apply list_elem_of_further, list_elem_of_here.
  - reflexivity.
Defined.

Lemma first_of_month_cases m (month_files : list (Z * string * string)) :
  ((forall r, r ∈ month_files -> r.1.2 <> m)
   /\ Seasonal.first_of_month m month_files = None)
  \/ (exists earlier y f later,
        month_files = earlier ++ (y, m, f) :: later
        /\ (forall r, r ∈ earlier -> r.1.2 <> m)
        /\ Seasonal.first_of_month m month_files = Some (y, f)).
Proof.
  unfold Seasonal.first_of_month.
  induction month_files as [|[[y0 m0] f0] mf IH]; simpl.
  - left. split; [|done]. by intros r ?%elem_of_nil.
  - destruct (String.eqb_spec m0 m) as [->|Hne].
    + right. exists [], y0, f0, mf. split; [done|]. split; [|done].
      by intros r ?%elem_of_nil.
    + destruct IH as [[Hnone Hfind]|(earlier & y & f & later & -> & Hearlier & Hfind)].
      * left. split; [|done]. intros r [->|Hr]%elem_of_cons; [done|]. by apply Hnone.
      * right. exists ((y0, m0, f0) :: earlier), y, f, later. split; [done|].
        split; [|done]. intros r [->|Hr]%elem_of_cons; [done|]. by apply Hearlier.
Qed.

(** C5.  The contributor list of a bucket has one slot per month of the
    season, in the season's order.  The slot of a month holds the path of
    the first observation of the bucket that carries this month, and
    [None] when the bucket has no observation of this month.  A [None]
    slot adds nothing to a tile: the accumulated block is the one of the
    present files alone. *)
Theorem missing_months_fill_zero_slots
    (w : World) (season_year : Z) (season_months : list string)
    (month_files : list (Z * string * string))
    (slots before after : list (option string)) (x y cols_to_read rows_to_read : Z) :
  let final_files := (Seasonal.fill_months season_year season_months month_files).1 in
  List.length final_files = List.length season_months
  /\ (forall (i : nat) (m : string), season_months !! i = Some m ->
        ((forall r, r ∈ month_files -> r.1.2 <> m) /\ final_files !! i = Some None)
        \/ (exists earlier year f later,
              month_files = earlier ++ (year, m, f) :: later
              /\ (forall r, r ∈ earlier -> r.1.2 <> m)
              /\ final_files !! i = Some (Some f)))
  /\ Seasonal.block_sum w slots x y cols_to_read rows_to_read
     = Seasonal.block_sum w (List.filter Seasonal.truthy slots)
         x y cols_to_read rows_to_read
  /\ Seasonal.block_sum w (before ++ None :: after) x y cols_to_read rows_to_read
     = Seasonal.block_sum w (before ++ after) x y cols_to_read rows_to_read.
Proof.
  intros final_files. unfold final_files. rewrite fill_months_spec. simpl.
  split; [by rewrite length_map|]. split.
  { intros i m Hm. rewrite lookup_map, Hm. simpl.
    destruct (first_of_month_cases m month_files)
      as [[Hnone ->]|(earlier & year & f & later & Hmf & Hearlier & ->)].
    - by left.
    - right. by exists earlier, year, f, later. }
  assert (Hskip : forall l, Seasonal.block_sum w l x y cols_to_read rows_to_read
                       = Seasonal.block_sum w (List.filter Seasonal.truthy l)
                           x y cols_to_read rows_to_read).
  { intros l. unfold Seasonal.block_sum. apply Seasonal_skip_missing, zeros_float32. }
  split; [apply Hskip|].
  rewrite (Hskip (before ++ None :: after)), (Hskip (before ++ after)).
  by rewrite !List.filter_app.
Qed.

(** C6.  A run that finds no raster must fail.  The flat summation does
    raise on an empty folder (on the name of the exception class, which
    the module never imports); the monthly and the seasonal algorithm
    return normally and report that all maps were created. *)
Theorem no_input_reports_success
    (gdal_open : string -> option Dataset) (ps : Summation.Parameters)
    (pm : Monthly.Parameters) (fb : Feedback) :
  let w := {| walk := fun top => [(top, [])]; Open := gdal_open |} in
  Summation.processAlgorithm w ps fb = (fb, Raise (NameError "QgsProcessingException"))
  /\ Monthly.processAlgorithm w pm fb = (report (PushInfo AllMonthlyCreated) fb, Ok [])
  /\ Seasonal.processAlgorithm w seasonal_params fb
     = (reports [PushInfo (UsingSeasons [("DJF", ["12"; "01"; "02"])]);
                 PushInfo AllSeasonalCreated] fb, Ok []).
Proof.
  intros w. split; [done|]. split.
  - unfold Monthly.processAlgorithm, Monthly.scan. simpl.
    unfold mbind, M_bind, mret, M_ret. simpl. by rewrite map_to_list_empty.
  - unfold Seasonal.processAlgorithm, Seasonal.scan. simpl.
    unfold mbind, M_bind, mret, M_ret, lift, pushInfo. simpl.
    rewrite map_to_list_empty. simpl.
    unfold reports, report. simpl. by rewrite <- app_assoc.
Qed.

Lemma tiles_partition_of_grid (W H T : Z) :
  1 <= W -> 1 <= H -> 1 <= T -> partitions W H T (tiles W H T).
Proof.
  intros HW HH HT. assert (Hbs : 0 < T) by lia.
  split; [|split; [|split]].
  - apply Forall_forall. intros t Ht. by apply tile_bounds.
  - intros px py Hpx Hpy.
    destruct (tile_of_pixel W H T px py Hbs Hpx Hpy) as [Hin Hcover].
    apply list_elem_of_lookup_1 in Hin as [n Hn].
    exists n, (tile_at W H T (px / T * T) (py / T * T)).
    split; [done|]. split; [done|].
    intros n' t' Hn' Hcover'.
    pose proof (tile_origin W H T t' px py Hbs (list_elem_of_lookup_2 _ _ _ Hn') Hcover')
      as [Hx' Hy'].
    pose proof (tiles_sorted W H T Hbs) as Hs.
    destruct (Nat.lt_trichotomy n' n) as [Hlt|[->|Hlt]]; [|done|].
    + pose proof (StronglySorted_lookup _ _ _ _ _ _ Hs Hlt Hn' Hn) as Hb.
      unfold tile_before in Hb. simpl in Hb. lia.
    + pose proof (StronglySorted_lookup _ _ _ _ _ _ Hs Hlt Hn Hn') as Hb.
      unfold tile_before in Hb. simpl in Hb. lia.
  - intros px py t Ht [Hx Hy].
    pose proof (tile_bounds W H T t Hbs Ht). lia.
  - by apply tiles_sorted.
Qed.

(** C7.  For a grid of [W] columns and [H] rows and an edge [T], the
    windows of the two range loops lie inside the grid, are non-empty and
    at most [T] wide and high; every pixel of the grid lies in exactly one
    of them; they are visited row by row, and from left to right in a row.
    These are the windows the block loops of the three algorithms work
    on: when every contributor can be read over the grid, the loops,
    whose edge is 512, write to a fresh output exactly these windows, in
    this order, so that the windows written partition the grid. *)
Theorem tiles_partition (W H T : Z) :
  1 <= W -> 1 <= H -> 1 <= T ->
  partitions W H T (tiles W H T)
  /\ forall (w : World) (rasters : list string) (final_files : list (option string))
            (t : GDALDataType) (out : OutDataset) (fb : Feedback),
       written out = [] ->
       forallb (covers w W H) rasters = true ->
       forallb (covers_slot w W H) (map present final_files) = true ->
       (exists out',
          (Summation.process_blocks w rasters t W H out fb).2 = Ok out'
          /\ windows out' = tiles W H 512 /\ partitions W H 512 (windows out'))
       /\ (exists out',
             (Monthly.process_blocks w rasters W H out fb).2 = Ok out'
             /\ windows out' = tiles W H 512 /\ partitions W H 512 (windows out'))
       /\ (exists out',
             (Seasonal.process_blocks w final_files W H out fb).2 = Ok out'
             /\ windows out' = tiles W H 512 /\ partitions W H 512 (windows out')).
Proof.
  intros HW HH HT. split; [by apply tiles_partition_of_grid|].
  intros w rasters final_files t out fb Hfresh Hcov Hslots.
  assert (Hwin : forall f,
            windows (write_all (map (tile_write f) (tiles W H 512)) out) = tiles W H 512).
  { intros f. rewrite windows_write_all by lia. unfold windows. by rewrite Hfresh. }
  split; [|split]; eexists.
  - rewrite Summation_process_blocks_ok by done. simpl. split; [reflexivity|].
    rewrite Hwin. split; [done|]. apply tiles_partition_of_grid; lia.
  - rewrite Monthly_process_blocks_ok by done. simpl. split; [reflexivity|].
    rewrite Hwin. split; [done|]. apply tiles_partition_of_grid; lia.
  - rewrite Seasonal_process_blocks_ok by done. simpl. split; [reflexivity|].
    rewrite Hwin. split; [done|]. apply tiles_partition_of_grid; lia.
Qed.

Lemma tiles_partition_witness :
  partitions 1 1025 512 (tiles 1 1025 512)
  /\ exists out',
       (Summation.process_blocks tall_world ["in/a_2021-01-15.tif"] GDT_Byte 1 1025
          (Create "out.tif" 1 1025 GDT_Byte []) quiet).2 = Ok out'
       /\ windows out' = tiles 1 1025 512 /\ partitions 1 1025 512 (windows out').
Proof.
  destruct (tiles_partition 1 1025 512) as [Hgrid Hloops]; [lia|lia|lia|].
  split; [exact Hgrid|].
  destruct (Hloops tall_world ["in/a_2021-01-15.tif"] [] GDT_Byte
              (Create "out.tif" 1 1025 GDT_Byte []) quiet) as (Hflat & _ & _);
    [reflexivity|reflexivity|reflexivity|].
  exact Hflat.
Defined.

(** C8.  The cast of an accumulated value to an integer output type
    clamps to the range of the type; the cast to a float type rounds and
    does not clamp.  The accumulation happens in the [uint32] accumulator
    whatever the output type is: when every raster can be read over the
    tile, the accumulator holds at each pixel the sum of the contributions
    modulo 2^32, and the block written is its element-wise cast.  Rasters
    of 200 and 100 give 255 as Byte and 300 as UInt16, not the 44 of an
    8-bit accumulation. *)
Theorem cast_saturates
    (v : Z) (w : World) (rasters : list string) (t : GDALDataType)
    (x y xsize ysize : Z) (out : OutDataset) (fb : Feedback) :
  Summation.cast_value GDT_Byte v = Z.max 0 (Z.min v 255)
  /\ Summation.cast_value GDT_UInt16 v = Z.max 0 (Z.min v 65535)
  /\ Summation.cast_value GDT_UInt32 v = Z.max 0 (Z.min v 4294967295)
  /\ Summation.cast_value GDT_Int16 v = Z.max (-32768) (Z.min v 32767)
  /\ Summation.cast_value GDT_Int32 v = Z.max (-2147483648) (Z.min v 2147483647)
  /\ Summation.cast_value GDT_Float32 v = Np.round_float 24 v
  /\ Summation.cast_value GDT_Float64 v = Np.round_float 53 v
  /\ Summation.cast_value GDT_Byte 300 = 255 /\ Np.astype Np.uint8 300 = 44
  /\ Summation.cast_value GDT_Float32 4294967295 = 4294967296
  /\ Summation.cast_value GDT_Float64 4294967295 = 4294967295
  /\ match Summation.block_sum w rasters x y xsize ysize with
     | Ok block_sum =>
         Forall (Forall is_uint32) block_sum
         /\ Summation.process_block w rasters t x y xsize ysize out fb
            = (fb, Ok (WriteArray (Np.block_map (Summation.cast_value t) block_sum) x y out))
     | Raise e =>
         Summation.process_block w rasters t x y xsize ysize out fb = (fb, Raise e)
     end
  /\ (forall cols rows,
        forallb (covers w cols rows) rasters = true ->
        0 <= x -> 0 <= y -> x + xsize <= cols -> y + ysize <= rows ->
        Summation.block_sum w rasters x y xsize ysize
        = Ok (block_of xsize ysize
                (fun i j =>
                   Zsum (contributions Np.uint32 w (map Some rasters) (x + i) (y + j))
                   mod 2 ^ 32))
        /\ Summation.process_block w rasters t x y xsize ysize out fb
           = (fb, Ok (WriteArray
                        (block_of xsize ysize
                           (fun i j =>
                              Summation.cast_value t
                                (Zsum (contributions Np.uint32 w (map Some rasters)
                                         (x + i) (y + j))
                                 mod 2 ^ 32)))
                        x y out)))
  /\ contributions Np.uint32 bright_world
       (map Some ["in/a_2021-01-15.tif"; "in/b_2021-01-16.tif"]) 0 0 = [200; 100]
  /\ (exists out8,
        (Summation.processAlgorithm bright_world (summation_params 0) quiet).2 = Ok out8
        /\ written out8 = [(0, 0, [[255]])])
  /\ (exists out16,
        (Summation.processAlgorithm bright_world (summation_params 1) quiet).2 = Ok out16
        /\ written out16 = [(0, 0, [[300]])]).
Proof.
  unfold Summation.cast_value, Np.astype, Np.clip, Np.wrap_unsigned, Np.wrap_signed.
  repeat match goal with |- _ /\ _ => split end; try reflexivity.
  - rewrite Z.mod_small; lia.
  - rewrite Z.mod_small; lia.
  - rewrite Z.mod_small; lia.
  - change (2 ^ (16 - 1)) with 32768. change (2 ^ 16) with 65536. rewrite Z.mod_small; lia.
  - change (2 ^ (32 - 1)) with 2147483648. change (2 ^ 32) with 4294967296.
    rewrite Z.mod_small; lia.
  - pose proof (Summation_block_sum_uint32 w rasters x y xsize ysize) as Hacc.
    unfold Summation.process_block, lift, mbind, M_bind.
    destruct (Summation.block_sum w rasters x y xsize ysize); [|done].
    split; [done|]. reflexivity.
  - intros cols rows Hcov Hx Hy Hxs Hys.
    pose proof (Summation_block_sum_total w cols rows x y xsize ysize rasters
                  Hcov Hx Hy Hxs Hys) as Hsum.
    split; [exact Hsum|].
    unfold Summation.process_block, lift, mbind, M_bind. rewrite Hsum.
    unfold mret, M_ret, Summation.out_block. by rewrite block_map_block_of.
  - eexists. split; reflexivity.
  - eexists. split; reflexivity.
Qed.

Lemma cast_saturates_witness :
  Summation.block_sum bright_world ["in/a_2021-01-15.tif"; "in/b_2021-01-16.tif"] 0 0 1 1
  = Ok (block_of 1 1
          (fun i j =>
             Zsum (contributions Np.uint32 bright_world
                     (map Some ["in/a_2021-01-15.tif"; "in/b_2021-01-16.tif"])
                     (0 + i) (0 + j))
             mod 2 ^ 32))
  /\ Summation.process_block bright_world ["in/a_2021-01-15.tif"; "in/b_2021-01-16.tif"]
       GDT_Byte 0 0 1 1 (Create "out.tif" 1 1 GDT_Byte []) quiet
     = (quiet,
        Ok (WriteArray
              (block_of 1 1
                 (fun i j =>
                    Summation.cast_value GDT_Byte
                      (Zsum (contributions Np.uint32 bright_world
                               (map Some ["in/a_2021-01-15.tif"; "in/b_2021-01-16.tif"])
                               (0 + i) (0 + j))
                       mod 2 ^ 32)))
              0 0 (Create "out.tif" 1 1 GDT_Byte []))).
Proof.
  destruct (cast_saturates 300 bright_world ["in/a_2021-01-15.tif"; "in/b_2021-01-16.tif"]
              GDT_Byte 0 0 1 1 (Create "out.tif" 1 1 GDT_Byte []) quiet)
    as (_ & _ & _ & _ & _ & _ & _ & _ & _ & _ & _ & _ & Hwide & _).
  apply (Hwide 1 1); [reflexivity|lia|lia|lia|lia].
Defined.

(** C9.  In monthly mode the key of a file name is the two characters
    MM of the leftmost substring of the form YYYY-MM-DD; a name without
    such a substring has no key.  A TIFF with a key is appended to the
    list of its month; one without is reported and left out, and the
    traversal goes on.  The three file names of the example fall under
    "01", "01" and "02". *)
Theorem monthly_classifier (fname : string) :
  (forall mm, Monthly.month_of fname = Some mm <->
     exists i : nat, date_at fname i = true
               /\ (forall j : nat, (j < i)%nat -> date_at fname j = false)
               /\ mm = substring (i + 5) 2 fname)
  /\ (Monthly.month_of fname = None <-> forall i : nat, date_at fname i = false)
  /\ (forall root rasters_by_month fb,
        Monthly.classify root fname rasters_by_month fb =
        if Py.endswith (Py.lower fname) ".tif" then
          match Monthly.month_of fname with
          | Some mm =>
              (report (PushInfo (MonthOf fname mm)) fb,
               Ok (<[mm := default [] (rasters_by_month !! mm)
                            ++ [Py.path_join root fname]]> rasters_by_month))
          | None => (report (PushInfo (SkippingNoDate fname)) fb, Ok rasters_by_month)
          end
        else (fb, Ok rasters_by_month))
  /\ Monthly.month_of "a_2021-03-04_to_2021-05-06.tif" = Some "03"
  /\ (for_M (Monthly.classify "in") three_files ∅ quiet).2
     = Ok (<["02" := ["in/flood_2021-02-01.tif"]]>
           (<["01" := ["in/flood_2021-01-15.tif"; "in/flood_2021-01-28.tif"]]> ∅)).
Proof.
  split; [|split; [|split; [|split]]].
  - intros mm. apply month_of_Some.
  - unfold Monthly.month_of. rewrite <- search_date_None.
    destruct (Re.search_date fname) as [[? ?]|]; simpl; split; done.
  - intros root m fb. unfold Monthly.classify.
    destruct (Py.endswith _ _); [|done]. by destruct (Monthly.month_of fname).
  - reflexivity.
  - vm_compute. reflexivity.
Qed.

(** C10.  In the seasonal algorithm the slot of a month holds the path of
    the first raster, in the sorted list, that falls in the bucket with
    that month, so a bucket sums at most one raster per month and later
    files of the same month are left out.  The monthly algorithm keeps
    every file it classifies.  With two files of January 2023, DJF 2022
    sums one of them (and the December file), the monthly map of January
    sums both. *)
Theorem seasonal_sums_one_raster_per_month
    (cells : list string) (seasons : list (string * list string))
    (rasters : list (Z * string * string))
    (name : string) (months : list string)
    (root : string) (files : list string) (fb : Feedback) :
  Seasonal.read_seasons cells [] = Ok seasons ->
  forallb season_ok seasons = true ->
  forallb observation_ok rasters = true ->
  (name, months) ∈ seasons ->
  (exists mp first_month,
     Seasonal.build_season_raster_map seasons rasters = Ok mp
     /\ first_month_of months = Some first_month
     /\ forall season_year,
          let month_files := default [] (mp !! (season_year, name)) in
          let final_files := (Seasonal.fill_months season_year months month_files).1 in
          final_files
          = map (fun m =>
                   snd <$> find (fun r => in_season months first_month season_year r
                                          && String.eqb r.1.2 m) rasters)
                months
          /\ (List.length (List.filter Seasonal.truthy final_files)
              <= List.length months)%nat)
  /\ (exists rasters_by_month,
        (for_M (Monthly.classify root) files ∅ fb).2 = Ok rasters_by_month
        /\ forall fname mm,
             fname ∈ files -> Py.endswith (Py.lower fname) ".tif" = true ->
             Monthly.month_of fname = Some mm ->
             Py.path_join root fname ∈ default [] (rasters_by_month !! mm))
  /\ (exists djf,
        (Seasonal.processAlgorithm winter_world seasonal_params quiet).2 = Ok [djf]
        /\ out_path djf = "out/frequencymaps_2022_DJF.tif"
        /\ written djf = [(0, 0, [[2; 2]])])
  /\ (exists january december,
        (Monthly.processAlgorithm winter_world monthly_params quiet).2
        = Ok [january; december]
        /\ out_path january = "out/frequencymaps_01.tif"
        /\ written january = [(0, 0, [[2; 2]])]).
Proof.
  intros Hseasons Hsok Hrok Hseason.
  assert (Hnd : NoDup seasons.*1)
    by (apply (read_seasons_NoDup _ _ _ Hseasons); constructor).
  destruct (build_season_raster_map_ok seasons rasters Hsok Hrok) as [mp Hmap].
  destruct (season_raster_map_bucket _ _ _ _ _ Hmap Hnd Hseason) as (first & Hf & Hb).
  split; [|split; [|split]].
  - exists mp, first. split; [done|]. split; [done|]. intros season_year. simpl.
    rewrite fill_months_spec. simpl. split.
    + apply map_ext. intros m. unfold Seasonal.first_of_month.
      rewrite Hb, find_filter.
      destruct (find _ rasters) as [[[y' m'] f']|]; done.
    + etransitivity; [apply filter_length_le|]. by rewrite length_map.
  - destruct (classify_all_keeps root files ∅ fb) as (fb' & m' & Hrun & _ & Hall).
    exists m'. rewrite Hrun. by split.
  - eexists. split; [vm_compute; reflexivity|]. split; reflexivity.
  - eexists _, _. split; [vm_compute; reflexivity|]. split; reflexivity.
Qed.

Lemma seasonal_sums_one_raster_per_month_witness :
  (exists mp first_month,
     Seasonal.build_season_raster_map [("DJF", ["12"; "01"; "02"])] two_januaries = Ok mp
     /\ first_month_of ["12"; "01"; "02"] = Some first_month
     /\ forall season_year,
          let month_files := default [] (mp !! (season_year, "DJF")) in
          let final_files :=
            (Seasonal.fill_months season_year ["12"; "01"; "02"] month_files).1 in
          final_files
          = map (fun m =>
                   snd <$> find (fun r => in_season ["12"; "01"; "02"] first_month
                                            season_year r
                                          && String.eqb r.1.2 m) two_januaries)
                ["12"; "01"; "02"]
          /\ (List.length (List.filter Seasonal.truthy final_files)
              <= List.length ["12"; "01"; "02"])%nat)
  /\ (exists rasters_by_month,
        (for_M (Monthly.classify "in") three_files ∅ quiet).2 = Ok rasters_by_month
        /\ forall fname mm,
             fname ∈ three_files -> Py.endswith (Py.lower fname) ".tif" = true ->
             Monthly.month_of fname = Some mm ->
             Py.path_join "in" fname ∈ default [] (rasters_by_month !! mm))
  /\ (exists djf,
        (Seasonal.processAlgorithm winter_world seasonal_params quiet).2 = Ok [djf]
        /\ out_path djf = "out/frequencymaps_2022_DJF.tif"
        /\ written djf = [(0, 0, [[2; 2]])])
  /\ (exists january december,
        (Monthly.processAlgorithm winter_world monthly_params quiet).2
        = Ok [january; december]
        /\ out_path january = "out/frequencymaps_01.tif"
        /\ written january = [(0, 0, [[2; 2]])]).
Proof.
  apply (seasonal_sums_one_raster_per_month ["DJF"; "12,01,02"]
           [("DJF", ["12"; "01"; "02"])] two_januaries
           "DJF" ["12"; "01"; "02"] "in" three_files quiet).
  - reflexivity.
  - reflexivity.
  - reflexivity.
  - apply list_elem_of_here.
Defined.

(** ** Further properties of the code *)

(** *** Accumulation *)

Lemma accumulate_float32_exact w slots start px py :
  0 <= start ->
  Forall (fun v => 0 <= v) (contributions Np.float32 w slots px py) ->
  start + Zsum (contributions Np.float32 w slots px py) < 2 ^ 24 ->
  accumulate Np.float32 w slots start px py
  = start + Zsum (contributions Np.float32 w slots px py).
Proof.
  unfold accumulate, contributions, Zsum. revert start.
  induction slots as [|slot slots IH]; intros start Hs Hnn Hlt;
    cbn [fold_left map foldr] in *.
  - lia.
  - inversion Hnn as [|v l Hv Hl]; subst.
    pose proof (Zsum_nonneg _ Hl) as Hsum. unfold Zsum in Hsum.
    assert (Hadd : Np.add Np.float32 start (slot_value Np.float32 w slot px py)
                   = start + slot_value Np.float32 w slot px py).
    { unfold Np.add, Np.astype. apply round_float_exp0, float_exp_small; lia. }
    rewrite Hadd, IH; [lia|lia|done|lia].
Qed.

Lemma forallb_Permutation {A} (f : A -> bool) (l k : list A) :
  l ≡ₚ k -> forallb f l = forallb f k.
Proof.
  induction 1 as [|a l k _ IH|a b l|l k m _ IH1 _ IH2]; simpl.
  - done.
  - by rewrite IH.
  - by destruct (f a), (f b).
  - congruence.
Qed.

(** X1.  The accumulator of the flat summation holds, at every pixel of
    a tile, the sum of the contributions modulo 2^32: an overflow wraps
    around silently.  The block is therefore the same for every order of
    the rasters. *)
Theorem flat_sum_wraps_modulo
    (w : World) (cols rows x y xsize ysize : Z) (rasters rasters' : list string) :
  forallb (covers w cols rows) rasters = true ->
  0 <= x -> 0 <= y -> x + xsize <= cols -> y + ysize <= rows ->
  Summation.block_sum w rasters x y xsize ysize
  = Ok (block_of xsize ysize
          (fun i j => Zsum (contributions Np.uint32 w (map Some rasters) (x + i) (y + j))
                      mod 2 ^ 32))
  /\ (rasters' ≡ₚ rasters ->
      Summation.block_sum w rasters' x y xsize ysize
      = Summation.block_sum w rasters x y xsize ysize).
Proof.
  intros Hcov Hx Hy Hxs Hys.
  assert (Hsum : forall rs, forallb (covers w cols rows) rs = true ->
    Summation.block_sum w rs x y xsize ysize
    = Ok (block_of xsize ysize
            (fun i j => Zsum (contributions Np.uint32 w (map Some rs) (x + i) (y + j))
                        mod 2 ^ 32))).
  { intros rs Hrs.
    rewrite (Summation_block_sum_ok w cols rows) by done.
    f_equal. apply block_of_ext. intros i j _ _.
    rewrite accumulate_uint32 by (unfold is_uint32; lia).
    by rewrite Z.add_0_l. }
  split; [by apply Hsum|].
  intros Hperm.
  rewrite !Hsum; [|done|by rewrite (forallb_Permutation _ _ _ Hperm)].
  f_equal. apply block_of_ext. intros i j _ _. f_equal.
  apply Zsum_Permutation. unfold contributions.
  by rewrite Hperm.
Qed.

Lemma flat_sum_wraps_modulo_witness :
  let rasters := ["in/a_2021-01-15.tif"; "in/b_2021-01-16.tif"] in
  let rasters' := ["in/b_2021-01-16.tif"; "in/a_2021-01-15.tif"] in
  Summation.block_sum mismatched_world rasters 0 0 2 2
  = Ok (block_of 2 2
          (fun i j => Zsum (contributions Np.uint32 mismatched_world (map Some rasters)
                              (0 + i) (0 + j))
                      mod 2 ^ 32))
  /\ (rasters' ≡ₚ rasters ->
      Summation.block_sum mismatched_world rasters' 0 0 2 2
      = Summation.block_sum mismatched_world rasters 0 0 2 2).
Proof.
  apply (flat_sum_wraps_modulo mismatched_world 2 2 0 0 2 2); [reflexivity|lia..].
Defined.

(** X2.  For rasters that hold integer values, the float32 accumulator
    of the monthly algorithm is exact as long as the contributions are
    non-negative and their sum stays below 2^24: every pixel of the tile
    holds the sum of the contributions, without rounding.  (Rasters with
    fractional values are outside this development, whose pixels are
    integers.) *)
Theorem monthly_sum_exact_below_2_24
    (w : World) (cols rows x y xsize ysize : Z) (rasters : list string) :
  forallb (covers w cols rows) rasters = true ->
  0 <= x -> 0 <= y -> x + xsize <= cols -> y + ysize <= rows ->
  (forall i j, 0 <= i < xsize -> 0 <= j < ysize -> small_at w rasters (x + i) (y + j)) ->
  Monthly.block_sum w rasters x y xsize ysize
  = Ok (block_of xsize ysize
          (fun i j => Zsum (contributions Np.float32 w (map Some rasters) (x + i) (y + j)))).
Proof.
  intros Hcov Hx Hy Hxs Hys Hsmall.
  rewrite (Monthly_block_sum_ok w cols rows) by done.
  f_equal. apply block_of_ext. intros i j Hi Hj.
  destruct (Hsmall i j Hi Hj) as [Hnn Hlt].
  rewrite accumulate_float32_exact; [lia|lia|done|lia].
Qed.

Lemma monthly_sum_exact_below_2_24_witness :
  let rasters := ["in/a_2021-01-15.tif"; "in/b_2021-01-16.tif"] in
  Monthly.block_sum mismatched_world rasters 0 0 2 2
  = Ok (block_of 2 2
          (fun i j => Zsum (contributions Np.float32 mismatched_world (map Some rasters)
                              (0 + i) (0 + j)))).
Proof.
  apply (monthly_sum_exact_below_2_24 mismatched_world 2 2 0 0 2 2);
    [reflexivity|lia..|].
  intros i j _ _. split; [|reflexivity].
  repeat constructor; discriminate.
Defined.

Lemma contribution_binary ds px py :
  binary_raster ds ->
  contribution Np.uint32 ds px py = if pixel ds px py =? 1 then 1 else 0.
Proof.
  intros [Hbin Hnd]. unfold contribution.
  destruct (Hbin px py) as [Hp|Hp]; rewrite Hp.
  - change (Np.astype Np.uint32 0) with 0. unfold Np.eq_scalar.
    destruct (NoDataValue ds) as [nd|]; [|done]. by destruct (0 =? nd).
  - change (Np.astype Np.uint32 1) with 1. unfold Np.eq_scalar.
    destruct (NoDataValue ds) as [nd|]; [|done].
    destruct (Z.eqb_spec 1 nd) as [<-|]; [|done]. by destruct Hnd.
Qed.

Lemma Zsum_binary w rasters px py :
  Forall (fun path => exists ds, Open w path = Some ds /\ binary_raster ds) rasters ->
  Zsum (contributions Np.uint32 w (map Some rasters) px py) = flood_count w rasters px py.
Proof.
  unfold flood_count, contributions, Zsum.
  induction 1 as [|path rasters (ds & Hopen & Hbin) _ IH]; [done|].
  cbn [map foldr List.filter]. rewrite IH.
  unfold slot_value, flooded at 2. simpl. rewrite Hopen.
  rewrite contribution_binary by done.
  destruct (pixel ds px py =? 1); simpl List.length; lia.
Qed.

Lemma flood_count_bounds w rasters px py :
  0 <= flood_count w rasters px py <= Z.of_nat (List.length rasters).
Proof.
  unfold flood_count. split; [lia|].
  apply inj_le. induction rasters as [|r rs IH]; simpl; [lia|].
  destruct (flooded w px py r); simpl; lia.
Qed.

(** X3.  Over rasters of zeros and ones the hazard map is a count: each
    pixel of the output holds the number of rasters that are one there,
    cast to the output type; with the Byte type the count saturates
    at 255. *)
Theorem hazard_map_counts_binary_rasters
    (w : World) (p : Summation.Parameters) (fb : Feedback)
    (first : string) (rest : list string) (ref : Dataset) :
  Summation.all_rasters w (Summation.INPUT_FOLDER p) = first :: rest ->
  Open w first = Some ref ->
  forallb (covers w (RasterXSize ref) (RasterYSize ref)) (first :: rest) = true ->
  Forall (fun path => exists ds, Open w path = Some ds /\ binary_raster ds)
         (first :: rest) ->
  Z.of_nat (List.length (first :: rest)) < 2 ^ 32 ->
  exists out,
    (Summation.processAlgorithm w p fb).2 = Ok out
    /\ forall px py, 0 <= px < RasterXSize ref -> 0 <= py < RasterYSize ref ->
         out_pixel out px py
         = Summation.cast_value (Summation.out_gdal_dtype (Summation.OUT_DATATYPE p))
             (flood_count w (first :: rest) px py)
         /\ (Summation.OUT_DATATYPE p = 0 ->
             out_pixel out px py = Z.min 255 (flood_count w (first :: rest) px py)).
Proof.
  intros Hall Hopen Hcov Hbin Hlen.
  destruct (Summation_run_ok w p fb first rest ref Hall Hopen Hcov)
    as (out & Hrun & _ & _ & _ & _ & _ & _ & Hw).
  exists out. split; [by rewrite Hrun|].
  intros px py Hpx Hpy.
  assert (Hpix : out_pixel out px py
                 = Summation.cast_value (Summation.out_gdal_dtype (Summation.OUT_DATATYPE p))
                     (flood_count w (first :: rest) px py)).
  { rewrite (out_pixel_complete _ _ _ Summation.block_size out px py
               ltac:(reflexivity) Hpx Hpy Hw).
    unfold summation_pixel. f_equal.
    rewrite accumulate_uint32 by (unfold is_uint32; lia).
    rewrite Z.add_0_l, Zsum_binary by done.
    pose proof (flood_count_bounds w (first :: rest) px py).
    apply Z.mod_small. lia. }
  split; [done|].
  intros Ht. rewrite Hpix, Ht.
  pose proof (flood_count_bounds w (first :: rest) px py) as [H0 _].
  unfold Summation.cast_value, Summation.out_gdal_dtype, Np.astype, Np.clip, Np.wrap_unsigned.
  rewrite Z.mod_small; lia.
Qed.

Lemma hazard_map_counts_binary_rasters_witness :
  exists out,
    (Summation.processAlgorithm binary_world (summation_params 0) quiet).2 = Ok out
    /\ forall px py, 0 <= px < 2 -> 0 <= py < 2 ->
         out_pixel out px py
         = Summation.cast_value GDT_Byte
             (flood_count binary_world ["in/a_2021-01-15.tif"; "in/b_2021-01-16.tif"] px py)
         /\ (0 = 0 ->
             out_pixel out px py
             = Z.min 255 (flood_count binary_world
                            ["in/a_2021-01-15.tif"; "in/b_2021-01-16.tif"] px py)).
Proof.
  apply (hazard_map_counts_binary_rasters binary_world (summation_params 0) quiet
           "in/a_2021-01-15.tif" ["in/b_2021-01-16.tif"]
           (constant_raster 2 2 1 (Some 0) north_up "EPSG:4326"));
    [reflexivity|reflexivity|reflexivity| |reflexivity].
  repeat constructor.
  - exists (constant_raster 2 2 1 (Some 0) north_up "EPSG:4326").
    split; [reflexivity|]. split; [by right|discriminate].
  - exists (constant_raster 2 2 0 (Some 0) north_up "EPSG:4326").
    split; [reflexivity|]. split; [by left|discriminate].
Defined.

(** *** Progress *)

Lemma progress_events rows :
  List.concat (map (progress_of rows) (Py.range rows Summation.block_size))
  = map SetProgress (progress_values rows).
Proof.
  unfold progress_values.
  induction (Py.range rows Summation.block_size) as [|y l IH]; [done|].
  simpl. by rewrite IH.
Qed.

Lemma range_last_element stop step :
  0 < step -> 1 <= stop ->
  exists x, last (Py.range stop step) = Some x /\ x + Z.min step (stop - x) = stop.
Proof.
  intros Hstep Hstop. unfold Py.range.
  assert (Hn : 1 <= (stop + step - 1) / step).
  { apply Z.div_le_lower_bound; lia. }
  destruct (Z.to_nat ((stop + step - 1) / step)) as [|m] eqn:Hm; [lia|].
  exists (Z.of_nat m * step).
  rewrite seq_S, map_app. simpl. rewrite last_snoc. split; [done|].
  assert (H1 : (m < Z.to_nat ((stop + step - 1) / step))%nat) by lia.
  apply range_count in H1; [|done].
  assert (H2 : ~ (S m < Z.to_nat ((stop + step - 1) / step))%nat) by lia.
  rewrite range_count in H2 by done.
  lia.
Qed.

(** X4.  The flat summation reports progress once per row of tiles; the
    percentages never decrease, lie between 0 and 100, and the last one
    is 100. *)
Theorem summation_progress_rises_to_100
    (w : World) (rasters : list string) (t : GDALDataType) (cols rows : Z)
    (out : OutDataset) (fb : Feedback) :
  forallb (covers w cols rows) rasters = true ->
  1 <= rows ->
  (Summation.process_blocks w rasters t cols rows out fb).1
  = reports (map SetProgress (progress_values rows)) fb
  /\ StronglySorted Z.le (progress_values rows)
  /\ Forall (fun p => 0 <= p <= 100) (progress_values rows)
  /\ last (progress_values rows) = Some 100.
Proof.
  intros Hcov Hrows. split; [|split; [|split]].
  - rewrite Summation_process_blocks_ok by done. simpl. by rewrite progress_events.
  - unfold progress_values.
    apply (StronglySorted_fmap _ Z.lt Z.le).
    + intros a b Hab. apply Z.div_le_mono; lia.
    + apply range_sorted. reflexivity.
  - unfold progress_values. apply Forall_forall. intros p Hp.
    apply list_elem_of_fmap in Hp as (y & -> & Hy).
    apply range_tile_bounds in Hy as [Hy0 Hy1]; [|reflexivity].
    unfold Summation.block_size in *. split.
    + apply Z.div_pos; lia.
    + apply Z.div_le_upper_bound; lia.
  - unfold progress_values.
    destruct (range_last_element rows Summation.block_size) as (x & Hlast & Hx);
      [reflexivity|done|].
    change (map ?f ?l) with (f <$> l). rewrite fmap_last, Hlast. simpl.
    rewrite Hx. f_equal. apply Z.div_mul. lia.
Qed.

Lemma summation_progress_rises_to_100_witness :
  (Summation.process_blocks tall_world ["in/a_2021-01-15.tif"] GDT_Byte 1 1025
     (Create "out.tif" 1 1025 GDT_Byte []) quiet).1
  = reports (map SetProgress (progress_values 1025)) quiet
  /\ StronglySorted Z.le (progress_values 1025)
  /\ Forall (fun p => 0 <= p <= 100) (progress_values 1025)
  /\ last (progress_values 1025) = Some 100.
Proof.
  apply (summation_progress_rises_to_100 tall_world ["in/a_2021-01-15.tif"] GDT_Byte
           1 1025 (Create "out.tif" 1 1025 GDT_Byte []) quiet); [reflexivity|lia].
Defined.

(** *** The seasons table *)

Lemma dict_get_set_eq k v (d : list (string * list string)) :
  Seasonal.dict_get k (Seasonal.dict_set k v d) = Ok v.
Proof.
  unfold Seasonal.dict_get. induction d as [|[k' v'] d IH]; simpl.
  - by rewrite String.eqb_refl.
  - destruct (String.eqb k' k) eqn:Hk; simpl.
    + by rewrite String.eqb_refl.
    + by rewrite Hk.
Qed.

Lemma dict_get_set_ne k k' v (d : list (string * list string)) :
  k <> k' -> Seasonal.dict_get k (Seasonal.dict_set k' v d) = Seasonal.dict_get k d.
Proof.
  intros Hne.
  assert (Hf : String.eqb k' k = false) by (apply String.eqb_neq; congruence).
  unfold Seasonal.dict_get. induction d as [|[k0 v0] d IH]; simpl.
  - by rewrite Hf.
  - destruct (String.eqb k0 k') eqn:Hk; simpl.
    + apply String.eqb_eq in Hk as ->. by rewrite Hf.
    + destruct (String.eqb k0 k); [done|]. apply IH.
Qed.

Lemma elem_of_dict_set e k v (d : list (string * list string)) :
  e ∈ Seasonal.dict_set k v d -> e = (k, v) \/ e ∈ d.
Proof.
  induction d as [|[k' v'] d IH]; simpl.
  - intros ->%list_elem_of_singleton. by left.
  - destruct (String.eqb k' k).
    + intros [->|He]%elem_of_cons; [by left|]. right. by right.
    + intros [->|He]%elem_of_cons; [right; by left|].
      destruct (IH He) as [->|?]; [by left|]. right. by right.
Qed.

Lemma split_nonempty sep s : Py.split sep s <> [].
Proof.
  destruct s as [|c s]; simpl; [done|].
  destruct (Ascii.eqb c sep); [done|]. by destruct (Py.split sep s).
Qed.

Lemma months_of_nonempty months_str : Seasonal.months_of months_str <> [].
Proof.
  unfold Seasonal.months_of. pose proof (split_nonempty "," months_str).
  by destruct (Py.split "," months_str).
Qed.

Lemma read_seasons_parity cells d :
  match Seasonal.read_seasons cells d with
  | Ok _ => Nat.even (List.length cells) = true
  | Raise e => e = IndexError /\ Nat.even (List.length cells) = false
  end.
Proof.
  revert d. induction cells as [cells IH] using (induction_ltof1 _ List.length).
  intros d. destruct cells as [|name [|months rest]]; [done|done|].
  assert (Hlt : ltof _ List.length rest (name :: months :: rest))
    by (unfold ltof; simpl; lia).
  cbn [Seasonal.read_seasons List.length Nat.even].
  destruct (String.eqb name "" || String.eqb months ""); apply (IH rest Hlt).
Qed.

Lemma read_seasons_entries cells d d' :
  Seasonal.read_seasons cells d = Ok d' ->
  forall name months, (name, months) ∈ d' ->
    (name, months) ∈ d
    \/ (name <> "" /\ exists months_str, (name, months_str) ∈ rows_of cells
          /\ months_str <> "" /\ months = Seasonal.months_of months_str).
Proof.
  revert d. induction cells as [cells IH] using (induction_ltof1 _ List.length).
  intros d. destruct cells as [|name0 [|ms0 rest]]; [by intros [= <-]; left|done|].
  assert (Hlt : ltof _ List.length rest (name0 :: ms0 :: rest))
    by (unfold ltof; simpl; lia).
  cbn [Seasonal.read_seasons rows_of].
  destruct (String.eqb_spec name0 "") as [|Hn]; simpl.
  { intros Hrun name months Hin.
    destruct (IH rest Hlt _ Hrun name months Hin) as [?|(? & ms & ? & ? & ?)]; [by left|].
    right. split; [done|]. exists ms. split; [by right|done]. }
  destruct (String.eqb_spec ms0 "") as [|Hm]; simpl.
  { intros Hrun name months Hin.
    destruct (IH rest Hlt _ Hrun name months Hin) as [?|(? & ms & ? & ? & ?)]; [by left|].
    right. split; [done|]. exists ms. split; [by right|done]. }
  intros Hrun name months Hin.
  destruct (IH rest Hlt _ Hrun name months Hin) as [Hd|(? & ms & ? & ? & ?)].
  - apply elem_of_dict_set in Hd as [[= -> ->]|Hd]; [|by left].
    right. split; [done|]. exists ms0. split; [by left|done].
  - right. split; [done|]. exists ms. split; [by right|done].
Qed.

Lemma read_seasons_app before rest d :
  Nat.even (List.length before) = true ->
  Seasonal.read_seasons (before ++ rest) d
  = Seasonal.read_seasons before d ≫= Seasonal.read_seasons rest.
Proof.
  revert d. induction before as [before IH] using (induction_ltof1 _ List.length).
  intros d. destruct before as [|name [|months before']]; [done|done|].
  assert (Hlt : ltof _ List.length before' (name :: months :: before'))
    by (unfold ltof; simpl; lia).
  cbn [List.length Nat.even]. intros Heven.
  change ((name :: months :: before') ++ rest) with (name :: months :: (before' ++ rest)).
  cbn [Seasonal.read_seasons].
  destruct (String.eqb name "" || String.eqb months ""); by apply (IH before' Hlt).
Qed.

Lemma read_seasons_keeps cells d d' name :
  name ∉ (rows_of cells).*1 ->
  Seasonal.read_seasons cells d = Ok d' ->
  Seasonal.dict_get name d' = Seasonal.dict_get name d.
Proof.
  revert d. induction cells as [cells IH] using (induction_ltof1 _ List.length).
  intros d. destruct cells as [|name0 [|ms0 rest]]; [by intros _ [= <-]|done|].
  assert (Hlt : ltof _ List.length rest (name0 :: ms0 :: rest))
    by (unfold ltof; simpl; lia).
  cbn [Seasonal.read_seasons rows_of]. csimpl.
  intros Hnotin. apply not_elem_of_cons in Hnotin as [Hne Hnotin].
  destruct (String.eqb name0 "" || String.eqb ms0 ""); intros Hrun.
  - by apply (IH rest Hlt).
  - rewrite (IH rest Hlt _ Hnotin Hrun). by apply dict_get_set_ne.
Qed.

(** X5.  The seasons table is read two cells at a time: an odd number of
    cells raises IndexError, whatever the cells hold, and an even number
    always yields a dictionary.  The names of the dictionary are distinct
    and non-empty, and every entry comes from a row with a non-empty name
    and a non-empty month string, so that no season has an empty month
    list. *)
Theorem read_seasons_outcome (cells : list string) :
  match Seasonal.read_seasons cells [] with
  | Ok seasons =>
      Nat.even (List.length cells) = true
      /\ NoDup seasons.*1
      /\ forall name months, (name, months) ∈ seasons ->
           name <> "" /\ months <> []
           /\ exists months_str, (name, months_str) ∈ rows_of cells
                /\ months_str <> "" /\ months = Seasonal.months_of months_str
  | Raise e => e = IndexError /\ Nat.even (List.length cells) = false
  end.
Proof.
  pose proof (read_seasons_parity cells []) as Hpar.
  destruct (Seasonal.read_seasons cells []) as [seasons|e] eqn:Hrun; [|done].
  split; [done|]. split.
  - apply (read_seasons_NoDup _ _ _ Hrun). constructor.
  - intros name months Hin.
    destruct (read_seasons_entries _ _ _ Hrun name months Hin)
      as [Hnil|(Hname & ms & Hrow & Hms & ->)]; [by apply elem_of_nil in Hnil|].
    split; [done|]. split; [apply months_of_nonempty|]. by exists ms.
Qed.

(** X6.  When a season name is given in more than one row, the last row
    defines the season: after the run over the table, the name is bound to
    the months of a row that no later row repeats. *)
Theorem read_seasons_last_row_wins
    (before after : list string) (season_name months_str : string) :
  Nat.even (List.length before) = true ->
  Nat.even (List.length after) = true ->
  season_name <> "" -> months_str <> "" ->
  season_name ∉ (rows_of after).*1 ->
  exists seasons,
    Seasonal.read_seasons (before ++ season_name :: months_str :: after) [] = Ok seasons
    /\ Seasonal.dict_get season_name seasons = Ok (Seasonal.months_of months_str).
Proof.
  intros Hb Ha Hn Hm Hnotin.
  rewrite read_seasons_app by done.
  pose proof (read_seasons_parity before []) as Hpb.
  destruct (Seasonal.read_seasons before []) as [d1|e]; [|destruct Hpb; congruence].
  rewrite res_bind_Ok. cbn [Seasonal.read_seasons].
  apply String.eqb_neq in Hn as ->. apply String.eqb_neq in Hm as ->. simpl.
  pose proof (read_seasons_parity after
                (Seasonal.dict_set season_name (Seasonal.months_of months_str) d1)) as Hpa.
  destruct (Seasonal.read_seasons after _) as [d2|e] eqn:Hrun; [|destruct Hpa; congruence].
  exists d2. split; [done|].
  rewrite (read_seasons_keeps _ _ _ _ Hnotin Hrun). apply dict_get_set_eq.
Qed.

Lemma read_seasons_last_row_wins_witness :
  exists seasons,
    Seasonal.read_seasons (["wet"; "5,6"] ++ "wet" :: "6,7,8" :: ["dry"; "12,1"]) []
    = Ok seasons
    /\ Seasonal.dict_get "wet" seasons = Ok (Seasonal.months_of "6,7,8").
Proof.
  apply (read_seasons_last_row_wins ["wet"; "5,6"] ["dry"; "12,1"] "wet" "6,7,8");
    [reflexivity|reflexivity|discriminate|discriminate|].
  intros H. vm_compute in H. by apply list_elem_of_singleton in H.
Defined.

(** *** Sorting *)

Lemma insert_sorted_StronglySorted {A} (le : A -> A -> bool) (x : A) (l : list A) :
  (forall a b, le a b = true \/ le b a = true) ->
  (forall a b c, le a b = true -> le b c = true -> le a c = true) ->
  StronglySorted (fun a b => le a b = true) l ->
  StronglySorted (fun a b => le a b = true) (insert_sorted le x l).
Proof.
  intros Htot Htrans. induction 1 as [|y l Hl IH Hy]; simpl.
  - repeat constructor.
  - destruct (le x y) eqn:Hxy.
    + constructor; [by constructor|]. constructor; [done|].
      eapply Forall_impl; [exact Hy|]. intros z Hz. by eapply Htrans.
    + constructor; [done|].
      assert (Hyx : le y x = true) by (destruct (Htot x y); congruence).
      assert (Hperm : insert_sorted le x l ≡ₚ x :: l) by apply insert_sorted_Permutation.
      rewrite Hperm. by constructor.
Qed.

Lemma sorted_StronglySorted {A} (le : A -> A -> bool) (l : list A) :
  (forall a b, le a b = true \/ le b a = true) ->
  (forall a b c, le a b = true -> le b c = true -> le a c = true) ->
  StronglySorted (fun a b => le a b = true) (sorted le l).
Proof.
  intros Htot Htrans. unfold sorted.
  induction l as [|x l IH]; simpl; [constructor|].
  by apply insert_sorted_StronglySorted.
Qed.

Lemma insert_sorted_filter {A} (le : A -> A -> bool) (P : A -> bool) (x : A) (l : list A) :
  (forall y, y ∈ l -> P y = true -> P x = true -> le x y = true) ->
  List.filter P (insert_sorted le x l) = List.filter P (x :: l).
Proof.
  induction l as [|y l IH]; intros Hle; [done|].
  cbn [insert_sorted]. destruct (le x y) eqn:Hxy; [done|].
  cbn [List.filter]. rewrite IH by (intros z Hz; apply Hle; by right).
  cbn [List.filter].
  destruct (P y) eqn:Hy, (P x) eqn:Hx; try done.
  rewrite Hle in Hxy; [done|by left|done|done].
Qed.

Lemma sorted_filter {A} (le : A -> A -> bool) (P : A -> bool) (l : list A) :
  (forall x y, x ∈ l -> y ∈ l -> P x = true -> P y = true -> le x y = true) ->
  List.filter P (sorted le l) = List.filter P l.
Proof.
  unfold sorted. induction l as [|x l IH]; intros Hle; [done|].
  cbn [foldr]. rewrite insert_sorted_filter.
  - cbn [List.filter]. rewrite IH; [done|].
    intros a b Ha Hb. apply Hle; by right.
  - intros y Hy HPy HPx. apply Hle; [by left| |done..].
    right. eapply elem_of_Permutation_proper; [|exact Hy].
    symmetry. apply (sorted_Permutation le l).
Qed.

Lemma filter_map {A B} (P : B -> bool) (f : A -> B) (l : list A) :
  List.filter P (map f l) = map f (List.filter (fun a => P (f a)) l).
Proof.
  induction l as [|a l IH]; [done|]. simpl. destruct (P (f a)); simpl; by rewrite IH.
Qed.

Lemma StronglySorted_map {A B} (R : relation A) (R' : relation B) (Inv : A -> Prop)
    (f : A -> B) (l : list A) :
  (forall a b, Inv a -> Inv b -> R a b -> R' (f a) (f b)) ->
  Forall Inv l -> StronglySorted R l -> StronglySorted R' (map f l).
Proof.
  intros HR Hinv Hs. induction Hs as [|a l Hl IH Ha]; simpl; [constructor|].
  inversion Hinv as [|? ? Hia Hil]; subst.
  constructor; [by apply IH|].
  apply Forall_forall. intros b (c & -> & Hc)%list_elem_of_fmap.
  apply HR; [done| |].
  - by eapply Forall_forall in Hil.
  - by eapply Forall_forall in Ha.
Qed.

Lemma key_le_total a b : Seasonal.key_le a b = true \/ Seasonal.key_le b a = true.
Proof.
  destruct a as [[y1 m1] r1], b as [[y2 m2] r2]. unfold Seasonal.key_le.
  destruct (Z.ltb_spec y1 y2), (Z.ltb_spec y2 y1), (Z.eqb_spec y1 y2), (Z.eqb_spec y2 y1),
    (Z.leb_spec m1 m2), (Z.leb_spec m2 m1); simpl; try lia; auto.
Qed.

Lemma key_le_trans a b c :
  Seasonal.key_le a b = true -> Seasonal.key_le b c = true -> Seasonal.key_le a c = true.
Proof.
  destruct a as [[y1 m1] r1], b as [[y2 m2] r2], c as [[y3 m3] r3]. unfold Seasonal.key_le.
  destruct (Z.ltb_spec y1 y2), (Z.ltb_spec y2 y3), (Z.ltb_spec y1 y3), (Z.eqb_spec y1 y2),
    (Z.eqb_spec y2 y3), (Z.eqb_spec y1 y3), (Z.leb_spec m1 m2), (Z.leb_spec m2 m3),
    (Z.leb_spec m1 m3); simpl; try lia; auto.
Qed.

Lemma sort_keys rasters :
  forallb observation_ok rasters = true ->
  exists keyed, mapM Seasonal.sort_key rasters = Ok keyed
    /\ map snd keyed = rasters
    /\ Forall (fun k : Z * Z * (Z * string * string) =>
                 k.1.1 = k.2.1.1 /\ k.1.2 = month_number k.2) keyed.
Proof.
  intros Hall. induction rasters as [|[[y m] f] rasters IH]; [by exists []|].
  simpl in Hall. apply andb_true_iff in Hall as [Hr Hall].
  destruct (IH Hall) as (keyed & Hrun & Hk & Hinv).
  unfold observation_ok, numeric in Hr. simpl in Hr.
  destruct (Py.int m) as [m_int|] eqn:Hint; [|done].
  assert (Hkey : Seasonal.sort_key (y, m, f) = Ok (y, m_int, (y, m, f)))
    by (unfold Seasonal.sort_key, Seasonal.int; by rewrite Hint).
  exists ((y, m_int, (y, m, f)) :: keyed). split; [|split].
  - cbn [mapM]. rewrite Hkey, res_bind_Ok, Hrun. reflexivity.
  - by rewrite <- Hk.
  - constructor; [|done]. unfold month_number. simpl. by rewrite Hint.
Qed.

(** X7.  Sorting the observations whose months are numbers succeeds and
    puts them in chronological order, by year and then by month number;
    the sort is stable, so the observations of one year and month keep
    the order in which the traversal found them. *)
Theorem sort_rasters_chronological_and_stable (rasters : list (Z * string * string)) :
  forallb observation_ok rasters = true ->
  exists rasters',
    Seasonal.sort_rasters rasters = Ok rasters'
    /\ rasters' ≡ₚ rasters
    /\ StronglySorted chronological rasters'
    /\ forall y m, List.filter (of_month y m) rasters' = List.filter (of_month y m) rasters.
Proof.
  intros Hall. destruct (sort_keys rasters Hall) as (keyed & Hrun & Hk & Hinv).
  exists (map snd (sorted Seasonal.key_le keyed)).
  assert (Hperm : sorted Seasonal.key_le keyed ≡ₚ keyed) by apply sorted_Permutation.
  split; [|split; [|split]].
  - unfold Seasonal.sort_rasters. by rewrite Hrun.
  - rewrite <- Hk. by apply Permutation_map.
  - apply (StronglySorted_map (fun a b => Seasonal.key_le a b = true) chronological
             (fun k => k.1.1 = k.2.1.1 /\ k.1.2 = month_number k.2)).
    + intros [[y1 m1] r1] [[y2 m2] r2] [Hy1 Hm1] [Hy2 Hm2]. simpl in *. subst.
      unfold chronological. simpl.
      destruct (Z.ltb_spec r1.1.1 r2.1.1), (Z.eqb_spec r1.1.1 r2.1.1),
        (Z.leb_spec (month_number r1) (month_number r2)); simpl; try done; lia.
    + by rewrite Hperm.
    + apply sorted_StronglySorted; [apply key_le_total|apply key_le_trans].
  - intros y m. rewrite <- Hk, !filter_map. f_equal.
    apply sorted_filter.
    intros [[y1 m1] r1] [[y2 m2] r2] H1 H2 HP1 HP2.
    eapply Forall_forall in H1; [|exact Hinv]. eapply Forall_forall in H2; [|exact Hinv].
    simpl in *. destruct H1 as [-> ->], H2 as [-> ->].
    unfold of_month in *. apply andb_true_iff in HP1 as [?%Z.eqb_eq ?%Z.eqb_eq].
    apply andb_true_iff in HP2 as [?%Z.eqb_eq ?%Z.eqb_eq].
    destruct (Z.ltb_spec r1.1.1 r2.1.1), (Z.eqb_spec r1.1.1 r2.1.1),
      (Z.leb_spec (month_number r1) (month_number r2)); simpl; try done; lia.
Qed.

Lemma sort_rasters_chronological_and_stable_witness :
  exists rasters',
    Seasonal.sort_rasters unsorted = Ok rasters'
    /\ rasters' ≡ₚ unsorted
    /\ StronglySorted chronological rasters'
    /\ forall y m, List.filter (of_month y m) rasters' = List.filter (of_month y m) unsorted.
Proof. apply (sort_rasters_chronological_and_stable unsorted). reflexivity. Defined.

(** *** The observations of a seasonal run *)

Lemma digit_value_bounds c : Py.is_digit c = true -> 0 <= Py.digit_value c <= 9.
Proof.
  unfold Py.is_digit, Py.digit_value.
  intros [H1%Nat.leb_le H2%Nat.leb_le]%andb_true_iff. lia.
Qed.

Lemma four_digits_int (y1 y2 y3 y4 : ascii) :
  Py.is_digit y1 = true -> Py.is_digit y2 = true ->
  Py.is_digit y3 = true -> Py.is_digit y4 = true ->
  exists v, Py.int (String y1 (String y2 (String y3 (String y4 EmptyString)))) = Some v
       /\ 0 <= v <= 9999.
Proof.
  intros H1 H2 H3 H4.
  exists (10 * (10 * (10 * (10 * 0 + Py.digit_value y1) + Py.digit_value y2)
                + Py.digit_value y3) + Py.digit_value y4).
  split.
  - assert (Hd : Py.int_digits 0 false
                   (String y1 (String y2 (String y3 (String y4 EmptyString))))
                 = Some (10 * (10 * (10 * (10 * 0 + Py.digit_value y1) + Py.digit_value y2)
                               + Py.digit_value y3) + Py.digit_value y4))
      by (simpl; by rewrite H1, H2, H3, H4).
    unfold Py.int.
    destruct y1 as [[] [] [] [] [] [] [] []]; try discriminate H1; by rewrite Hd.
  - apply digit_value_bounds in H1, H2, H3, H4. lia.
Qed.

Lemma match_date_groups s y m :
  Re.match_date s = Some (y, m) ->
  (exists v, Py.int y = Some v /\ 0 <= v <= 9999)
  /\ String.length m = 2%nat /\ numeric m = true.
Proof.
  intros Hm. split; [|split; [|by eapply match_date_numeric]].
  - revert Hm. do 10 (destruct s as [|? s]; [done|]). unfold Re.match_date.
    match goal with |- context [if ?b then _ else _] => destruct b eqn:Hb end; [|done].
    intros [= <- _]. do 9 (apply andb_true_iff in Hb as [Hb ?]).
    by apply four_digits_int.
  - revert Hm. do 10 (destruct s as [|? s]; [done|]). unfold Re.match_date.
    match goal with |- context [if ?b then _ else _] => destruct b end; [|done].
    by intros [= _ <-].
Qed.

Lemma search_date_groups s y m :
  Re.search_date s = Some (y, m) ->
  (exists v, Py.int y = Some v /\ 0 <= v <= 9999)
  /\ String.length m = 2%nat /\ numeric m = true.
Proof.
  induction s as [|c s IH]; [done|]. cbn [Re.search_date].
  destruct (Re.match_date (String c s)) as [[y0 m0]|] eqn:Hm.
  - intros [= <- <-]. by eapply match_date_groups.
  - apply IH.
Qed.

Lemma length_append (s1 s2 : string) :
  String.length (s1 +:+ s2) = (String.length s1 + String.length s2)%nat.
Proof. induction s1 as [|c s1 IH]; simpl; [done|]. by rewrite IH. Qed.

Lemma lower_length s : String.length (Py.lower s) = String.length s.
Proof. induction s as [|c s IH]; simpl; [done|]. by rewrite IH. Qed.

Lemma path_join_nonempty root fname :
  Py.endswith (Py.lower fname) ".tif" = true -> Py.path_join root fname <> "".
Proof.
  unfold Py.endswith. rewrite lower_length. simpl String.length.
  intros [Hlen%Nat.leb_le _]%andb_true_iff.
  assert (Hne : forall s, (1 <= String.length s)%nat -> s <> "")
    by (intros s Hs ->; simpl in Hs; lia).
  unfold Py.path_join. destruct (String.prefix "/" fname); [apply Hne; lia|].
  destruct (_ || _); apply Hne; rewrite !length_append; lia.
Qed.

Lemma collect_spec root fname rasters fb :
  Seasonal.collect root fname rasters fb
  = match observation_of root fname with
    | Some r => (fb, Ok (rasters ++ [r]))
    | None =>
        if Py.endswith (Py.lower fname) ".tif"
        then (report (PushWarning (SkippingBadName fname)) fb, Ok rasters)
        else (fb, Ok rasters)
    end.
Proof.
  unfold Seasonal.collect, observation_of.
  destruct (Py.endswith (Py.lower fname) ".tif"); simpl; [|done].
  unfold Seasonal.extract_year_month.
  destruct (Re.search_date fname) as [[ys m]|] eqn:Hs; [|done].
  destruct (search_date_groups _ _ _ Hs) as ((v & Hv & _) & Hlen & _).
  rewrite Hv. simpl.
  assert (Hm : String.eqb m "" = false) by (apply String.eqb_neq; by intros ->).
  rewrite Hm, orb_false_r. by destruct (v =? 0).
Qed.

Lemma observation_of_valid root fname r :
  observation_of root fname = Some r -> valid_observation r.
Proof.
  unfold observation_of, Seasonal.extract_year_month.
  destruct (Py.endswith (Py.lower fname) ".tif") eqn:Htif; [|done].
  destruct (Re.search_date fname) as [[ys m]|] eqn:Hs; [|done].
  destruct (search_date_groups _ _ _ Hs) as ((v & Hv & Hrange) & Hlen & Hnum).
  rewrite Hv. simpl. destruct (Z.eqb_spec v 0); [done|].
  intros [= <-]. unfold valid_observation. simpl.
  split; [lia|]. split; [done|]. split; [done|]. by apply path_join_nonempty.
Qed.

Lemma collect_all_spec root files rasters fb :
  exists es,
    for_M (Seasonal.collect root) files rasters fb
    = (reports es fb, Ok (rasters ++ omap (observation_of root) files))
    /\ forallb is_skip_warning es = true.
Proof.
  revert rasters fb. induction files as [|fname files IH]; intros rasters fb.
  - exists []. by rewrite reports_nil, app_nil_r.
  - cbn [for_M]. unfold mbind, M_bind at 1. rewrite collect_spec. csimpl.
    destruct (observation_of root fname) as [r|].
    + destruct (IH (rasters ++ [r]) fb) as (es & -> & Hes).
      exists es. by rewrite <- app_assoc.
    + destruct (Py.endswith (Py.lower fname) ".tif").
      * destruct (IH rasters (report (PushWarning (SkippingBadName fname)) fb))
          as (es & -> & Hes).
        exists (PushWarning (SkippingBadName fname) :: es). split; [|done].
        f_equal. unfold reports, report. simpl. by rewrite <- app_assoc.
      * destruct (IH rasters fb) as (es & -> & Hes). by exists es.
Qed.

Lemma Seasonal_scan_spec (w : World) (input_folder : string) (fb : Feedback) :
  exists es,
    Seasonal.scan w input_folder fb
    = (reports es fb,
       Ok (walk w input_folder ≫= fun '(root, files) => omap (observation_of root) files))
    /\ forallb is_skip_warning es = true
    /\ Forall valid_observation
         (walk w input_folder ≫= fun '(root, files) => omap (observation_of root) files).
Proof.
  assert (Hgen : forall dirs rasters fb0, exists es,
    for_M (fun '(root, files) rasters => for_M (Seasonal.collect root) files rasters)
          dirs rasters fb0
    = (reports es fb0,
       Ok (rasters ++ (dirs ≫= fun '(root, files) => omap (observation_of root) files)))
    /\ forallb is_skip_warning es = true).
  { induction dirs as [|[root files] dirs IH]; intros rasters fb0.
    - exists []. by rewrite reports_nil, app_nil_r.
    - cbn [for_M]. unfold mbind at 1, M_bind at 1.
      destruct (collect_all_spec root files rasters fb0) as (es1 & -> & Hes1).
      destruct (IH (rasters ++ omap (observation_of root) files) (reports es1 fb0))
        as (es2 & -> & Hes2).
      exists (es1 ++ es2). split.
      + rewrite reports_app. csimpl. by rewrite <- app_assoc.
      + rewrite forallb_app. by rewrite Hes1, Hes2. }
  destruct (Hgen (walk w input_folder) [] fb) as (es & Hrun & Hes).
  exists es. split; [exact Hrun|]. split; [done|].
  apply Forall_forall. intros r Hr.
  apply list_elem_of_bind in Hr as ([root files] & Hr & _).
  apply list_elem_of_omap in Hr as (fname & _ & Hobs).
  by eapply observation_of_valid.
Qed.

Lemma digit_value_inj a b : Py.digit_value a = Py.digit_value b -> a = b.
Proof.
  unfold Py.digit_value. intros H.
  rewrite <- (ascii_nat_embedding a), <- (ascii_nat_embedding b). f_equal. lia.
Qed.

Lemma find_seq_Some (P : nat -> bool) (a n i : nat) :
  find P (seq a n) = Some i ->
  (a <= i < a + n)%nat /\ P i = true /\ forall j : nat, (a <= j < i)%nat -> P j = false.
Proof.
  revert a. induction n as [|n IH]; intros a; simpl; [done|].
  destruct (P a) eqn:Ha.
  - intros [= <-]. split; [lia|]. split; [done|]. intros j Hj. lia.
  - intros Hfind. destruct (IH _ Hfind) as (Hi & HP & Hmin).
    split; [lia|]. split; [done|]. intros j Hj.
    destruct (decide (j = a)) as [->|Hne]; [done|]. apply Hmin. lia.
Qed.

Lemma find_seq_None (P : nat -> bool) (a n : nat) :
  find P (seq a n) = None -> forall j : nat, (a <= j < a + n)%nat -> P j = false.
Proof.
  revert a. induction n as [|n IH]; intros a; simpl; [intros _ j Hj; lia|].
  destruct (P a) eqn:Ha; [done|]. intros Hfind j Hj.
  destruct (decide (j = a)) as [->|Hne]; [done|]. apply (IH _ Hfind). lia.
Qed.

Lemma get_lt (s : string) (i : nat) (c : ascii) :
  String.get i s = Some c -> (i < String.length s)%nat.
Proof.
  revert i. induction s as [|c' s IH]; intros [|i]; simpl; try done; [lia|].
  intros H%IH. lia.
Qed.

Lemma date_at_lt (s : string) (i : nat) : date_at s i = true -> (i < String.length s)%nat.
Proof.
  unfold date_at. intros H. repeat (apply andb_true_iff in H as [H _]).
  unfold digit_at in H. destruct (String.get i s) as [c|] eqn:Hget; [|done].
  by eapply get_lt.
Qed.

Lemma first_date_leftmost (s : string) (i : nat) :
  first_date s = Some i <->
  date_at s i = true /\ forall j : nat, (j < i)%nat -> date_at s j = false.
Proof.
  unfold first_date. split.
  - intros (Hi & HP & Hmin)%find_seq_Some. split; [done|]. intros j Hj. apply Hmin. lia.
  - intros [HP Hmin]. pose proof (date_at_lt s i HP) as Hlt.
    destruct (find (date_at s) (seq 0 (String.length s))) as [i'|] eqn:Hfind.
    + apply find_seq_Some in Hfind as (Hi' & HP' & Hmin').
      destruct (Nat.lt_trichotomy i i') as [Hlt'|[->|Hlt']]; [|done|].
      * rewrite Hmin' in HP by lia. done.
      * rewrite Hmin in HP' by lia. done.
    + rewrite (find_seq_None _ _ _ Hfind i) in HP by lia. done.
Qed.

Lemma search_date_first (s : string) :
  match Re.search_date s with
  | Some (y, m) =>
      exists i : nat, first_date s = Some i
        /\ y = substring i 4 s /\ m = substring (i + 5) 2 s
  | None => first_date s = None
  end.
Proof.
  destruct (Re.search_date s) as [[y m]|] eqn:Hs.
  - apply search_date_spec in Hs as (i & Hi & Hmin & -> & ->).
    exists i. split; [|done]. by apply first_date_leftmost.
  - destruct (first_date s) as [i|] eqn:Hf; [|done].
    apply first_date_leftmost in Hf as [Hi _].
    rewrite (proj1 (search_date_None s) Hs i) in Hi. done.
Qed.

Lemma four_digits_value (y1 y2 y3 y4 : ascii) :
  Py.is_digit y1 = true -> Py.is_digit y2 = true ->
  Py.is_digit y3 = true -> Py.is_digit y4 = true ->
  Py.int (String y1 (String y2 (String y3 (String y4 EmptyString))))
  = Some (1000 * Py.digit_value y1 + 100 * Py.digit_value y2
          + 10 * Py.digit_value y3 + Py.digit_value y4).
Proof.
  intros H1 H2 H3 H4.
  assert (Hd : Py.int_digits 0 false
                 (String y1 (String y2 (String y3 (String y4 EmptyString))))
               = Some (10 * (10 * (10 * (10 * 0 + Py.digit_value y1) + Py.digit_value y2)
                             + Py.digit_value y3) + Py.digit_value y4))
    by (simpl; by rewrite H1, H2, H3, H4).
  unfold Py.int.
  destruct y1 as [[] [] [] [] [] [] [] []]; try discriminate H1; rewrite Hd; f_equal; lia.
Qed.

Lemma match_date_year_zero s y m v :
  Re.match_date s = Some (y, m) -> Py.int y = Some v -> v = 0 <-> y = "0000".
Proof.
  do 10 (destruct s as [|? s]; [done|]). unfold Re.match_date.
  match goal with |- context [if ?b then _ else _] => destruct b eqn:Hb end; [|done].
  intros [= <- _]. do 9 (apply andb_true_iff in Hb as [Hb ?]).
  rewrite four_digits_value by done. intros [= <-].
  repeat match goal with
         | H : Py.is_digit ?c = true |- _ =>
             pose proof (digit_value_bounds c H); clear H
         end.
  split.
  - intros Hz.
    assert (E1 : Py.digit_value a = Py.digit_value "0")
      by (change (Py.digit_value "0") with 0; lia).
    assert (E2 : Py.digit_value a0 = Py.digit_value "0")
      by (change (Py.digit_value "0") with 0; lia).
    assert (E3 : Py.digit_value a1 = Py.digit_value "0")
      by (change (Py.digit_value "0") with 0; lia).
    assert (E4 : Py.digit_value a2 = Py.digit_value "0")
      by (change (Py.digit_value "0") with 0; lia).
    apply digit_value_inj in E1, E2, E3, E4. by subst.
  - intros [= -> -> -> ->]. reflexivity.
Qed.

Lemma search_date_year_zero s y m v :
  Re.search_date s = Some (y, m) -> Py.int y = Some v -> v = 0 <-> y = "0000".
Proof.
  induction s as [|c s IH]; [done|]. cbn [Re.search_date].
  destruct (Re.match_date (String c s)) as [[y0 m0]|] eqn:Hm.
  - intros [= <- <-]. by eapply match_date_year_zero.
  - apply IH.
Qed.

Lemma observation_of_kept root fname :
  match observation_of root fname with
  | Some r => kept fname = true /\ observes (root, fname) r
  | None => kept fname = false
  end.
Proof.
  unfold observation_of, kept, Seasonal.extract_year_month, observes.
  destruct (Py.endswith (Py.lower fname) ".tif"); [|done]. simpl.
  pose proof (search_date_first fname) as Hfirst.
  destruct (Re.search_date fname) as [[y m]|] eqn:Hs; [|by rewrite Hfirst].
  destruct Hfirst as (i & Hi & Hy & Hm). rewrite Hi.
  destruct (search_date_groups _ _ _ Hs) as ((v & Hv & _) & _ & _).
  pose proof (search_date_year_zero _ _ _ _ Hs Hv) as Hzero.
  rewrite Hv. simpl. rewrite <- Hy.
  destruct (Z.eqb_spec v 0) as [Hv0|Hv0].
  - apply Hzero in Hv0 as ->. reflexivity.
  - assert (Hne : String.eqb y "0000" = false).
    { apply String.eqb_neq. intros Heq. by apply Hv0, Hzero. }
    rewrite Hne. split; [done|]. exists i. simpl. by subst.
Qed.

Lemma collect_all_exact root files rasters fb :
  for_M (Seasonal.collect root) files rasters fb
  = (reports (map (fun fname => PushWarning (SkippingBadName fname))
                  (List.filter skipped files)) fb,
     Ok (rasters ++ omap (observation_of root) files)).
Proof.
  revert rasters fb. induction files as [|fname files IH]; intros rasters fb.
  - simpl. by rewrite reports_nil, app_nil_r.
  - cbn [for_M]. unfold mbind, M_bind at 1. rewrite collect_spec. csimpl.
    pose proof (observation_of_kept root fname) as Hk. unfold skipped.
    destruct (observation_of root fname) as [r|].
    + destruct Hk as [-> _]. rewrite andb_false_r, IH. by rewrite <- app_assoc.
    + rewrite Hk, andb_true_r. destruct (Py.endswith (Py.lower fname) ".tif").
      * rewrite IH. simpl. f_equal.
        unfold reports, report. simpl. by rewrite <- app_assoc.
      * by rewrite IH.
Qed.

Lemma filter_bind {A B} (P : B -> bool) (g : A -> list B) (l : list A) :
  List.filter P (l ≫= g) = l ≫= fun a => List.filter P (g a).
Proof.
  induction l as [|a l IH]; [done|]. csimpl. by rewrite List.filter_app, IH.
Qed.

Lemma Seasonal_scan_exact (w : World) (input_folder : string) (fb : Feedback) :
  Seasonal.scan w input_folder fb
  = (reports (skip_warnings w input_folder) fb,
     Ok (walk w input_folder ≫= fun '(root, files) => omap (observation_of root) files)).
Proof.
  unfold Seasonal.scan, skip_warnings, files_under.
  assert (Hgen : forall dirs rasters fb0,
    for_M (fun '(root, files) rasters => for_M (Seasonal.collect root) files rasters)
          dirs rasters fb0
    = (reports
         (map (fun rf : string * string => PushWarning (SkippingBadName rf.2))
              (List.filter (fun rf : string * string => skipped rf.2)
                 (dirs ≫= fun '(root, files) => map (pair root) files))) fb0,
       Ok (rasters ++ (dirs ≫= fun '(root, files) => omap (observation_of root) files)))).
  { induction dirs as [|[root files] dirs IH]; intros rasters fb0.
    - simpl. by rewrite reports_nil, app_nil_r.
    - cbn [for_M]. unfold mbind at 1, M_bind at 1.
      rewrite collect_all_exact, IH, reports_app. csimpl.
      rewrite List.filter_app, map_app, <- app_assoc. do 3 f_equal.
      clear. induction files as [|f files IHf]; [done|]. simpl.
      destruct (skipped f); simpl; by rewrite IHf. }
  by rewrite Hgen.
Qed.

Lemma observed_files root files :
  Forall2 observes (List.filter (fun rf : string * string => kept rf.2)
                      (map (pair root) files))
          (omap (observation_of root) files).
Proof.
  induction files as [|fname files IH]; [constructor|]. csimpl.
  pose proof (observation_of_kept root fname) as Hk.
  destruct (observation_of root fname) as [r|].
  - destruct Hk as [-> Hobs]. by constructor.
  - by rewrite Hk.
Qed.

(** X8.  The traversal of the seasonal algorithm never fails.  It keeps
    the TIFFs whose name holds a date YYYY-MM-DD, the leftmost of which
    has a year other than 0000, in traversal order, each as the year and
    the month of that date with the path of the file; it passes over
    every other TIFF with one warning that names it, in traversal order,
    and reports nothing else.  Every observation kept has a year from 1
    to 9999, a two-digit numeric month and a non-empty path. *)
Theorem seasonal_scan_keeps_valid_observations
    (w : World) (input_folder : string) (fb : Feedback) :
  exists rasters,
    Seasonal.scan w input_folder fb
    = (reports (skip_warnings w input_folder) fb, Ok rasters)
    /\ Forall2 observes
         (List.filter (fun rf : string * string => kept rf.2)
            (files_under w input_folder))
         rasters
    /\ Forall valid_observation rasters
    /\ (Seasonal.scan mixed_world "in" quiet).2 = Ok [(2023, "01", "in/f_2023-01-05.tif")]
    /\ skip_warnings mixed_world "in"
       = [PushWarning (SkippingBadName "g_0000-01-05.tif");
          PushWarning (SkippingBadName "h.tif")].
Proof.
  eexists. split; [apply Seasonal_scan_exact|]. split; [|split; [|done]].
  - unfold files_under. rewrite filter_bind.
    induction (walk w input_folder) as [|[root files] dirs IH]; [constructor|].
    csimpl. apply Forall2_app; [apply observed_files|apply IH].
  - apply Forall_forall. intros r Hr.
    apply list_elem_of_bind in Hr as ([root files] & Hr & _).
    apply list_elem_of_omap in Hr as (fname & _ & Hobs).
    by eapply observation_of_valid.
Qed.

(** *** The season-years of a seasonal run *)

Lemma dict_get_elem k v (d : list (string * list string)) :
  NoDup d.*1 -> (k, v) ∈ d -> Seasonal.dict_get k d = Ok v.
Proof.
  unfold Seasonal.dict_get. induction d as [|[k' v'] d IH]; csimpl.
  - by intros _ ?%elem_of_nil.
  - intros [Hk Hnd]%NoDup_cons [[= <- <-]|Hin]%elem_of_cons.
    + by rewrite String.eqb_refl.
    + destruct (String.eqb_spec k' k) as [->|Hne]; simpl.
      * destruct Hk. apply list_elem_of_fmap. by exists (k, v).
      * by apply IH.
Qed.

Lemma add_season_ok rasters name months mp :
  season_ok (name, months) = true -> forallb observation_ok rasters = true ->
  exists mp', Seasonal.add_season rasters (name, months) mp = Ok mp'.
Proof.
  intros Hs Hrasters. unfold Seasonal.add_season, Seasonal.int.
  unfold season_ok, numeric in Hs. simpl in Hs.
  destruct months as [|m0 months]; [done|].
  destruct (Py.int m0) as [first|]; [|done]. simpl.
  by apply add_rasters_ok.
Qed.

Lemma add_season_bad rasters name months mp :
  months <> [] -> season_ok (name, months) = false ->
  Seasonal.add_season rasters (name, months) mp = Raise ValueError.
Proof.
  intros Hne Hs. unfold Seasonal.add_season, Seasonal.int.
  unfold season_ok, numeric in Hs. simpl in Hs.
  destruct months as [|m0 months]; [done|].
  by destruct (Py.int m0).
Qed.

Lemma add_seasons_outcome rasters seasons mp :
  Forall (fun s : string * list string => s.2 <> []) seasons ->
  forallb observation_ok rasters = true ->
  match for_res (Seasonal.add_season rasters) seasons mp with
  | Ok _ => forallb season_ok seasons = true
  | Raise e => e = ValueError /\ forallb season_ok seasons = false
  end.
Proof.
  intros Hne Hrasters. revert mp.
  induction Hne as [|[name months] seasons Hm _ IH]; intros mp; [done|].
  cbn [for_res forallb]. destruct (season_ok (name, months)) eqn:Hs.
  - destruct (add_season_ok rasters name months mp Hs Hrasters) as [mp' ->].
    rewrite res_bind_Ok. apply IH.
  - by rewrite add_season_bad.
Qed.

(** X9.  The map of season-years is built exactly when the first month
    of every season is a number; otherwise the run raises ValueError,
    whatever the rasters are, even when there is none. *)
Theorem season_map_needs_numeric_first_months
    (cells : list string) (seasons : list (string * list string))
    (rasters : list (Z * string * string)) :
  Seasonal.read_seasons cells [] = Ok seasons ->
  forallb observation_ok rasters = true ->
  match Seasonal.build_season_raster_map seasons rasters with
  | Ok _ => forallb season_ok seasons = true
  | Raise e => e = ValueError /\ forallb season_ok seasons = false
  end.
Proof.
  intros Hread Hrasters. apply add_seasons_outcome; [|done].
  apply Forall_forall. intros [name months] Hin. simpl.
  destruct (read_seasons_entries _ _ _ Hread name months Hin)
    as [Hnil|(_ & ms & _ & _ & ->)]; [by apply elem_of_nil in Hnil|].
  apply months_of_nonempty.
Qed.

Lemma season_map_needs_numeric_first_months_witness :
  match Seasonal.build_season_raster_map [("wet", ["june"; "july"])] [] with
  | Ok _ => forallb season_ok [("wet", ["june"; "july"])] = true
  | Raise e => e = ValueError /\ forallb season_ok [("wet", ["june"; "july"])] = false
  end.
Proof.
  apply (season_map_needs_numeric_first_months ["wet"; "june,july"]
           [("wet", ["june"; "july"])] []); reflexivity.
Defined.

Lemma bucket_name_in_seasons seasons rasters mp sy name month_files :
  Seasonal.build_season_raster_map seasons rasters = Ok mp ->
  mp !! (sy, name) = Some month_files -> name ∈ seasons.*1.
Proof.
  intros Hbuild Hmp. destruct (decide (name ∈ seasons.*1)) as [|Hnotin]; [done|].
  pose proof (seasons_other_bucket _ _ _ _ sy name Hbuild Hnotin) as Hb.
  rewrite Hmp, lookup_empty in Hb. simpl in Hb. subst.
  by apply season_raster_map_nonempty with (key := (sy, name)) in Hbuild.
Qed.

Lemma first_of_month_Some m (month_files : list (Z * string * string)) r :
  r ∈ month_files -> r.1.2 = m ->
  exists y f, Seasonal.first_of_month m month_files = Some (y, f)
         /\ (y, m, f) ∈ month_files.
Proof.
  intros Hin Hm. unfold Seasonal.first_of_month.
  destruct (find (fun r0 : Z * string * string => String.eqb r0.1.2 m) month_files)
    as [[[y m'] f]|] eqn:Hfind.
  - exists y, f. split; [done|].
    apply find_some in Hfind as [Hf Heq]. simpl in Heq.
    apply String.eqb_eq in Heq as ->. by apply list_elem_of_In.
  - apply find_none with (x := r) in Hfind; [|by apply list_elem_of_In].
    simpl in Hfind. rewrite Hm, String.eqb_refl in Hfind. done.
Qed.

(** X10.  Every season-year of the map has a raster to take the grid
    from: its season is in the dictionary, and at least one slot of its
    file list is present, so the metadata is always read from a raster of
    the season-year itself, never left over from the previous one. *)
Theorem season_year_has_a_reference_raster
    (w : World) (cells : list string) (seasons : list (string * list string))
    (rasters : list (Z * string * string))
    (mp : gmap (Z * string) (list (Z * string * string)))
    (season_year : Z) (season_name : string) (month_files : list (Z * string * string)) :
  Seasonal.read_seasons cells [] = Ok seasons ->
  Seasonal.build_season_raster_map seasons rasters = Ok mp ->
  Forall valid_observation rasters ->
  mp !! (season_year, season_name) = Some month_files ->
  exists season_months first y m,
    Seasonal.dict_get season_name seasons = Ok season_months
    /\ find Seasonal.truthy (Seasonal.fill_months season_year season_months month_files).1
       = Some (Some first)
    /\ (y, m, first) ∈ month_files
    /\ forall previous,
         Seasonal.first_available w
           (Seasonal.fill_months season_year season_months month_files).1 previous
         = match Open w first with
           | Some ds =>
               Ok (Some (GeoTransform ds, Projection ds, RasterXSize ds, RasterYSize ds))
           | None => Raise (AttributeError "GetGeoTransform")
           end.
Proof.
  intros Hread Hbuild Hvalid Hmp.
  assert (Hnd : NoDup seasons.*1) by (apply (read_seasons_NoDup _ _ _ Hread); constructor).
  pose proof (bucket_name_in_seasons _ _ _ _ _ _ Hbuild Hmp) as Hname.
  apply list_elem_of_fmap in Hname as ([name months] & Heq & Hin). simpl in Heq. subst name.
  destruct (season_raster_map_bucket _ _ _ _ _ Hbuild Hnd Hin) as (fm & _ & Hbucket).
  specialize (Hbucket season_year). rewrite Hmp in Hbucket. simpl in Hbucket.
  assert (Hsub : forall r, r ∈ month_files -> r ∈ rasters /\ r.1.2 ∈ months).
  { intros r Hr. rewrite Hbucket in Hr.
    apply list_elem_of_In, filter_In in Hr as [Hr Hs]. split; [by apply list_elem_of_In|].
    unfold in_season in Hs. apply andb_true_iff in Hs as [Hs _].
    by apply bool_decide_eq_true in Hs. }
  destruct month_files as [|r0 rest] eqn:Hmf.
  { by apply season_raster_map_nonempty with (key := (season_year, season_name)) in Hbuild. }
  rewrite <- Hmf in *.
  assert (Hr0 : r0 ∈ month_files) by (rewrite Hmf; by left).
  destruct (Hsub r0 Hr0) as [_ Hm0].
  destruct (first_of_month_Some r0.1.2 month_files r0 Hr0 eq_refl) as (y0 & f0 & Hf0 & Hin0).
  assert (Hex : exists slot, slot ∈ (Seasonal.fill_months season_year months month_files).1
                        /\ Seasonal.truthy slot = true).
  { exists (Some f0). split.
    - rewrite fill_months_spec. simpl. apply list_elem_of_fmap. exists r0.1.2.
      by rewrite Hf0.
    - destruct (Hsub _ Hin0) as [Hras _].
      eapply Forall_forall in Hras; [|exact Hvalid].
      destruct Hras as (_ & _ & _ & Hpath). simpl in *.
      by apply String.eqb_neq in Hpath as ->. }
  destruct Hex as (slot & Hslot & Htruthy).
  destruct (find Seasonal.truthy (Seasonal.fill_months season_year months month_files).1)
    as [found|] eqn:Hfind.
  2:{ apply find_none with (x := slot) in Hfind; [congruence|by apply list_elem_of_In]. }
  pose proof Hfind as Hfound. apply find_some in Hfound as [Hfin Hft].
  destruct found as [first|]; [|done].
  rewrite fill_months_spec in Hfin. simpl in Hfin.
  apply list_elem_of_In, list_elem_of_fmap in Hfin as (m & Hm & _).
  destruct (Seasonal.first_of_month m month_files) as [[y f]|] eqn:Hfm; [|done].
  simpl in Hm. injection Hm as ->.
  unfold Seasonal.first_of_month in Hfm.
  destruct (find (fun r : Z * string * string => String.eqb r.1.2 m) month_files)
    as [[[y' m'] f']|] eqn:Hfind'; [|done].
  injection Hfm as -> ->.
  apply find_some in Hfind' as [Hin' _].
  exists months, f, y, m'. split; [by apply dict_get_elem|]. split; [done|].
  split; [by apply list_elem_of_In|].
  intros previous. unfold Seasonal.first_available. rewrite Hfind. simpl.
  by destruct (Open w f).
Qed.

Lemma season_year_has_a_reference_raster_witness :
  exists season_months first y m,
    Seasonal.dict_get "DJF" [("DJF", ["12"; "01"; "02"])] = Ok season_months
    /\ find Seasonal.truthy
         (Seasonal.fill_months 2022 season_months [(2023, "01", "in/jan.tif")]).1
       = Some (Some first)
    /\ (y, m, first) ∈ [(2023, "01", "in/jan.tif")]
    /\ forall previous,
         Seasonal.first_available winter_world
           (Seasonal.fill_months 2022 season_months [(2023, "01", "in/jan.tif")]).1 previous
         = match Open winter_world first with
           | Some ds =>
               Ok (Some (GeoTransform ds, Projection ds, RasterXSize ds, RasterYSize ds))
           | None => Raise (AttributeError "GetGeoTransform")
           end.
Proof.
  apply (season_year_has_a_reference_raster winter_world ["DJF"; "12,01,02"]
           [("DJF", ["12"; "01"; "02"])]
           [(2023, "01", "in/jan.tif"); (2023, "12", "in/dec.tif")]
           (<[(2023, "DJF") := [(2023, "12", "in/dec.tif")]]>
              (<[(2022, "DJF") := [(2023, "01", "in/jan.tif")]]> ∅))
           2022 "DJF" [(2023, "01", "in/jan.tif")]).
  - reflexivity.
  - vm_compute. reflexivity.
  - repeat constructor; simpl; try lia; discriminate.
  - vm_compute. reflexivity.
Defined.

(** *** Monthly frequency: the run *)

Lemma classify_spec root fname (m : gmap string (list string)) fb :
  (forall mm, m !! mm <> Some []) ->
  exists fb' m',
    Monthly.classify root fname m fb = (fb', Ok m')
    /\ (forall mm, m' !! mm <> Some [])
    /\ forall mm, default [] (m' !! mm)
                  = default [] (m !! mm) ++ option_list (monthly_file mm root fname).
Proof.
  intros Hinv. unfold Monthly.classify, monthly_file.
  destruct (Py.endswith (Py.lower fname) ".tif"); simpl.
  2:{ exists fb, m. split; [done|]. split; [done|]. intros mm. by rewrite app_nil_r. }
  destruct (Monthly.month_of fname) as [month|] eqn:Hmonth.
  2:{ eexists _, m. split; [reflexivity|]. split; [done|]. intros mm.
      rewrite bool_decide_eq_false_2 by done. by rewrite app_nil_r. }
  eexists _, _. split; [reflexivity|]. split.
  - intros mm. destruct (decide (mm = month)) as [->|Hne].
    + rewrite lookup_insert_eq. intros [= H]. by destruct (default [] (m !! month)).
    + rewrite lookup_insert_ne by done. apply Hinv.
  - intros mm. destruct (decide (mm = month)) as [->|Hne].
    + rewrite lookup_insert_eq, bool_decide_eq_true_2 by done. done.
    + rewrite lookup_insert_ne by done.
      rewrite bool_decide_eq_false_2 by congruence. by rewrite app_nil_r.
Qed.

Lemma classify_all_spec root files (m : gmap string (list string)) fb :
  (forall mm, m !! mm <> Some []) ->
  exists fb' m',
    for_M (Monthly.classify root) files m fb = (fb', Ok m')
    /\ (forall mm, m' !! mm <> Some [])
    /\ forall mm, default [] (m' !! mm)
                  = default [] (m !! mm) ++ omap (monthly_file mm root) files.
Proof.
  revert m fb. induction files as [|fname files IH]; intros m fb Hinv.
  - exists fb, m. split; [done|]. split; [done|]. intros mm. by rewrite app_nil_r.
  - destruct (classify_spec root fname m fb Hinv) as (fb1 & m1 & Hrun1 & Hinv1 & Hm1).
    destruct (IH m1 fb1 Hinv1) as (fb2 & m2 & Hrun2 & Hinv2 & Hm2).
    exists fb2, m2. split; [|split; [done|]].
    + cbn [for_M]. unfold mbind, M_bind at 1. by rewrite Hrun1.
    + intros mm. rewrite Hm2, Hm1, <- app_assoc. f_equal. csimpl.
      by destruct (monthly_file mm root fname).
Qed.

Lemma bucket_default (o : option (list string)) : o <> Some [] -> bucket (default [] o) = o.
Proof. destruct o as [[|a l]|]; done. Qed.

Lemma Monthly_scan_spec (w : World) (main_input_folder : string) (fb : Feedback) :
  exists fb' rasters_by_month,
    Monthly.scan w main_input_folder fb = (fb', Ok rasters_by_month)
    /\ forall mm, rasters_by_month !! mm = bucket (files_of_month w main_input_folder mm).
Proof.
  assert (Hgen : forall dirs (m : gmap string (list string)) fb0,
    (forall mm, m !! mm <> Some []) ->
    exists fb' m',
      for_M (fun '(root, files) rasters_by_month =>
               for_M (Monthly.classify root) files rasters_by_month) dirs m fb0
      = (fb', Ok m')
      /\ (forall mm, m' !! mm <> Some [])
      /\ forall mm, default [] (m' !! mm)
           = default [] (m !! mm)
             ++ (dirs ≫= fun '(root, files) => omap (monthly_file mm root) files)).
  { induction dirs as [|[root files] dirs IH]; intros m fb0 Hinv.
    - exists fb0, m. split; [done|]. split; [done|]. intros mm. by rewrite app_nil_r.
    - destruct (classify_all_spec root files m fb0 Hinv) as (fb1 & m1 & Hrun1 & Hinv1 & Hm1).
      destruct (IH m1 fb1 Hinv1) as (fb2 & m2 & Hrun2 & Hinv2 & Hm2).
      exists fb2, m2. split; [|split; [done|]].
      + cbn [for_M]. unfold mbind at 1, M_bind at 1. by rewrite Hrun1.
      + intros mm. rewrite Hm2, Hm1, <- app_assoc. done. }
  destruct (Hgen (walk w main_input_folder) ∅ fb) as (fb' & m & Hrun & Hinv & Hm).
  { intros mm. by rewrite lookup_empty. }
  exists fb', m. split; [exact Hrun|]. intros mm.
  unfold files_of_month. specialize (Hm mm). rewrite lookup_empty in Hm. simpl in Hm.
  rewrite <- Hm. symmetry. apply bucket_default, Hinv.
Qed.

(** X11.  The traversal of the monthly algorithm never fails, and files
    every dated TIFF under the month of its name: after it, a month is a
    key of the mapping exactly when some file was filed under it, and its
    list holds the paths of those files, each once, in traversal order. *)
Theorem monthly_scan_groups_files_by_month
    (w : World) (main_input_folder : string) (fb : Feedback) :
  exists fb' rasters_by_month,
    Monthly.scan w main_input_folder fb = (fb', Ok rasters_by_month)
    /\ forall mm, rasters_by_month !! mm = bucket (files_of_month w main_input_folder mm).
Proof. apply Monthly_scan_spec. Qed.

Lemma ascii_compare_Lt_trans a b c :
  Ascii.compare a b = Lt -> Ascii.compare b c = Lt -> Ascii.compare a c = Lt.
Proof.
  unfold Ascii.compare. rewrite !N.compare_lt_iff. lia.
Qed.

Lemma string_compare_trans s1 s2 s3 :
  String.compare s1 s2 <> Gt -> String.compare s2 s3 <> Gt -> String.compare s1 s3 <> Gt.
Proof.
  revert s2 s3. induction s1 as [|c1 s1 IH]; intros [|c2 s2] [|c3 s3]; simpl; try done.
  destruct (Ascii.compare c1 c2) eqn:H12; [| |done].
  - apply Ascii.compare_eq_iff in H12 as ->.
    destruct (Ascii.compare c2 c3); [apply IH|done|done].
  - destruct (Ascii.compare c2 c3) eqn:H23; [| |done].
    + apply Ascii.compare_eq_iff in H23 as <-. by rewrite H12.
    + by rewrite (ascii_compare_Lt_trans _ _ _ H12 H23).
Qed.

Lemma string_leb_trans s1 s2 s3 :
  String.leb s1 s2 = true -> String.leb s2 s3 = true -> String.leb s1 s3 = true.
Proof.
  unfold String.leb. intros H12 H23.
  pose proof (string_compare_trans s1 s2 s3) as H.
  destruct (String.compare s1 s2), (String.compare s2 s3), (String.compare s1 s3);
    try done; exfalso; by apply H.
Qed.

Lemma string_leb_ltb s1 s2 : String.leb s1 s2 = true -> s1 <> s2 -> String.ltb s1 s2 = true.
Proof.
  unfold String.leb, String.ltb. intros Hle Hne.
  destruct (String.compare s1 s2) eqn:Hc; [|done|done].
  by apply String.compare_eq_iff in Hc.
Qed.

Lemma Monthly_process_month_full w p fb month first rest ref outputs :
  Open w first = Some ref ->
  forallb (covers w (RasterXSize ref) (RasterYSize ref)) (first :: rest) = true ->
  exists fb' out,
    Monthly.process_month w p (month, first :: rest) outputs fb = (fb', Ok (outputs ++ [out]))
    /\ out_path out
       = Py.path_join (Monthly.OUTPUT_FOLDER p) (Monthly.PREFIX p +:+ month +:+ ".tif")
    /\ out_type out = GDT_Float32 /\ out_nodata out = Some 0
    /\ produced ref (monthly_pixel w (first :: rest)) out.
Proof.
  intros Hopen Hcov. unfold Monthly.process_month.
  unfold mbind at 1, M_bind, pushInfo. rewrite Hopen.
  unfold mbind at 1, M_bind. rewrite Monthly_process_blocks_ok by done.
  exists (reports (monthly_events p month (S (List.length rest))) fb). eexists. split.
  - unfold mbind, M_bind, pushInfo, mret, M_ret, monthly_events.
    destruct (Monthly.LOAD_MAPS p); simpl;
      repeat change (report ?e ?f) with (reports [e] f);
      rewrite !reports_app; simpl; reflexivity.
  - match goal with |- context [write_all ?ws ?o] =>
      destruct (write_all_fields ws o) as (Hpath & Hx & Hy & Ht & ? & Hg & Hp & Hn & ?)
    end.
    simpl in *. split; [done|]. split; [done|]. split; [done|].
    apply produced_intro; simpl; try done.
    by rewrite written_write_all.
Qed.

Lemma process_months w p (items : list (string * list string)) outputs fb :
  Forall (fun item => item.2 <> [] /\ month_ready w item.2 = true) items ->
  exists fb' outs,
    for_M (Monthly.process_month w p) items outputs fb = (fb', Ok (outputs ++ outs))
    /\ Forall2 (fun item out =>
                  out_path out
                  = Py.path_join (Monthly.OUTPUT_FOLDER p)
                      (Monthly.PREFIX p +:+ item.1 +:+ ".tif")
                  /\ out_type out = GDT_Float32 /\ out_nodata out = Some 0
                  /\ exists first ref, head item.2 = Some first /\ Open w first = Some ref
                       /\ produced ref (monthly_pixel w item.2) out) items outs.
Proof.
  intros Hall. revert outputs fb.
  induction Hall as [|[month files] items [Hne Hready] _ IH]; intros outputs fb.
  - exists fb, []. by rewrite app_nil_r.
  - simpl in Hne, Hready. destruct files as [|first rest]; [done|].
    simpl in Hready. destruct (Open w first) as [ref|] eqn:Hopen; [|done].
    destruct (Monthly_process_month_full w p fb month first rest ref outputs Hopen Hready)
      as (fb1 & out & Hrun & Hpath & Ht & Hn & Hprod).
    destruct (IH (outputs ++ [out]) fb1) as (fb2 & outs & Hrun2 & Hall2).
    exists fb2, (out :: outs). split.
    + cbn [for_M]. unfold mbind at 1, M_bind at 1. rewrite Hrun, Hrun2.
      by rewrite <- app_assoc.
    + constructor; [|done]. simpl. split; [done|]. split; [done|]. split; [done|].
      by exists first, ref.
Qed.

Lemma Forall2_and_l {A B} (P : A -> Prop) (Q : A -> B -> Prop) (l : list A) (k : list B) :
  Forall P l -> Forall2 Q l k -> Forall2 (fun a b => P a /\ Q a b) l k.
Proof.
  intros HP HQ. induction HQ as [|a b l k Hab _ IH]; [constructor|].
  inversion HP; subst. constructor; [done|by apply IH].
Qed.

Lemma by_month_total a b : Monthly.by_month a b = true \/ Monthly.by_month b a = true.
Proof. apply String.leb_total. Qed.

Lemma by_month_trans a b c :
  Monthly.by_month a b = true -> Monthly.by_month b c = true -> Monthly.by_month a c = true.
Proof. apply string_leb_trans. Qed.

Lemma StronglySorted_NoDup_strict (l : list string) :
  StronglySorted (fun a b => String.leb a b = true) l -> NoDup l ->
  StronglySorted (fun a b => String.ltb a b = true) l.
Proof.
  induction 1 as [|a l Hl IH Ha]; intros Hnd; [constructor|].
  apply NoDup_cons in Hnd as [Hnotin Hnd]. constructor; [by apply IH|].
  apply Forall_forall. intros b Hb. apply string_leb_ltb.
  - by eapply Forall_forall in Ha.
  - by intros ->.
Qed.

Lemma files_of_month_found w folder mm :
  files_of_month w folder mm <> [] -> mm ∈ months_found w folder.
Proof.
  intros Hne. destruct (files_of_month w folder mm) as [|path l] eqn:Hf; [done|].
  assert (Hin : path ∈ files_of_month w folder mm) by (rewrite Hf; by left).
  unfold files_of_month in Hin.
  apply list_elem_of_bind in Hin as ([root files] & Hin & Hwalk).
  apply list_elem_of_omap in Hin as (fname & Hfname & Hfile).
  unfold months_found. apply list_elem_of_bind. exists (root, files). split; [|done].
  apply list_elem_of_omap. exists fname. split; [done|].
  unfold monthly_file in Hfile.
  destruct (Py.endswith (Py.lower fname) ".tif"); [|done]. simpl in Hfile.
  by case_bool_decide.
Qed.

(** X12.  When the files of every month can be summed, the monthly run
    succeeds and saves one map per month that has a file, in ascending
    order of the month token; the map of a month is named after it, is a
    Float32 raster with nodata 0 on the grid of the first file of the
    month, and holds at every pixel the sum over the files of the
    month. *)
Theorem monthly_run_saves_one_map_per_month
    (w : World) (p : Monthly.Parameters) (fb : Feedback) :
  forallb (fun mm => month_ready w (files_of_month w (Monthly.INPUT_FOLDER p) mm))
          (months_found w (Monthly.INPUT_FOLDER p)) = true ->
  exists fb' months outs,
    Monthly.processAlgorithm w p fb = (fb', Ok outs)
    /\ StronglySorted (fun a b => String.ltb a b = true) months
    /\ (forall mm, mm ∈ months <-> files_of_month w (Monthly.INPUT_FOLDER p) mm <> [])
    /\ Forall2 (monthly_output w p) months outs.
Proof.
  intros Hfound.
  assert (Hready : forall mm,
            month_ready w (files_of_month w (Monthly.INPUT_FOLDER p) mm) = true).
  { intros mm. destruct (files_of_month w (Monthly.INPUT_FOLDER p) mm) eqn:Hf; [done|].
    rewrite <- Hf. rewrite forallb_forall in Hfound. apply Hfound.
    apply list_elem_of_In, files_of_month_found. by rewrite Hf. }
  destruct (Monthly_scan_spec w (Monthly.INPUT_FOLDER p) fb)
    as (fb1 & m & Hscan & Hm).
  set (items := sorted Monthly.by_month (map_to_list m)).
  assert (Hperm : items ≡ₚ map_to_list m) by apply sorted_Permutation.
  assert (Hitem : forall mm l, (mm, l) ∈ items ->
            l = files_of_month w (Monthly.INPUT_FOLDER p) mm /\ l <> []).
  { intros mm l Hin. rewrite Hperm in Hin. apply elem_of_map_to_list in Hin.
    rewrite Hm in Hin. destruct (files_of_month _ _ mm); [done|].
    simpl in Hin. injection Hin as <-. done. }
  destruct (process_months w p items [] fb1) as (fb2 & outs & Hrun & Hall).
  { apply Forall_forall. intros [mm l] Hin. destruct (Hitem mm l Hin) as [-> Hne].
    split; [done|]. apply Hready. }
  exists (report (PushInfo AllMonthlyCreated) fb2), items.*1, outs.
  split; [|split; [|split]].
  - unfold Monthly.processAlgorithm. unfold mbind at 1, M_bind at 1. rewrite Hscan.
    unfold mbind at 1, M_bind at 1. fold items. rewrite Hrun. reflexivity.
  - apply StronglySorted_NoDup_strict.
    + apply (StronglySorted_fmap fst (fun a b => Monthly.by_month a b = true)
               (fun a b => String.leb a b = true)).
      * by intros a b Hab.
      * apply sorted_StronglySorted; [apply by_month_total|apply by_month_trans].
    + rewrite Hperm. apply NoDup_fst_map_to_list.
  - intros mm. rewrite Hperm. split.
    + intros ([mm' l] & -> & Hin)%list_elem_of_fmap. simpl.
      apply elem_of_map_to_list in Hin. rewrite Hm in Hin.
      by destruct (files_of_month _ _ mm').
    + intros Hne. apply list_elem_of_fmap.
      exists (mm, files_of_month w (Monthly.INPUT_FOLDER p) mm). split; [done|].
      apply elem_of_map_to_list. rewrite Hm.
      by destruct (files_of_month _ _ mm).
  - apply Forall2_fmap_l.
    assert (Hitems : Forall (fun item : string * list string =>
                        item.2 = files_of_month w (Monthly.INPUT_FOLDER p) item.1) items).
    { apply Forall_forall. intros [mm l] Hin. by destruct (Hitem mm l Hin). }
    eapply Forall2_impl; [exact (Forall2_and_l _ _ _ _ Hitems Hall)|].
    intros [mm l] out. simpl.
    intros (-> & Hpath & Ht & Hn & first & ref & Hhead & Hopen & Hprod).
    split; [done|]. split; [done|]. split; [done|]. by exists first, ref.
Qed.

Lemma monthly_run_saves_one_map_per_month_witness :
  exists fb' months outs,
    Monthly.processAlgorithm mismatched_world monthly_params quiet = (fb', Ok outs)
    /\ StronglySorted (fun a b => String.ltb a b = true) months
    /\ (forall mm, mm ∈ months <-> files_of_month mismatched_world "in" mm <> [])
    /\ Forall2 (monthly_output mismatched_world monthly_params) months outs.
Proof.
  apply (monthly_run_saves_one_map_per_month mismatched_world monthly_params quiet).
  reflexivity.
Defined.

(** *** Binary conversion *)

Lemma read_band_block_of ds :
  Binary.read_band ds = block_of (RasterXSize ds) (RasterYSize ds) (pixel ds).
Proof. reflexivity. Qed.

Lemma gdal_options_ok comp_index :
  comp_index <= 3 -> exists options, Binary.gdal_options comp_index = Ok options.
Proof.
  intros Hc. unfold Binary.gdal_options. destruct (Z.ltb_spec 0 comp_index); [|by eexists].
  assert (Hcases : comp_index = 1 \/ comp_index = 2 \/ comp_index = 3) by lia.
  destruct Hcases as [->|[->| ->]]; by eexists.
Qed.

Lemma gdal_options_beyond comp_index :
  4 <= comp_index -> Binary.gdal_options comp_index = Raise IndexError.
Proof.
  intros Hc. unfold Binary.gdal_options. destruct (Z.ltb_spec 0 comp_index); [|lia].
  rewrite (lookup_ge_None_2 Binary.COMPRESSION_TYPES); [done|]. simpl. lia.
Qed.

Lemma out_pixel_one_write o xsize ysize g px py :
  written o = [(0, 0, block_of xsize ysize g)] ->
  out_pixel o px py
  = if bool_decide (0 <= px < xsize /\ 0 <= py < ysize) then g px py else 0.
Proof.
  intros Hw. unfold out_pixel. rewrite Hw. simpl.
  destruct (Z.leb_spec 0 px), (Z.leb_spec 0 py); simpl;
    try (rewrite bool_decide_eq_false_2 by lia; done).
  rewrite lookup_block_of. rewrite !Z2Nat.id by lia. rewrite !Z.sub_0_r.
  repeat case_bool_decide; try done; lia.
Qed.

Lemma binary_run w t p ds :
  Open w (Binary.INPUT p) = Some ds -> Binary.COMPRESSION p <= 3 ->
  exists out,
    Binary.processAlgorithm w t p = Ok out
    /\ out_path out = Binary.OUTPUT p
    /\ out_xsize out = RasterXSize ds /\ out_ysize out = RasterYSize ds
    /\ out_geo out = Some (GeoTransform ds) /\ out_proj out = Some (Projection ds)
    /\ out_type out = GDT_Byte /\ out_nodata out = Some 0 /\ flushed out = true
    /\ written out
       = [(0, 0, block_of (RasterXSize ds) (RasterYSize ds)
                   (fun i j => if Binary.greater t
                                    (if is_nodata t ds i j then 0 else pixel ds i j)
                                    (Binary.THRESHOLD p)
                               then 1 else 0))].
Proof.
  intros Hopen Hc. unfold Binary.processAlgorithm. rewrite Hopen.
  destruct (gdal_options_ok _ Hc) as [options ->]. rewrite res_bind_Ok.
  eexists. split; [reflexivity|]. simpl. repeat (split; [done|]).
  do 2 f_equal. rewrite read_band_block_of. unfold is_nodata.
  destruct (NoDataValue ds) as [nd|].
  - rewrite mask_zero_block_of, block_map_block_of. apply block_of_ext.
    intros i j _ _. unfold Binary.binary_value.
    by destruct (Binary.greater t _ _).
  - rewrite block_map_block_of. apply block_of_ext.
    intros i j _ _. unfold Binary.binary_value.
    by destruct (Binary.greater t _ _).
Qed.

Lemma greater_exact t a s :
  t <> Np.float32 -> Binary.greater t a s = true <-> (s < inject_Z a)%Q.
Proof.
  intros Ht.
  assert (Hg : Binary.greater t a s = negb (Qle_bool (inject_Z a) s))
    by (by destruct t).
  rewrite Hg, negb_true_iff, <- not_true_iff_false, Qle_bool_iff.
  split; [apply Qnot_le_lt|apply Qlt_not_le].
Qed.

Lemma is_nodata_masked t ds px py :
  t <> Np.float32 ->
  (if is_nodata t ds px py then 0 else pixel ds px py) = masked ds px py.
Proof.
  intros Ht. unfold is_nodata, masked. destruct (NoDataValue ds) as [nd|]; [|done].
  by destruct t.
Qed.

(** X13.  The binary converter writes one Byte raster on the grid of its
    input, with nodata 0.  For a band of an integer type or of Float64
    that holds integers, a pixel that holds the nodata value of the input
    counts as zero; the output pixel is 1 when the value so read is
    greater than the threshold, a double, and 0 when it is not.  For a
    Float32 band NumPy rounds the threshold to float32 before it
    compares: a pixel of 33554432 does not pass the threshold 33554431. *)
Theorem binary_conversion_thresholds
    (w : World) (band_type : Np.dtype) (p : Binary.Parameters) (ds : Dataset) :
  Open w (Binary.INPUT p) = Some ds ->
  Binary.COMPRESSION p <= 3 ->
  band_type <> Np.float32 ->
  (exists out,
     Binary.processAlgorithm w band_type p = Ok out
     /\ out_xsize out = RasterXSize ds /\ out_ysize out = RasterYSize ds
     /\ out_geo out = Some (GeoTransform ds) /\ out_proj out = Some (Projection ds)
     /\ out_type out = GDT_Byte /\ out_nodata out = Some 0
     /\ forall px py, 0 <= px < RasterXSize ds -> 0 <= py < RasterYSize ds ->
          (out_pixel out px py = 1
           /\ (Binary.THRESHOLD p < inject_Z (masked ds px py))%Q)
          \/ (out_pixel out px py = 0
              /\ (inject_Z (masked ds px py) <= Binary.THRESHOLD p)%Q))
  /\ (exists out,
        Binary.processAlgorithm float_world Np.float32 float_params = Ok out
        /\ out_pixel out 0 0 = 0)
  /\ (exists out,
        Binary.processAlgorithm float_world Np.float64 float_params = Ok out
        /\ out_pixel out 0 0 = 1).
Proof.
  intros Hopen Hc Ht. split; [|split; by eexists].
  destruct (binary_run w band_type p ds Hopen Hc)
    as (out & Hrun & _ & Hx & Hy & Hg & Hp & Hty & Hn & _ & Hw).
  exists out. repeat (split; [done|]).
  intros px py Hpx Hpy.
  rewrite (out_pixel_one_write _ _ _ _ _ _ Hw).
  rewrite bool_decide_eq_true_2 by lia.
  rewrite is_nodata_masked by done.
  destruct (Binary.greater band_type (masked ds px py) (Binary.THRESHOLD p)) eqn:Hgt.
  - left. split; [done|]. by apply (greater_exact band_type).
  - right. split; [done|]. apply Qnot_lt_le. intros Hlt.
    apply (greater_exact band_type) in Hlt; [|done]. congruence.
Qed.

Lemma binary_conversion_thresholds_witness :
  exists out,
    Binary.processAlgorithm mismatched_world Np.uint8 (binary_params 1 1) = Ok out
    /\ out_xsize out = 2 /\ out_ysize out = 2
    /\ out_geo out = Some shifted /\ out_proj out = Some "EPSG:32633"
    /\ out_type out = GDT_Byte /\ out_nodata out = Some 0
    /\ forall px py, 0 <= px < 2 -> 0 <= py < 2 ->
         (out_pixel out px py = 1 /\ (inject_Z 1 < inject_Z 2)%Q)
         \/ (out_pixel out px py = 0 /\ (inject_Z 2 <= inject_Z 1)%Q).
Proof.
  destruct (binary_conversion_thresholds mismatched_world Np.uint8 (binary_params 1 1)
              (constant_raster 2 2 2 None shifted "EPSG:32633")) as [Hrun _];
    [reflexivity|simpl; lia|discriminate|exact Hrun].
Defined.

Lemma binary_outcome (w : World) (band_type : Np.dtype) (p : Binary.Parameters) :
  match Binary.processAlgorithm w band_type p with
  | Ok out =>
      (exists ds, Open w (Binary.INPUT p) = Some ds) /\ Binary.COMPRESSION p <= 3
      /\ (Binary.COMPRESSION p <= 0 -> out_options out = [])
  | Raise e =>
      (Open w (Binary.INPUT p) = None /\ e = AttributeError "GetRasterBand")
      \/ ((exists ds, Open w (Binary.INPUT p) = Some ds)
          /\ 4 <= Binary.COMPRESSION p /\ e = IndexError)
  end.
Proof.
  unfold Binary.processAlgorithm.
  destruct (Open w (Binary.INPUT p)) as [ds|] eqn:Hopen; [|by left].
  destruct (Z.le_gt_cases (Binary.COMPRESSION p) 3) as [Hc|Hc].
  - destruct (gdal_options_ok _ Hc) as [options Hopt]. rewrite Hopt, res_bind_Ok.
    split; [by exists ds|]. split; [done|]. intros H0. simpl.
    unfold Binary.gdal_options in Hopt.
    destruct (Z.ltb_spec 0 (Binary.COMPRESSION p)); [lia|]. by injection Hopt as <-.
  - rewrite gdal_options_beyond by lia. right. split; [by exists ds|]. split; [lia|done].
Qed.

(** X14.  The binary converter fails in two cases only: the input does
    not open, which raises AttributeError, or the input opens and the
    compression index is 4 or more, which raises IndexError on the table
    of compression names.  An index of zero or below selects no
    compression. *)
Theorem binary_conversion_failures
    (w : World) (band_type : Np.dtype) (p : Binary.Parameters) :
  match Binary.processAlgorithm w band_type p with
  | Ok out =>
      (exists ds, Open w (Binary.INPUT p) = Some ds) /\ Binary.COMPRESSION p <= 3
      /\ (Binary.COMPRESSION p <= 0 -> out_options out = [])
  | Raise e =>
      (Open w (Binary.INPUT p) = None /\ e = AttributeError "GetRasterBand")
      \/ ((exists ds, Open w (Binary.INPUT p) = Some ds)
          /\ 4 <= Binary.COMPRESSION p /\ e = IndexError)
  end.
Proof. apply binary_outcome. Qed.

(** X15.  What the binary converter saves is a raster of zeros and ones
    whose nodata value is zero, whatever the input holds: the output can
    be counted by the hazard map. *)
Theorem binary_conversion_saves_binary_raster
    (w : World) (band_type : Np.dtype) (p : Binary.Parameters) (out : OutDataset) :
  Binary.processAlgorithm w band_type p = Ok out ->
  binary_raster (saved out)
  /\ NoDataValue (saved out) = Some 0
  /\ forall px py, contribution Np.uint32 (saved out) px py = out_pixel out px py.
Proof.
  intros Hrun.
  pose proof (binary_outcome w band_type p) as Hf. rewrite Hrun in Hf.
  destruct Hf as ((ds & Hopen) & Hc & _).
  destruct (binary_run w band_type p ds Hopen Hc)
    as (out' & Hrun' & _ & _ & _ & _ & _ & _ & Hn & _ & Hw).
  rewrite Hrun in Hrun'. injection Hrun' as <-.
  assert (Hbin : binary_raster (saved out)).
  { split; [|simpl; by rewrite Hn].
    intros x y. simpl. rewrite (out_pixel_one_write _ _ _ _ _ _ Hw).
    case_bool_decide; [|by left]. destruct (Binary.greater _ _ _); auto. }
  split; [done|]. split; [done|].
  intros px py. rewrite contribution_binary by done. simpl.
  destruct Hbin as [Hbin _]. destruct (Hbin px py) as [H|H]; simpl in H; by rewrite H.
Qed.

Lemma binary_conversion_saves_binary_raster_witness :
  exists out,
    Binary.processAlgorithm mismatched_world Np.uint8 (binary_params 1 1) = Ok out
    /\ binary_raster (saved out)
    /\ NoDataValue (saved out) = Some 0
    /\ forall px py, contribution Np.uint32 (saved out) px py = out_pixel out px py.
Proof.
  eexists. split; [reflexivity|].
  apply (binary_conversion_saves_binary_raster mismatched_world Np.uint8
           (binary_params 1 1)).
  reflexivity.
Defined.

(** *** Strings *)

Lemma append_nil_r s : s +:+ "" = s.
Proof.
  induction s as [|c s IH]; [done|].
  change (String c (s +:+ "") = String c s). by rewrite IH.
Qed.

Lemma append_assoc a b c : (a +:+ b) +:+ c = a +:+ b +:+ c.
Proof.
  induction a as [|x a IH]; [done|].
  change (String x ((a +:+ b) +:+ c) = String x (a +:+ b +:+ c)). by rewrite IH.
Qed.

Lemma substring_all s : substring 0 (String.length s) s = s.
Proof. induction s as [|c s IH]; simpl; [done|]. by rewrite IH. Qed.

Lemma substring_app_l a b : substring 0 (String.length a) (a +:+ b) = a.
Proof.
  induction a as [|c a IH]; simpl; [by destruct b|]. by rewrite IH.
Qed.

Lemma substring_skip a b n m :
  substring (String.length a + n) m (a +:+ b) = substring n m b.
Proof. induction a as [|c a IH]; simpl; [done|]. apply IH. Qed.

Lemma substring_app_r a b : substring (String.length a) (String.length b) (a +:+ b) = b.
Proof.
  rewrite <- (Nat.add_0_r (String.length a)), substring_skip. apply substring_all.
Qed.

Lemma rfind_free c s : free_of c s = true -> Os.rfind c s = None.
Proof.
  induction s as [|c' s IH]; simpl; [done|].
  intros [Hc Hs]%andb_true_iff. rewrite IH by done.
  by destruct (Ascii.eqb c' c).
Qed.

Lemma rfind_app_free c a b :
  free_of c a = true -> free_of c b = true -> Os.rfind c (a +:+ b) = None.
Proof.
  intros Ha Hb. apply rfind_free.
  induction a as [|c' a IH]; simpl in *; [done|].
  apply andb_true_iff in Ha as [-> Ha]. by apply IH.
Qed.

Lemma rfind_app_last c a b :
  free_of c b = true -> Os.rfind c (a +:+ String c b) = Some (String.length a).
Proof.
  intros Hb. induction a as [|c' a IH]; simpl.
  - rewrite rfind_free by done. by rewrite Ascii.eqb_refl.
  - by rewrite IH.
Qed.

Lemma digits_app a b : Os.digits (a +:+ b) = Os.digits a +:+ Os.digits b.
Proof.
  induction a as [|c a IH]; simpl; [done|]. destruct (Py.is_digit c); simpl; by rewrite IH.
Qed.

Lemma digits_all_digits s : all_digits s = true -> Os.digits s = s.
Proof.
  induction s as [|c s IH]; simpl; [done|].
  intros [-> Hs]%andb_true_iff. by rewrite IH.
Qed.

Lemma last_chars_app a y : Os.last_chars (String.length y) (a +:+ y) = y.
Proof.
  unfold Os.last_chars. rewrite length_append.
  replace (String.length a + String.length y - String.length y)%nat
    with (String.length a) by lia.
  apply substring_app_r.
Qed.

(** *** The names of the outputs of the exposure analysis *)

(** X16.  The exposure analysis names an output after the last four
    digits of the file name.  When the digits of the name end with a
    four-digit year the output carries that year; for a name with a date
    YYYY-MM-DD followed by no further digit it carries the month and the
    day, not the year. *)
Theorem exposure_year_is_last_four_digits (pre post y m d : string) :
  all_digits y = true -> String.length y = 4%nat ->
  all_digits m = true -> String.length m = 2%nat ->
  all_digits d = true -> String.length d = 2%nat ->
  Os.digits post = "" ->
  Exposure.year (pre +:+ y +:+ post) = y
  /\ Exposure.year (pre +:+ y +:+ "-" +:+ m +:+ "-" +:+ d +:+ post) = m +:+ d
  /\ forall output_dir prefix,
       Exposure.output_path output_dir prefix (pre +:+ y +:+ post)
       = Py.path_join output_dir (prefix +:+ "exposure_" +:+ y +:+ ".tif").
Proof.
  intros Hy Hly Hm Hlm Hd Hld Hpost.
  assert (H1 : Exposure.year (pre +:+ y +:+ post) = y).
  { unfold Exposure.year. rewrite !digits_app, Hpost, (digits_all_digits y) by done.
    rewrite append_nil_r.
    replace 4%nat with (String.length y). apply last_chars_app. }
  split; [done|]. split.
  - unfold Exposure.year.
    rewrite !digits_app, Hpost, (digits_all_digits y), (digits_all_digits m),
      (digits_all_digits d) by done.
    change (Os.digits "-") with "".
    replace (Os.digits pre +:+ y +:+ "" +:+ m +:+ "" +:+ d +:+ "")
      with ((Os.digits pre +:+ y) +:+ (m +:+ d)).
    + replace 4%nat with (String.length (m +:+ d)) by (rewrite length_append; lia).
      apply last_chars_app.
    + simpl. by rewrite append_nil_r, append_assoc.
  - intros output_dir prefix. unfold Exposure.output_path. by rewrite H1.
Qed.

Lemma exposure_year_is_last_four_digits_witness :
  Exposure.year ("flood_" +:+ "2021" +:+ ".tif") = "2021"
  /\ Exposure.year ("flood_" +:+ "2021" +:+ "-" +:+ "01" +:+ "-" +:+ "15" +:+ ".tif")
     = "01" +:+ "15"
  /\ forall output_dir prefix,
       Exposure.output_path output_dir prefix ("flood_" +:+ "2021" +:+ ".tif")
       = Py.path_join output_dir (prefix +:+ "exposure_" +:+ "2021" +:+ ".tif").
Proof.
  apply (exposure_year_is_last_four_digits "flood_" ".tif" "2021" "01" "15"); reflexivity.
Defined.

(** *** The names of the fields of the sampling and zonal statistics *)

Lemma year_at_S c s i : year_at (String c s) (S i) = year_at s i.
Proof. reflexivity. Qed.

Lemma year_at_empty i : year_at "" i = false.
Proof. unfold year_at, digit_at. by destruct i. Qed.

Lemma match_year_spec s :
  match Sampling.match_year s with
  | Some g => year_at s 0 = true /\ g = substring 0 4 s
  | None => year_at s 0 = false
  end.
Proof.
  do 4 (destruct s as [|? s];
        [unfold year_at, digit_at; simpl;
         repeat (rewrite ?andb_false_r; simpl); reflexivity|]).
  unfold Sampling.match_year, year_at, digit_at. simpl String.get.
  match goal with |- context [if ?b then _ else _] => destruct b eqn:Hb end.
  - split; [done|]. simpl. by destruct s.
  - done.
Qed.

Lemma search_year_Some s g :
  Sampling.search_year s = Some g <->
  exists i : nat, year_at s i = true /\ (forall j : nat, (j < i)%nat -> year_at s j = false)
            /\ g = substring i 4 s.
Proof.
  induction s as [|c s IH].
  - simpl. split; [done|]. intros (i & Hi & _). by rewrite year_at_empty in Hi.
  - pose proof (match_year_spec (String c s)) as Hm.
    cbn [Sampling.search_year]. destruct (Sampling.match_year (String c s)) as [g0|].
    + destruct Hm as (H0 & ->). split.
      * intros [= <-]. exists 0%nat. split; [done|]. split; [lia|done].
      * intros (i & Hi & Hmin & ->). destruct i as [|i]; [done|].
        rewrite Hmin in H0 by lia. done.
    + rewrite IH. split.
      * intros (i & Hi & Hmin & ->). exists (S i). split; [done|].
        split; [|done]. intros [|j] Hj; [done|]. rewrite year_at_S. apply Hmin. lia.
      * intros (i & Hi & Hmin & ->). destruct i as [|i]; [congruence|].
        exists i. split; [done|]. split; [|done].
        intros j Hj. rewrite <- (year_at_S c). apply Hmin. lia.
Qed.

Lemma search_year_None s :
  Sampling.search_year s = None <-> forall i : nat, year_at s i = false.
Proof.
  induction s as [|c s IH].
  - simpl. split; [|done]. intros _ i. apply year_at_empty.
  - pose proof (match_year_spec (String c s)) as Hm.
    cbn [Sampling.search_year]. destruct (Sampling.match_year (String c s)) as [g0|].
    + destruct Hm as (H0 & _). split; [done|]. intros H. by rewrite H in H0.
    + rewrite IH. split.
      * intros H [|i]; [done|]. rewrite year_at_S. apply H.
      * intros H i. rewrite <- (year_at_S c). apply H.
Qed.

(** X17.  The point sampling names the fields of a raster after the
    leftmost four consecutive digits of its name; a name without four
    consecutive digits falls back on the token after its last underscore,
    as the zonal statistics do.  For a name with a date the fields carry
    the year, where the exposure analysis takes the month and day. *)
Theorem sampling_suffix_is_leftmost_four_digits (raster_name : string) :
  (forall g, Sampling.search_year raster_name = Some g <->
     exists i : nat, year_at raster_name i = true
               /\ (forall j : nat, (j < i)%nat -> year_at raster_name j = false)
               /\ g = substring i 4 raster_name)
  /\ (Sampling.search_year raster_name = None <->
      forall i : nat, year_at raster_name i = false)
  /\ (forall i : nat, year_at raster_name i = true ->
        (forall j : nat, (j < i)%nat -> year_at raster_name j = false) ->
        Sampling.suffix raster_name = substring i 4 raster_name)
  /\ ((forall i : nat, year_at raster_name i = false) ->
      Sampling.suffix raster_name = Zonal.suffix raster_name)
  /\ Sampling.suffix "flood_2021-01-15" = "2021"
  /\ Exposure.year "flood_2021-01-15.tif" = "0115".
Proof.
  split; [intros g; apply search_year_Some|]. split; [apply search_year_None|].
  split; [|split; [|done]].
  - intros i Hi Hmin. unfold Sampling.suffix.
    assert (Hs : Sampling.search_year raster_name = Some (substring i 4 raster_name)).
    { apply search_year_Some. by exists i. }
    by rewrite Hs.
  - intros Hnone. unfold Sampling.suffix.
    apply search_year_None in Hnone. by rewrite Hnone.
Qed.

Lemma free_of_app c a b : free_of c (a +:+ b) = free_of c a && free_of c b.
Proof.
  induction a as [|x a IH]; [done|].
  change (free_of c (String x (a +:+ b)) = free_of c (String x a) && free_of c b).
  simpl. rewrite IH. by rewrite andb_assoc.
Qed.

Lemma split_app sep a b :
  Py.split sep (a +:+ String sep b) = Py.split sep a ++ Py.split sep b.
Proof.
  induction a as [|c a IH].
  - change ("" +:+ String sep b) with (String sep b). simpl.
    by rewrite Ascii.eqb_refl.
  - change (String c a +:+ String sep b) with (String c (a +:+ String sep b)).
    cbn [Py.split]. rewrite IH. destruct (Ascii.eqb c sep); [done|].
    pose proof (split_nonempty sep a). by destruct (Py.split sep a).
Qed.

Lemma split_free sep s : free_of sep s = true -> Py.split sep s = [s].
Proof.
  induction s as [|c s IH]; [done|]. simpl.
  intros [Hc Hs]%andb_true_iff. apply negb_true_iff in Hc. rewrite Hc.
  by rewrite IH.
Qed.

Lemma last_part_app parts t : Os.last_part (parts ++ [t]) = t.
Proof. unfold Os.last_part. apply last_last. Qed.

Lemma split_spec sep s :
  exists parts t, Py.split sep s = parts ++ [t] /\ free_of sep t = true
    /\ s = foldr (fun p acc => p +:+ String sep acc) t parts.
Proof.
  induction s as [|c s (parts & t & Hsplit & Hfree & Hs)].
  - exists [], "". done.
  - cbn [Py.split]. rewrite Hsplit. destruct (Ascii.eqb c sep) eqn:Hc.
    + apply Ascii.eqb_eq in Hc as ->.
      exists ("" :: parts), t. split; [done|]. split; [done|].
      cbn [foldr]. by rewrite <- Hs.
    + destruct parts as [|p parts].
      * exists [], (String c t). split; [done|]. simpl. rewrite Hc, Hfree.
        split; [done|]. simpl in Hs. by rewrite Hs.
      * exists (String c p :: parts), t. split; [done|]. split; [done|].
        cbn [foldr] in *. by rewrite Hs.
Qed.

Lemma suffix_spec sep s :
  exists parts t, Py.split sep s = parts ++ [t] /\ free_of sep t = true
    /\ exists lead, s = lead +:+ t.
Proof.
  destruct (split_spec sep s) as (parts & t & Hsplit & Hfree & Hs).
  exists parts, t. split; [done|]. split; [done|].
  rewrite Hs. clear. induction parts as [|p parts [lead IH]].
  - by exists "".
  - exists (p +:+ String sep lead). cbn [foldr]. rewrite IH.
    change (String sep (lead +:+ t)) with (String sep lead +:+ t).
    by rewrite append_assoc.
Qed.

Lemma raster_name_stem dir stem ext :
  free_of "/" stem = true -> Os.has_non_dot stem = true ->
  free_of "/" ext = true -> free_of "." ext = true ->
  Zonal.raster_name (dir +:+ "/" +:+ stem +:+ "." +:+ ext) = stem.
Proof.
  intros Hstem Hnd He Hd. unfold Zonal.raster_name.
  assert (Hbase : Os.basename (dir +:+ "/" +:+ stem +:+ "." +:+ ext)
                  = stem +:+ "." +:+ ext).
  { unfold Os.basename.
    change (dir +:+ "/" +:+ stem +:+ "." +:+ ext)
      with (dir +:+ String "/" (stem +:+ "." +:+ ext)).
    rewrite rfind_app_last.
    2:{ rewrite free_of_app, Hstem. exact He. }
    rewrite length_append. simpl String.length.
    replace (String.length dir + S (String.length (stem +:+ "." +:+ ext))
             - S (String.length dir))%nat
      with (String.length (stem +:+ "." +:+ ext)) by lia.
    replace (S (String.length dir)) with (String.length dir + 1)%nat by lia.
    rewrite substring_skip. simpl. apply substring_all. }
  rewrite Hbase. unfold Os.splitext.
  change (stem +:+ "." +:+ ext) with (stem +:+ String "." ext).
  rewrite rfind_app_last by done.
  rewrite rfind_app_free; [|done|exact He].
  rewrite Nat.sub_0_r, substring_app_l. by rewrite Hnd.
Qed.

Lemma has_non_dot_underscore lead rest : Os.has_non_dot (lead +:+ "_" +:+ rest) = true.
Proof.
  induction lead as [|c l IH]; [done|].
  change (String c l +:+ "_" +:+ rest) with (String c (l +:+ "_" +:+ rest)).
  simpl. rewrite IH. by rewrite orb_true_r.
Qed.

(** X18.  The zonal statistics and the area calculation name the fields
    of a raster after the token that follows the last underscore of its
    name, the file name without its directory and its extension; a name
    without underscore is its own token.  The token never holds an
    underscore and always ends the name. *)
Theorem zonal_suffix_follows_last_underscore
    (dir lead token ext prefix : string) :
  free_of "/" lead = true -> free_of "/" token = true -> free_of "_" token = true ->
  free_of "/" ext = true -> free_of "." ext = true ->
  let raster_path := dir +:+ "/" +:+ lead +:+ "_" +:+ token +:+ "." +:+ ext in
  Zonal.raster_name raster_path = lead +:+ "_" +:+ token
  /\ Zonal.suffix (Zonal.raster_name raster_path) = token
  /\ Zonal.field_prefix prefix raster_path = prefix +:+ token +:+ "_"
  /\ Zonal.stat_field 0 raster_path = token +:+ "_count"
  /\ Zonal.stat_field 1 raster_path = token +:+ "_sum"
  /\ Zonal.area_field prefix raster_path = prefix +:+ token +:+ "_km2"
  /\ Zonal.suffix token = token
  /\ forall name, free_of "_" (Zonal.suffix name) = true
       /\ exists before, name = before +:+ Zonal.suffix name.
Proof.
  intros Hl Ht Hu He Hd raster_path.
  assert (Hname : Zonal.raster_name raster_path = lead +:+ "_" +:+ token).
  { unfold raster_path.
    replace (dir +:+ "/" +:+ lead +:+ "_" +:+ token +:+ "." +:+ ext)
      with (dir +:+ "/" +:+ (lead +:+ "_" +:+ token) +:+ "." +:+ ext)
      by (by rewrite append_assoc).
    apply raster_name_stem; [|apply has_non_dot_underscore|done|done].
    rewrite free_of_app, Hl. exact Ht. }
  assert (Hsuffix : Zonal.suffix (lead +:+ "_" +:+ token) = token).
  { unfold Zonal.suffix.
    change (lead +:+ "_" +:+ token) with (lead +:+ String "_" token).
    rewrite split_app, (split_free "_" token) by done. apply last_part_app. }
  split; [done|]. unfold Zonal.field_prefix, Zonal.stat_field, Zonal.area_field.
  rewrite Hname, Hsuffix. repeat (split; [done|]). split.
  - unfold Zonal.suffix. by rewrite split_free.
  - intros name. unfold Zonal.suffix.
    destruct (suffix_spec "_" name) as (parts & t & -> & Hfree & before & ->).
    rewrite last_part_app. split; [done|]. by exists before.
Qed.

Lemma zonal_suffix_follows_last_underscore_witness :
  let raster_path := "maps" +:+ "/" +:+ "flood_freq" +:+ "_" +:+ "2021" +:+ "." +:+ "tif" in
  Zonal.raster_name raster_path = "flood_freq" +:+ "_" +:+ "2021"
  /\ Zonal.suffix (Zonal.raster_name raster_path) = "2021"
  /\ Zonal.field_prefix "z_" raster_path = "z_" +:+ "2021" +:+ "_"
  /\ Zonal.stat_field 0 raster_path = "2021" +:+ "_count"
  /\ Zonal.stat_field 1 raster_path = "2021" +:+ "_sum"
  /\ Zonal.area_field "z_" raster_path = "z_" +:+ "2021" +:+ "_km2"
  /\ Zonal.suffix "2021" = "2021"
  /\ forall name, free_of "_" (Zonal.suffix name) = true
       /\ exists before, name = before +:+ Zonal.suffix name.
Proof.
  apply (zonal_suffix_follows_last_underscore "maps" "flood_freq" "2021" "tif" "z_");
    reflexivity.
Defined.

(** *** Month tokens *)

Lemma int_one_digit (a : ascii) :
  Py.is_digit a = true -> Py.int (String a EmptyString) = Some (Py.digit_value a).
Proof.
  intros Ha. unfold Py.int.
  assert (Hd : Py.int_digits 0 false (String a EmptyString) = Some (10 * 0 + Py.digit_value a))
    by (simpl; by rewrite Ha).
  destruct a as [[] [] [] [] [] [] [] []]; try discriminate Ha; by rewrite Hd.
Qed.

Lemma int_two_digits (a b : ascii) :
  Py.is_digit a = true -> Py.is_digit b = true ->
  Py.int (String a (String b EmptyString))
  = Some (10 * Py.digit_value a + Py.digit_value b).
Proof.
  intros Ha Hb. unfold Py.int.
  assert (Hd : Py.int_digits 0 false (String a (String b EmptyString))
               = Some (10 * (10 * 0 + Py.digit_value a) + Py.digit_value b))
    by (simpl; by rewrite Ha, Hb).
  destruct a as [[] [] [] [] [] [] [] []]; try discriminate Ha; by rewrite Hd.
Qed.

Lemma zfill_one_digit (a : ascii) :
  Py.is_digit a = true ->
  Py.zfill 2 (String a EmptyString) = String "0" (String a EmptyString).
Proof.
  intros Ha. destruct a as [[] [] [] [] [] [] [] []]; try discriminate Ha; reflexivity.
Qed.

Lemma zfill_two_digits (a b : ascii) :
  Py.is_digit a = true ->
  Py.zfill 2 (String a (String b EmptyString)) = String a (String b EmptyString).
Proof.
  intros Ha. destruct a as [[] [] [] [] [] [] [] []]; try discriminate Ha; reflexivity.
Qed.

(** X19.  A month may be typed in the seasons table with or without its
    leading zero and with blanks around it: a cell entry of one or two
    digits yields the two-digit token of the same number, so the
    two-digit month of a file name is found in the list of the season
    whenever its number was typed. *)
Theorem typed_month_matches_file_month
    (months_str raw m : string) (v : Z) :
  raw ∈ Py.split "," months_str ->
  all_digits (Py.strip raw) = true ->
  (1 <= String.length (Py.strip raw) <= 2)%nat ->
  Py.int (Py.strip raw) = Some v ->
  all_digits m = true -> String.length m = 2%nat -> Py.int m = Some v ->
  Py.zfill 2 (Py.strip raw) = m /\ m ∈ Seasonal.months_of months_str.
Proof.
  intros Hraw Hd Hlen Hint Hm Hlm Hintm.
  assert (Htoken : Py.zfill 2 (Py.strip raw) = m).
  { destruct m as [|m1 [|m2 [|? ?]]]; try discriminate Hlm.
    simpl in Hm. apply andb_true_iff in Hm as [Hm1 Hm2].
    apply andb_true_iff in Hm2 as [Hm2 _].
    rewrite int_two_digits in Hintm by done. injection Hintm as Hv.
    pose proof (digit_value_bounds _ Hm1) as Bm1.
    pose proof (digit_value_bounds _ Hm2) as Bm2.
    destruct (Py.strip raw) as [|a [|b [|? ?]]]; simpl in Hlen; try lia.
    - simpl in Hd. apply andb_true_iff in Hd as [Ha _].
      rewrite int_one_digit in Hint by done. injection Hint as Hva.
      pose proof (digit_value_bounds _ Ha) as Ba.
      rewrite zfill_one_digit by done.
      assert (E1 : Py.digit_value m1 = Py.digit_value "0")
        by (change (Py.digit_value "0") with 0; lia).
      assert (E2 : Py.digit_value m2 = Py.digit_value a) by lia.
      apply digit_value_inj in E1, E2. by subst.
    - simpl in Hd. apply andb_true_iff in Hd as [Ha Hb].
      apply andb_true_iff in Hb as [Hb _].
      rewrite int_two_digits in Hint by done. injection Hint as Hva.
      pose proof (digit_value_bounds _ Ha) as Ba.
      pose proof (digit_value_bounds _ Hb) as Bb.
      rewrite zfill_two_digits by done.
      assert (E1 : Py.digit_value m1 = Py.digit_value a) by lia.
      assert (E2 : Py.digit_value m2 = Py.digit_value b) by lia.
      apply digit_value_inj in E1, E2. by subst. }
  split; [done|]. unfold Seasonal.months_of.
  apply list_elem_of_fmap. exists raw. by rewrite Htoken.
Qed.

Lemma typed_month_matches_file_month_witness :
  Py.zfill 2 (Py.strip " 1") = "01" /\ "01" ∈ Seasonal.months_of "12, 1,2".
Proof.
  apply (typed_month_matches_file_month "12, 1,2" " 1" "01" 1);
    try reflexivity; [|simpl; lia].
  vm_compute. apply list_elem_of_In. simpl. tauto.
Defined.

(** *** A contributor that does not open *)

Lemma range_head stop step :
  0 < step -> 1 <= stop -> exists l, Py.range stop step = 0 :: l.
Proof.
  intros Hstep Hstop. unfold Py.range.
  assert (Hn : 1 <= (stop + step - 1) / step) by (apply Z.div_le_lower_bound; lia).
  destruct (Z.to_nat ((stop + step - 1) / step)) as [|m] eqn:Hm; [lia|].
  simpl. by eexists.
Qed.

Lemma add_slot_as_outcome t w x y xsize ysize slot s :
  match add_slot_as t w x y xsize ysize slot s with
  | Ok _ => forall path, slot = Some path -> Open w path <> None
  | Raise e => exists attr, e = AttributeError attr
  end.
Proof.
  unfold add_slot_as. destruct slot as [path|]; [|by intros ? [=]].
  destruct (Open w path) as [ds|] eqn:Hopen; [|by eexists].
  destruct (ReadAsArray ds x y xsize ysize); [|by eexists].
  intros ? [= <-]. by rewrite Hopen.
Qed.

Lemma block_sum_missing t w x y xsize ysize rasters path s :
  path ∈ rasters -> Open w path = None ->
  exists attr,
    for_res (add_slot_as t w x y xsize ysize) (map Some rasters) s
    = Raise (AttributeError attr).
Proof.
  intros Hin Hopen. revert s.
  induction rasters as [|r rasters IH]; intros s; [by apply elem_of_nil in Hin|].
  cbn [map for_res].
  pose proof (add_slot_as_outcome t w x y xsize ysize (Some r) s) as Hout.
  destruct (add_slot_as t w x y xsize ysize (Some r) s) as [s'|e].
  - rewrite res_bind_Ok. apply elem_of_cons in Hin as [->|Hin].
    + by destruct (Hout r eq_refl).
    + by apply IH.
  - destruct Hout as [attr ->]. by exists attr.
Qed.

Lemma for_M_first_raises {X S} (body : X -> S -> M S) (x : X) (xs : list X) (s : S)
    (fb fb' : Feedback) (e : exn) :
  body x s fb = (fb', Raise e) -> for_M body (x :: xs) s fb = (fb', Raise e).
Proof. intros H. cbn [for_M]. unfold mbind, M_bind. by rewrite H. Qed.

(** X20.  A file that [gdal.Open] cannot open is not skipped.  The flat
    summation whose rasters include it, and the month of the monthly
    algorithm whose files include it, raise AttributeError on the first
    tile, after their opening message and before any progress or result
    is reported.  Each is stated on its own contributors: the rasters
    gathered under the folder, the files of the month. *)
Theorem unreadable_contributor_aborts_the_run (w : World) (fb : Feedback) :
  (forall (ps : Summation.Parameters) (first : string) (rest : list string)
          (ref : Dataset) (path : string),
     Summation.all_rasters w (Summation.INPUT_FOLDER ps) = first :: rest ->
     Open w first = Some ref ->
     1 <= RasterXSize ref -> 1 <= RasterYSize ref ->
     path ∈ rest -> Open w path = None ->
     exists attr,
       Summation.processAlgorithm w ps fb
       = (report (PushInfo (Found (S (List.length rest)))) fb,
          Raise (AttributeError attr)))
  /\ (forall (pm : Monthly.Parameters) (month first : string) (rest : list string)
             (ref : Dataset) (path : string) (outputs : list OutDataset),
        Open w first = Some ref ->
        1 <= RasterXSize ref -> 1 <= RasterYSize ref ->
        path ∈ rest -> Open w path = None ->
        exists attr,
          Monthly.process_month w pm (month, first :: rest) outputs fb
          = (report (PushInfo (ProcessingMonth month (S (List.length rest)))) fb,
             Raise (AttributeError attr))).
Proof.
  split.
  - intros ps first rest ref path Hall Hopen Hcols Hrows Hin Hnone.
    destruct (range_head (RasterYSize ref) 512 ltac:(lia) Hrows) as [ys Hys].
    destruct (range_head (RasterXSize ref) 512 ltac:(lia) Hcols) as [xs Hxs].
    assert (Hin' : path ∈ first :: rest) by (by right).
    destruct (block_sum_missing Np.uint32 w 0 0
                (Z.min 512 (RasterXSize ref - 0)) (Z.min 512 (RasterYSize ref - 0))
                (first :: rest) path
                (Np.zeros (Z.min 512 (RasterYSize ref - 0)) (Z.min 512 (RasterXSize ref - 0)))
                Hin' Hnone) as [attr Hsum].
    exists attr. unfold Summation.processAlgorithm. rewrite Hall.
    unfold mbind at 1, M_bind at 1, pushInfo. rewrite Hopen.
    unfold mbind at 1, M_bind at 1.
    unfold Summation.process_blocks, Summation.block_size. rewrite Hys.
    erewrite for_M_first_raises; [reflexivity|].
    unfold mbind at 1, M_bind at 1. rewrite Hxs.
    erewrite for_M_first_raises; [reflexivity|].
    unfold Summation.process_block. unfold mbind, M_bind, lift.
    by rewrite Summation_block_sum_as, Hsum.
  - intros pm month first rest ref path outputs Hopen Hcols Hrows Hin Hnone.
    destruct (range_head (RasterYSize ref) 512 ltac:(lia) Hrows) as [ys Hys].
    destruct (range_head (RasterXSize ref) 512 ltac:(lia) Hcols) as [xs Hxs].
    assert (Hin' : path ∈ first :: rest) by (by right).
    destruct (block_sum_missing Np.float32 w 0 0
                (Z.min 512 (RasterXSize ref - 0)) (Z.min 512 (RasterYSize ref - 0))
                (first :: rest) path
                (Np.zeros (Z.min 512 (RasterYSize ref - 0)) (Z.min 512 (RasterXSize ref - 0)))
                Hin' Hnone) as [attr Hsum].
    exists attr. unfold Monthly.process_month.
    unfold mbind at 1, M_bind at 1, pushInfo. rewrite Hopen.
    unfold mbind at 1, M_bind at 1.
    unfold Monthly.process_blocks, Monthly.block_size. rewrite Hys.
    erewrite for_M_first_raises; [reflexivity|]. rewrite Hxs.
    erewrite for_M_first_raises; [reflexivity|].
    unfold Monthly.process_block. unfold mbind, M_bind, lift.
    by rewrite Monthly_block_sum_as, Hsum.
Qed.

Lemma unreadable_contributor_aborts_the_run_witness :
  (exists attr,
     Summation.processAlgorithm broken_world (summation_params 0) quiet
     = (report (PushInfo (Found 2)) quiet, Raise (AttributeError attr)))
  /\ (exists attr,
        Monthly.process_month broken_world monthly_params
          ("01", ["in/a_2021-01-15.tif"; "in/b_2021-01-16.tif"]) [] quiet
        = (report (PushInfo (ProcessingMonth "01" 2)) quiet, Raise (AttributeError attr))).
Proof.
  destruct (unreadable_contributor_aborts_the_run broken_world quiet) as [Hflat Hmonth].
  split.
  - apply (Hflat (summation_params 0) "in/a_2021-01-15.tif" ["in/b_2021-01-16.tif"]
             (constant_raster 2 2 1 None north_up "EPSG:4326") "in/b_2021-01-16.tif");
      [reflexivity|reflexivity|simpl; lia|simpl; lia| |reflexivity].
    apply list_elem_of_In. simpl. tauto.
  - apply (Hmonth monthly_params "01" "in/a_2021-01-15.tif" ["in/b_2021-01-16.tif"]
             (constant_raster 2 2 1 None north_up "EPSG:4326") "in/b_2021-01-16.tif" []);
      [reflexivity|simpl; lia|simpl; lia| |reflexivity].
    apply list_elem_of_In. simpl. tauto.
Defined.

(** *** Seasonal frequency: the run *)

Lemma Seasonal_process_season_full w p seasons fb sy name months r rs first ref
    previous results :
  Seasonal.dict_get name seasons = Ok months ->
  find Seasonal.truthy (Seasonal.fill_months sy months (r :: rs)).1 = Some (Some first) ->
  Open w first = Some ref ->
  forallb (covers w (RasterXSize ref) (RasterYSize ref))
          (present_paths (Seasonal.fill_months sy months (r :: rs)).1) = true ->
  exists meta out,
    Seasonal.process_season w p seasons (sy, name, r :: rs) (previous, results) fb
    = (reports (seasonal_events p name sy months (r :: rs)) fb, Ok (meta, results ++ [out]))
    /\ out_path out
       = Py.path_join (Seasonal.OUTPUT_FOLDER p)
           (Seasonal.PREFIX p +:+ Seasonal.str sy +:+ "_" +:+ name +:+ ".tif")
    /\ out_type out = GDT_Float32 /\ out_nodata out = Some 0
    /\ produced ref (seasonal_pixel w (Seasonal.fill_months sy months (r :: rs)).1) out.
Proof.
  intros Hget Hfind Hopen Hcov. unfold Seasonal.process_season.
  rewrite Hget, M_bind_lift_Ok. unfold seasonal_events.
  destruct (Seasonal.fill_months sy months (r :: rs)) as [final_files month_year_list].
  simpl in Hfind, Hcov |- *.
  rewrite !M_bind_pushInfo.
  rewrite (Seasonal_first_available w final_files previous first ref Hfind Hopen).
  rewrite M_bind_lift_Ok.
  unfold mbind at 1, M_bind at 1.
  rewrite Seasonal_process_blocks_ok by (by rewrite forallb_present_paths).
  eexists _, _. split.
  - unfold mbind, M_bind, pushInfo, mret, M_ret.
    destruct (Seasonal.LOAD_MAPS p); simpl;
      repeat change (report ?e ?f) with (reports [e] f);
      rewrite !reports_app; simpl; reflexivity.
  - match goal with |- context [write_all ?ws ?o] =>
      destruct (write_all_fields ws o) as (? & Hx & Hy & Ht & ? & Hg & Hp & ? & ?)
    end.
    simpl in *. split; [done|]. split; [done|]. split; [done|].
    apply produced_intro; simpl; try done. by rewrite written_write_all.
Qed.

Lemma process_seasons w p seasons (items : list (Z * string * list (Z * string * string)))
    previous results fb :
  Forall (fun item => item.2 <> [] /\ season_ready w seasons item = true) items ->
  exists fb' meta outs,
    for_M (Seasonal.process_season w p seasons) items (previous, results) fb
    = (fb', Ok (meta, results ++ outs))
    /\ Forall2 (seasonal_output w p seasons) items outs.
Proof.
  intros Hall. revert previous results fb.
  induction Hall as [|[[sy name] mf] items [Hne Hready] _ IH]; intros previous results fb.
  - exists fb, previous, []. by rewrite app_nil_r.
  - simpl in Hne. destruct mf as [|r rs]; [done|].
    unfold season_ready, season_files in Hready. simpl in Hready.
    destruct (Seasonal.dict_get name seasons) as [months|] eqn:Hget; [|done].
    destruct (present_paths (Seasonal.fill_months sy months (r :: rs)).1)
      as [|first rest] eqn:Hpresent; [done|].
    destruct (Open w first) as [ref|] eqn:Hopen; [|done].
    pose proof (present_paths_find _ _ _ Hpresent) as Hfind.
    rewrite <- Hpresent in Hready.
    destruct (Seasonal_process_season_full w p seasons fb sy name months r rs first ref
                previous results Hget Hfind Hopen Hready)
      as (meta & out & Hrun & Hpath & Ht & Hn & Hprod).
    destruct (IH meta (results ++ [out])
                (reports (seasonal_events p name sy months (r :: rs)) fb))
      as (fb2 & meta2 & outs & Hrun2 & Hall2).
    exists fb2, meta2, (out :: outs). split.
    + cbn [for_M]. unfold mbind at 1, M_bind at 1. rewrite Hrun, Hrun2.
      by rewrite <- app_assoc.
    + constructor; [|done]. unfold seasonal_output, season_files. simpl.
      rewrite Hget. split; [done|]. split; [done|]. split; [done|].
      exists first, ref. by rewrite Hpresent.
Qed.

Lemma by_season_total a b : Seasonal.by_season a b = true \/ Seasonal.by_season b a = true.
Proof.
  destruct a as [[y1 n1] l1], b as [[y2 n2] l2]. unfold Seasonal.by_season.
  destruct (String.leb_total n1 n2) as [Hn|Hn]; rewrite Hn;
    destruct (Z.ltb_spec y1 y2), (Z.ltb_spec y2 y1), (Z.eqb_spec y1 y2), (Z.eqb_spec y2 y1);
    simpl; try lia; auto.
Qed.

Lemma by_season_trans a b c :
  Seasonal.by_season a b = true -> Seasonal.by_season b c = true ->
  Seasonal.by_season a c = true.
Proof.
  destruct a as [[y1 n1] l1], b as [[y2 n2] l2], c as [[y3 n3] l3].
  unfold Seasonal.by_season.
  intros [H12%Z.ltb_lt|[H12%Z.eqb_eq Hn12]%andb_true_iff]%orb_true_iff
         [H23%Z.ltb_lt|[H23%Z.eqb_eq Hn23]%andb_true_iff]%orb_true_iff;
    apply orb_true_iff.
  - left. apply Z.ltb_lt. lia.
  - left. apply Z.ltb_lt. lia.
  - left. apply Z.ltb_lt. lia.
  - right. apply andb_true_iff. split; [apply Z.eqb_eq; lia|].
    by eapply string_leb_trans.
Qed.

Lemma by_season_strict (l : list (Z * string * list (Z * string * string))) :
  StronglySorted (fun a b => Seasonal.by_season a b = true) l -> NoDup l.*1 ->
  StronglySorted season_before l.*1.
Proof.
  induction 1 as [|a l Hl IH Ha]; intros Hnd; csimpl; [constructor|].
  csimpl in Hnd. apply NoDup_cons in Hnd as [Hnotin Hnd]. constructor; [by apply IH|].
  apply Forall_forall. intros k (b & -> & Hb)%list_elem_of_fmap.
  assert (Hne : a.1 <> b.1).
  { intros Heq. apply Hnotin. rewrite Heq. apply list_elem_of_fmap. by exists b. }
  eapply Forall_forall in Ha; [|exact Hb].
  destruct a as [[y1 n1] l1], b as [[y2 n2] l2]. unfold Seasonal.by_season in Ha.
  unfold season_before. simpl in *.
  apply orb_true_iff in Ha as [H12%Z.ltb_lt|[H12%Z.eqb_eq Hn]%andb_true_iff]; [by left|].
  right. split; [done|]. apply string_leb_ltb; [done|]. intros ->. by subst.
Qed.

(** X21.  When every season-year can be summed, the seasonal run
    succeeds and saves one map per season-year, ordered by season-year
    and then by season name; the map is named after both, is a Float32
    raster with nodata 0 on the grid of the first present file of the
    season-year, and holds at every pixel the sum over its present
    files. *)
Theorem seasonal_run_saves_one_map_per_season_year
    (w : World) (p : Seasonal.Parameters) (fb : Feedback)
    (seasons : list (string * list string))
    (items : list (Z * string * list (Z * string * string))) :
  seasonal_plan w p = Ok (seasons, items) ->
  forallb (season_ready w seasons) items = true ->
  exists fb' outs,
    Seasonal.processAlgorithm w p fb = (fb', Ok outs)
    /\ Forall2 (seasonal_output w p seasons) items outs
    /\ StronglySorted season_before items.*1.
Proof.
  unfold seasonal_plan. intros Hplan Hready.
  destruct (Seasonal.read_seasons (Seasonal.SEASONS p) []) as [seasons0|] eqn:Hread;
    [|done].
  rewrite res_bind_Ok in Hplan.
  destruct (Seasonal.sort_rasters _) as [rasters|] eqn:Hsort; [|done].
  rewrite res_bind_Ok in Hplan.
  destruct (Seasonal.build_season_raster_map seasons0 rasters) as [mp|] eqn:Hbuild; [|done].
  rewrite res_bind_Ok in Hplan. injection Hplan as -> <-.
  set (items := sorted Seasonal.by_season (map_to_list mp)) in *.
  assert (Hperm : items ≡ₚ map_to_list mp) by apply sorted_Permutation.
  destruct (Seasonal_scan_spec w (Seasonal.INPUT_FOLDER p)
              (report (PushInfo (UsingSeasons seasons)) fb)) as (es & Hscan & _ & _).
  destruct (process_seasons w p seasons items None []
              (reports es (report (PushInfo (UsingSeasons seasons)) fb)))
    as (fb2 & meta & outs & Hrun & Hall).
  { apply Forall_forall. intros [[sy name] mf] Hin. split.
    - simpl. intros ->. rewrite Hperm in Hin. apply elem_of_map_to_list in Hin.
      by apply season_raster_map_nonempty with (key := (sy, name)) in Hbuild.
    - rewrite forallb_forall in Hready. by apply Hready, list_elem_of_In. }
  exists (report (PushInfo AllSeasonalCreated) fb2), outs. split; [|split; [done|]].
  - unfold Seasonal.processAlgorithm. rewrite Hread, M_bind_lift_Ok, M_bind_pushInfo.
    unfold mbind at 1, M_bind at 1. rewrite Hscan, Hsort, M_bind_lift_Ok.
    rewrite Hbuild, M_bind_lift_Ok. fold items.
    unfold mbind at 1, M_bind at 1. rewrite Hrun. reflexivity.
  - apply by_season_strict.
    + apply sorted_StronglySorted; [apply by_season_total|apply by_season_trans].
    + rewrite Hperm. apply NoDup_fst_map_to_list.
Qed.

Lemma seasonal_run_saves_one_map_per_season_year_witness :
  let seasons := [("DJF", ["12"; "01"; "02"])] in
  let items := [(2022, "DJF", [(2022, "12", "in/f_2022-12-05.tif");
                               (2023, "01", "in/f_2023-01-05.tif");
                               (2023, "01", "in/g_2023-01-09.tif")])] in
  exists fb' outs,
    Seasonal.processAlgorithm winter_world seasonal_params quiet = (fb', Ok outs)
    /\ Forall2 (seasonal_output winter_world seasonal_params seasons) items outs
    /\ StronglySorted season_before items.*1.
Proof.
  apply (seasonal_run_saves_one_map_per_season_year winter_world seasonal_params quiet);
    vm_compute; reflexivity.
Defined.

(** *** The date identifier of the monthly zonal statistics *)

Lemma split_parts_free sep s : Forall (fun p => free_of sep p = true) (Py.split sep s).
Proof.
  induction s as [|c s IH]; [by repeat constructor|]. cbn [Py.split].
  destruct (Ascii.eqb c sep) eqn:Hc; [by constructor|].
  destruct (Py.split sep s) as [|w ws].
  - repeat constructor. simpl. by rewrite Hc.
  - inversion IH; subst. constructor; [|done]. simpl. by rewrite Hc.
Qed.

Lemma split_two sep s a b :
  Py.split sep s = [a; b] <->
  s = a +:+ String sep b /\ free_of sep a = true /\ free_of sep b = true.
Proof.
  split.
  - intros Hsplit. pose proof (split_parts_free sep s) as Hfree. rewrite Hsplit in Hfree.
    inversion Hfree as [|? ? Ha Hfree']; subst. inversion Hfree' as [|? ? Hb _]; subst.
    split; [|done].
    destruct (split_spec sep s) as (parts & t & Hs & _ & Heq). rewrite Hsplit in Hs.
    destruct parts as [|p [|q parts]]; try discriminate Hs.
    + injection Hs as -> ->. exact Heq.
    + injection Hs as _ _ Hs. by destruct parts.
  - intros (-> & Ha & Hb). by rewrite split_app, !split_free.
Qed.

(** X22.  The monthly zonal statistics accept a date identifier exactly
    when it holds one colon with, on each side, nothing or an integer
    literal; every other identifier raises the QgsProcessingException
    that quotes it, before any raster is looked at, so also when there is
    no raster at all. *)
Theorem date_identifier_is_validated (date_id : string) (raster_files : list string) :
  match MonthlyZonal.parse_slice date_id with
  | MonthlyZonal.Done slice_obj =>
      exists a b, date_id = a +:+ ":" +:+ b
        /\ free_of ":" a = true /\ free_of ":" b = true
        /\ MonthlyZonal.bound a = Some slice_obj.1
        /\ MonthlyZonal.bound b = Some slice_obj.2
  | MonthlyZonal.Failed f =>
      f = MonthlyZonal.QgsProcessingException
            ("Invalid date identifier '" +:+ date_id +:+ "'.")
      /\ ~ valid_date_id date_id
      /\ MonthlyZonal.suffixes date_id raster_files = MonthlyZonal.Failed f
  end.
Proof.
  unfold MonthlyZonal.suffixes, MonthlyZonal.parse_slice, valid_date_id.
  destruct (Py.split ":" date_id) as [|a [|b [|c l]]] eqn:Hsplit.
  - split; [done|]. split; [|done].
    intros (a' & b' & Heq & Ha' & Hb' & _).
    assert (Hs : Py.split ":" date_id = [a'; b']) by (apply split_two; done).
    congruence.
  - split; [done|]. split; [|done].
    intros (a' & b' & Heq & Ha' & Hb' & _).
    assert (Hs : Py.split ":" date_id = [a'; b']) by (apply split_two; done).
    congruence.
  - destruct (MonthlyZonal.bound a) as [start|] eqn:Hba.
    + destruct (MonthlyZonal.bound b) as [stop|] eqn:Hbb.
      * apply split_two in Hsplit as (Heq & Ha & Hb). by exists a, b.
      * split; [done|]. split; [|done].
        intros (a' & b' & Heq & Ha' & Hb' & Hba' & Hbb').
        assert (Hs : Py.split ":" date_id = [a'; b']) by (apply split_two; done).
        rewrite Hsplit in Hs. injection Hs as <- <-. congruence.
    + split; [done|]. split; [|done].
      intros (a' & b' & Heq & Ha' & Hb' & Hba' & Hbb').
      assert (Hs : Py.split ":" date_id = [a'; b']) by (apply split_two; done).
      rewrite Hsplit in Hs. injection Hs as <- <-. congruence.
  - split; [done|]. split; [|done].
    intros (a' & b' & Heq & Ha' & Hb' & _).
    assert (Hs : Py.split ":" date_id = [a'; b']) by (apply split_two; done).
    congruence.
Qed.

(** X23.  The monthly zonal statistics name the fields of a raster after
    a slice of the token between the last two underscores of its name:
    with bounds inside the token the suffix is the characters from the
    first bound up to the second, with no bounds it is the whole token.
    A name without underscore has no such token and raises IndexError. *)
Theorem date_suffix_is_slice_of_second_last_token
    (dir lead date tail ext : string) (start stop : Z) :
  free_of "/" lead = true -> free_of "/" date = true -> free_of "/" tail = true ->
  free_of "_" date = true -> free_of "_" tail = true ->
  free_of "/" ext = true -> free_of "." ext = true ->
  0 <= start <= stop -> stop <= Z.of_nat (String.length date) ->
  let raster_path :=
    dir +:+ "/" +:+ lead +:+ "_" +:+ date +:+ "_" +:+ tail +:+ "." +:+ ext in
  MonthlyZonal.suffix (Some start, Some stop) raster_path
  = Ok (substring (Z.to_nat start) (Z.to_nat (stop - start)) date)
  /\ MonthlyZonal.suffix (None, None) raster_path = Ok date
  /\ forall name, free_of "_" name = true ->
        MonthlyZonal.date_part name = Raise IndexError.
Proof.
  intros Hl Hd Ht Hud Hut He Hdot Hstart Hstop raster_path.
  assert (Hname : Zonal.raster_name raster_path = lead +:+ "_" +:+ date +:+ "_" +:+ tail).
  { unfold raster_path.
    replace (dir +:+ "/" +:+ lead +:+ "_" +:+ date +:+ "_" +:+ tail +:+ "." +:+ ext)
      with (dir +:+ "/" +:+ (lead +:+ "_" +:+ date +:+ "_" +:+ tail) +:+ "." +:+ ext).
    - apply raster_name_stem; [|apply has_non_dot_underscore|done|done].
      rewrite free_of_app, Hl.
      change ("_" +:+ date +:+ "_" +:+ tail) with (String "_" (date +:+ String "_" tail)).
      simpl. rewrite free_of_app, Hd. exact Ht.
    - rewrite append_assoc.
      change (("_" +:+ date +:+ "_" +:+ tail) +:+ "." +:+ ext)
        with (String "_" ((date +:+ "_" +:+ tail) +:+ "." +:+ ext)).
      by rewrite append_assoc. }
  assert (Hpart : MonthlyZonal.date_part (lead +:+ "_" +:+ date +:+ "_" +:+ tail) = Ok date).
  { unfold MonthlyZonal.date_part.
    change (lead +:+ "_" +:+ date +:+ "_" +:+ tail)
      with (lead +:+ String "_" (date +:+ String "_" tail)).
    rewrite !split_app, (split_free "_" date), (split_free "_" tail) by done.
    by rewrite !reverse_app. }
  unfold MonthlyZonal.suffix. rewrite Hname, Hpart, !res_bind_Ok.
  unfold MonthlyZonal.getslice, MonthlyZonal.clamp. simpl.
  split; [|split].
  - destruct (Z.ltb_spec start 0), (Z.ltb_spec stop 0); try lia.
    by rewrite !Z.min_l by lia.
  - rewrite Z.sub_0_r, Nat2Z.id. simpl. by rewrite substring_all.
  - intros name Hfree. unfold MonthlyZonal.date_part. by rewrite split_free.
Qed.

Lemma date_suffix_is_slice_of_second_last_token_witness :
  let raster_path :=
    "maps" +:+ "/" +:+ "flood" +:+ "_" +:+ "20210115" +:+ "_" +:+ "v1" +:+ "." +:+ "tif" in
  MonthlyZonal.suffix (Some 4, Some 6) raster_path
  = Ok (substring (Z.to_nat 4) (Z.to_nat (6 - 4)) "20210115")
  /\ MonthlyZonal.suffix (None, None) raster_path = Ok "20210115"
  /\ forall name, free_of "_" name = true ->
        MonthlyZonal.date_part name = Raise IndexError.
Proof.
  apply (date_suffix_is_slice_of_second_last_token "maps" "flood" "20210115" "v1" "tif" 4 6);
    try reflexivity; simpl; lia.
Defined.
